(** * dubbo-go: the Nacos service registry (package [nacos], registry.go)

    A shallow embedding of the registry client: service-identity
    composition, the registration record, the availability probe,
    Register / UnRegister, the subscription primitives, the event pump and
    the shutdown sequence, followed by the properties proved about them. *)

From Stdlib Require Import ZArith String Ascii Floats List Lia Bool DecimalString.
From stdpp Require Import gmap strings list.

Local Open Scope Z_scope.

(** ** Go values *)

(** A Go [error] value, identified by its message ([perrors.New], or an error
    of the naming SDK). [option error] is a Go error that may be nil. *)
Inductive error := errorString (msg : string).

Definition Error (e : error) : string := match e with errorString m => m end.

(** Modelled from the spec: common.URL (package common, not under src/), "an
    opaque structured identifier (host, port, protocol, path, and an open
    key/value parameter map)". *)
Record URL := mkURL {
  Protocol : string;
  Path : string;
  Ip : string;
  Port : string;
  Methods : list string;
  params : gmap string string
}.

(** Modelled from the spec: URL.GetParam (package common, not under src/): the
    value of a parameter, or the given default when it is unspecified. *)
Definition GetParam (u : URL) (key d : string) : string :=
  match params u !! key with
  | Some v => if decide (v = "") then d else v
  | None => d
  end.

(** URLs are handled through pointers ([*common.URL]). *)
Definition URLRef := nat.

(** ** Package strings of the Go standard library (byte strings) *)
Module GoStrings.

Fixpoint HasPrefix (s pre : string) : bool :=
  match pre, s with
  | EmptyString, _ => true
  | String c pre', String d s' => if decide (c = d) then HasPrefix s' pre' else false
  | String _ _, EmptyString => false
  end.

Fixpoint Contains (s substr : string) : bool :=
  HasPrefix s substr ||
  match s with
  | EmptyString => false
  | String _ s' => Contains s' substr
  end.

(** [Split] for a non-empty separator (every call site passes a one-byte
    constant): [skip] counts the bytes of a matched separator still to drop,
    [cur] is the piece being read. *)
Fixpoint Split_go (s sep : string) (skip : nat) (cur : string) : list string :=
  match s with
  | EmptyString => [cur]
  | String c s' =>
      match skip with
      | S k => Split_go s' sep k cur
      | O =>
          if HasPrefix s sep
          then cur :: Split_go s' sep (String.length sep - 1) EmptyString
          else Split_go s' sep O (cur +:+ String c EmptyString)
      end
  end.

Definition Split (s sep : string) : list string := Split_go s sep O EmptyString.

Fixpoint Join (elems : list string) (sep : string) : string :=
  match elems with
  | [] => EmptyString
  | [x] => x
  | x :: rest => x +:+ sep +:+ Join rest sep
  end.

End GoStrings.

(** ** Package time *)
Module GoTime.

Definition maxDuration : Z := 2 ^ 63 - 1.
Definition minDuration : Z := - 2 ^ 63.
Definition Second : Z := 1000000000.

(** [t.Sub(u)]: the difference in nanoseconds, saturated to the range of
    [Duration]. Instants are nanoseconds on one time line. *)
Definition Sub (t u : Z) : Z :=
  if maxDuration <? t - u then maxDuration
  else if t - u <? minDuration then minDuration
  else t - u.

(** The zero [time.Time] (January 1, year 1), in nanoseconds before the Unix
    epoch: the value of a [lastCheckTime] never written. *)
Definition zeroTime : Z := -62135596800 * Second.

End GoTime.

(** ** What the registry file takes from outside src/ *)

(** The constants of package constant and common whose values the spec does
    not give, the functions of the Go standard library that are not modelled
    byte by byte, and the helpers of the repository's other files. The
    registry is verified for every instance. *)
Class Deps := {
  (* parameter keys *)
  RegistryRoleKey : string;
  InterfaceKey : string;
  VersionKey : string;
  GroupKey : string;
  WeightKey : string;
  CategoryKey : string;
  MethodsKey : string;
  NacosCategoryKey : string;
  NacosProtocolKey : string;
  NacosPathKey : string;
  NacosGroupKey : string;
  RegistryGroupKey : string;
  (* values *)
  DefaultCategory : string;
  AnyValue : string;
  defaultGroup : string;
  NacosDefaultRoleType : Z;
  CONSUMER : Z;
  DubboNodes : list string;
  MinNacosWeight : float;
  (* strconv.Atoi: the integer returned; every call site drops the error *)
  Atoi : string -> Z;
  Itoa : Z -> string;
  (* strconv.ParseFloat(s, 64) *)
  ParseFloat : string -> float * option error;
  TrimSpace : string -> string;
  (* common.HandleRegisterIPAndPort: the Ip and Port it gives the URL *)
  HandleRegisterIPAndPort : URL -> string * string;
  (* getSubscribeName of the listener file *)
  getSubscribeName : URL -> string
}.

(** Modelled from the spec: constant.NacosServiceNameSeparator (not under
    src/), the "reserved separator" of the service identity, as it shows in
    the names of section 8 ("providers:com.foo.Bar:1.0:g1"). *)
Definition NacosServiceNameSeparator : string := ":".

(** Modelled from the spec: constant.CommaSeparator (not under src/), of the
    "comma-separated category list". *)
Definition CommaSeparator : string := ",".

(** Modelled from the spec: constant.DefaultNacosWeight (not under src/), the
    "default weight (1.0)". *)
Definition DefaultNacosWeight : float := 1%float.

(** Modelled from the spec: constant.MaxNacosWeight (not under src/), the
    "maximum threshold (10000)". *)
Definition MaxNacosWeight : float := 10000%float.

Definition LookupInterval : Z := 20 * GoTime.Second.
Definition checkInterval : Z := 5 * GoTime.Second.

(** ** Records of the naming SDK (package vo, model) *)

Record RegisterInstanceParam := mkRegisterInstanceParam {
  ri_Ip : string;
  ri_Port : Z;
  ri_Metadata : gmap string string;
  ri_Weight : float;
  ri_Enable : bool;
  ri_Healthy : bool;
  ri_Ephemeral : bool;
  ri_ServiceName : string;
  ri_GroupName : string
}.

Record DeregisterInstanceParam := mkDeregisterInstanceParam {
  di_Ip : string;
  di_Port : Z;
  di_ServiceName : string;
  di_GroupName : string;
  di_Ephemeral : bool
}.

Record GetAllServiceInfoParam := mkGetAllServiceInfoParam {
  ga_GroupName : string;
  ga_PageNo : Z;
  ga_PageSize : Z
}.

Record ServiceList := mkServiceList { Count : Z; Doms : list string }.

Record SubscribeParam := mkSubscribeParam {
  sp_ServiceName : string;
  sp_GroupName : string
}.

Definition MaxInt32 : Z := 2 ^ 31 - 1.

(** [uint64(port)] of a Go [int]. *)
Definition uint64 (n : Z) : Z := n mod 2 ^ 64.

(** ** Registry values *)

Inductive INamingClient := SdkClient.

(** [*nacosClient.NacosNamingClient]: a wrapper whose [Client()] may be nil. *)
Record NacosNamingClient := mkNamingClient { Client : option INamingClient }.

(** [c != nil && c.Client() != nil], as the client it yields. *)
Definition clientOf (c : option NacosNamingClient) : option INamingClient :=
  match c with
  | Some nc => Client nc
  | None => None
  end.
Arguments clientOf : simpl never.

(** Modelled from the spec: nacosListener of the listener file (not under
    src/), the "subscription handle scoped to the service name", as
    [NewNacosListenerWithServiceName(serviceName, nr.URL, nr.namingClient)]
    builds it. *)
Record nacosListener := mkListener {
  l_serviceName : string;
  l_regURL : URLRef;
  l_namingClient : option NacosNamingClient
}.

Definition NewNacosListenerWithServiceName
  (serviceName : string) (regURL : URLRef) (c : option NacosNamingClient) : nacosListener :=
  mkListener serviceName regURL c.

(** [registry.NotifyListener]: the consumer's sink, known by its identity. *)
Record NotifyListener := mkNotifyListener { sink : nat }.

Inductive EventType := EventTypeAdd | EventTypeDel | EventTypeUpdate.

Record ServiceEvent := mkServiceEvent { Action : EventType; Service : URL }.

Record availabilityCache := mkAvailabilityCache {
  lastAvailable : bool;
  lastCheckTime : Z
}.

(** The registry, as the success path of [newNacosRegistry] builds it and its
    methods change it: [done] is an allocated channel, [true] once closed;
    [wg] counts the event pumps not yet exited. *)
Record nacosRegistry := mkRegistry {
  nrURL : URLRef;
  namingClient : option NacosNamingClient;
  registryUrls : list URLRef;
  done : bool;
  availability : availabilityCache;
  wg : nat
}.

(** Goroutines started with [go]. *)
Inductive Goroutine :=
| GoScheduledLookUp (url : URLRef) (n : NotifyListener)
| GoHandleServiceEvents (l : nacosListener) (n : NotifyListener).

Inductive LogLevel := LInfo | LWarn | LError.

(** The arguments of a log line. *)
Inductive LogArg :=
| ArgString (s : string)
| ArgError (e : option error)
| ArgFloat (f : float)
| ArgRegisterParam (p : RegisterInstanceParam)
| ArgURL (url : URLRef)
| ArgEvent (ev : ServiceEvent).

Inductive MetricEvent :=
| RegisterEvent (succ : bool) (start : Z)
| SubscribeEvent (succ : bool).

(** What a run does to the world outside the registry value, in order. *)
Inductive Effect :=
| CallRegisterInstance (p : RegisterInstanceParam)
| CallDeregisterInstance (p : DeregisterInstanceParam)
| CallGetAllServicesInfo (p : GetAllServiceInfoParam)
| CallSubscribe (p : SubscribeParam)
| CallCloseClient
| CloseDone
| ListenerNext (l : nacosListener) (ev : ServiceEvent) (err : option error)
| ListenerClose (l : nacosListener)
| Notify (n : NotifyListener) (ev : ServiceEvent)
| Spawn (g : Goroutine)
| Sleep (d : Z)
| Log (lvl : LogLevel) (format : string) (args : list LogArg)
| Publish (m : MetricEvent).

(** ** The environment: the naming backend, the listeners' event sources and
    the clock, each a transition on an environment state. *)
Class Environment (E : Type) := {
  RegisterInstance : RegisterInstanceParam -> E -> (bool * option error) * E;
  DeregisterInstance : DeregisterInstanceParam -> E -> (bool * option error) * E;
  GetAllServicesInfo : GetAllServiceInfoParam -> E -> (ServiceList * option error) * E;
  SdkSubscribe : SubscribeParam -> E -> option error * E;
  CloseClient : E -> E;
  Next : nacosListener -> E -> (ServiceEvent * option error) * E;
  CloseOf : nacosListener -> E -> E;
  Now : E -> Z * E
}.

Section Registry.
Context `{D : Deps}.

(** ** Service identity *)

(** [common.DubboNodes[role]]; [None] is the index-out-of-range panic. *)
Definition getCategory (url : URL) : option string :=
  let role := Atoi (GetParam url RegistryRoleKey (Itoa NacosDefaultRoleType)) in
  if role <? 0 then None else DubboNodes !! Z.to_nat role.

(** The buffer is the string written so far. *)
Definition appendParam (target : string) (url : URL) (key : string) : string :=
  let value := GetParam url key "" in
  let target := target +:+ NacosServiceNameSeparator in
  if decide (TrimSpace value = "") then target else target +:+ value.

Definition getServiceName (url : URL) : option string :=
  match getCategory url with
  | None => None
  | Some category =>
      let buffer := category in
      let buffer := appendParam buffer url InterfaceKey in
      let buffer := appendParam buffer url VersionKey in
      let buffer := appendParam buffer url GroupKey in
      Some buffer
  end.

(** Modelled from the spec: common.HandleRegisterIPAndPort (package common, not
    under src/), which "normalizes the endpoint's network address
    representation": it rewrites the Ip and Port of the URL it is given. *)
Definition HandleRegisterIPAndPort_url (u : URL) : URL :=
  let '(ip, port) := HandleRegisterIPAndPort u in
  mkURL (Protocol u) (Path u) ip port (Methods u) (params u).

(** ** The world a method runs in *)

Context {E : Type} `{Env : Environment E}.

Record World := mkWorld {
  nr : nacosRegistry;
  listenerCache : gmap string nacosListener;
  heap : URLRef -> URL;
  env : E;
  trace : list Effect
}.

Inductive Outcome (A : Type) :=
| Ok (a : A) (w : World)
| Panic (reason : string) (w : World)
| Blocked (w : World)
| Unfinished (w : World).
Arguments Ok {A} a w.
Arguments Panic {A} reason w.
Arguments Blocked {A} w.
Arguments Unfinished {A} w.

(** A method body: from the world before to what it returns and the world
    after; or a panic; or parked forever; or a loop still running when the
    fuel of the run is spent. *)
Definition M (A : Type) : Type := World -> Outcome A.

#[global] Instance M_ret : MRet M := fun A a w => Ok a w.

#[global] Instance M_bind : MBind M := fun A B f m w =>
  match m w with
  | Ok a w' => f a w'
  | Panic r w' => Panic r w'
  | Blocked w' => Blocked w'
  | Unfinished w' => Unfinished w'
  end.

Definition panic {A} (reason : string) : M A := fun w => Panic reason w.
Definition park {A} : M A := fun w => Blocked w.
Definition unfinished {A} : M A := fun w => Unfinished w.

Definition gets {A} (f : nacosRegistry -> A) : M A := fun w => Ok (f (nr w)) w.

Definition modify (f : nacosRegistry -> nacosRegistry) : M unit :=
  fun w => Ok tt (mkWorld (f (nr w)) (listenerCache w) (heap w) (env w) (trace w)).

Definition emit (e : Effect) : M unit :=
  fun w => Ok tt (mkWorld (nr w) (listenerCache w) (heap w) (env w) (trace w ++ [e])).

Definition load (p : URLRef) : M URL := fun w => Ok (heap w p) w.

Definition update (p : URLRef) (f : URL -> URL) : M unit :=
  fun w => Ok tt (mkWorld (nr w) (listenerCache w)
                    (fun q => if decide (q = p) then f (heap w p) else heap w q)
                    (env w) (trace w)).

Definition cacheLoad (key : string) : M (option nacosListener) :=
  fun w => Ok (listenerCache w !! key) w.

Definition cacheStore (key : string) (l : nacosListener) : M unit :=
  fun w => Ok tt (mkWorld (nr w) (<[key := l]> (listenerCache w)) (heap w) (env w) (trace w)).

Definition cacheDelete (key : string) : M unit :=
  fun w => Ok tt (mkWorld (nr w) (delete key (listenerCache w)) (heap w) (env w) (trace w)).

Definition cacheEntries : M (list (string * nacosListener)) :=
  fun w => Ok (map_to_list (listenerCache w)) w.

(** A transition of the environment. *)
Definition perform {A} (f : E -> A * E) : M A :=
  fun w => let '(a, e') := f (env w) in
           Ok a (mkWorld (nr w) (listenerCache w) (heap w) e' (trace w)).

Definition logf (lvl : LogLevel) (format : string) (args : list LogArg) : M unit :=
  emit (Log lvl format args).

Definition orPanic {A} (o : option A) (reason : string) : M A :=
  match o with Some a => mret a | None => panic reason end.

Fixpoint forEach {A} (l : list A) (body : A -> M unit) : M unit :=
  match l with
  | [] => mret tt
  | x :: rest => body x ;; forEach rest body
  end.

(** [defer f] around a body: [f] runs when the body returns and when it
    panics. *)
Definition defer {A} (f : M unit) (body : M A) : M A := fun w =>
  match body w with
  | Ok a w' => (f ;; mret a) w'
  | Panic r w' => (f ;; panic r) w'
  | Blocked w' => Blocked w'
  | Unfinished w' => Unfinished w'
  end.

(** Setters of the registry's fields. *)
Definition set_namingClient (c : option NacosNamingClient) (r : nacosRegistry) : nacosRegistry :=
  mkRegistry (nrURL r) c (registryUrls r) (done r) (availability r) (wg r).
Definition set_registryUrls (l : list URLRef) (r : nacosRegistry) : nacosRegistry :=
  mkRegistry (nrURL r) (namingClient r) l (done r) (availability r) (wg r).
Definition set_done (b : bool) (r : nacosRegistry) : nacosRegistry :=
  mkRegistry (nrURL r) (namingClient r) (registryUrls r) b (availability r) (wg r).
Definition set_availability (a : availabilityCache) (r : nacosRegistry) : nacosRegistry :=
  mkRegistry (nrURL r) (namingClient r) (registryUrls r) (done r) a (wg r).
Definition set_wg (n : nat) (r : nacosRegistry) : nacosRegistry :=
  mkRegistry (nrURL r) (namingClient r) (registryUrls r) (done r) (availability r) n.
Definition set_lastAvailable (b : bool) (a : availabilityCache) : availabilityCache :=
  mkAvailabilityCache b (lastCheckTime a).
Definition set_lastCheckTime (t : Z) (a : availabilityCache) : availabilityCache :=
  mkAvailabilityCache (lastAvailable a) t.

(** [nr.GetParam(key, d)]: a parameter of the registry's own URL. *)
Definition nr_GetParam (key d : string) : M string :=
  p ← gets nrURL; u ← load p; mret (GetParam u key d).

(** [nr.namingClient.Client()] used as a receiver: a nil wrapper or a nil
    client is a nil dereference. *)
Definition nr_Client : M INamingClient :=
  c ← gets namingClient;
  match c with
  | None => panic "nil pointer dereference"
  | Some nc => orPanic (Client nc) "nil pointer dereference"
  end.

Definition time_Now : M Z := perform Now.

Definition time_Since (t : Z) : M Z := now ← time_Now; mret (GoTime.Sub now t).

(** ** createRegisterParam *)
Definition createRegisterParam (url : URLRef) (serviceName groupName : string)
  : M RegisterInstanceParam :=
  u ← load url;
  category ← orPanic (getCategory u) "index out of range";
  let params := params u in
  let params := <[NacosCategoryKey := category]> params in
  let params := <[NacosProtocolKey := Protocol u]> params in
  let params := <[NacosPathKey := Path u]> params in
  let params := <[MethodsKey := GoStrings.Join (Methods u) ","]> params in
  update url HandleRegisterIPAndPort_url ;;
  u ← load url;
  let port := Atoi (Port u) in
  let weightStr := GetParam u WeightKey "1.0" in
  let '(weight, err) := ParseFloat weightStr in
  weight ←
    (if bool_decide (err ≠ None) || (weight <=? MinNacosWeight)%float then
       logf LWarn "Invalid weight value %q, using default 1.0. err: %v"
         [ArgString weightStr; ArgError err] ;;
       mret DefaultNacosWeight
     else if (MaxNacosWeight <? weight)%float then
       logf LWarn "Weight %f exceeds Nacos maximum 10000, setting to 10000"
         [ArgFloat weight] ;;
       mret MaxNacosWeight
     else mret weight);
  mret {| ri_Ip := Ip u; ri_Port := uint64 port; ri_Metadata := params;
          ri_Weight := weight; ri_Enable := true; ri_Healthy := true;
          ri_Ephemeral := true; ri_ServiceName := serviceName;
          ri_GroupName := groupName |}.

(** ** Register *)
Definition Register (url : URLRef) : M (option error) :=
  start ← time_Now;
  u ← load url;
  serviceName ← orPanic (getServiceName u) "index out of range";
  groupName ← nr_GetParam NacosGroupKey defaultGroup;
  param ← createRegisterParam url serviceName groupName;
  logf LInfo "[Nacos Registry] Registry instance with param = %+v" [ArgRegisterParam param] ;;
  nr_Client ;;
  '(isRegistry, err) ← (emit (CallRegisterInstance param) ;; perform (RegisterInstance param));
  emit (Publish (RegisterEvent (bool_decide (err = None) && isRegistry) start)) ;;
  match err with
  | Some e => mret (Some e)
  | None =>
      if negb isRegistry then
        mret (Some (errorString ("registry [" +:+ serviceName +:+ "] to  nacos failed")))
      else
        urls ← gets registryUrls;
        modify (set_registryUrls (urls ++ [url])) ;;
        mret None
  end.

Definition createDeregisterParam (url : URLRef) (serviceName groupName : string)
  : M DeregisterInstanceParam :=
  update url HandleRegisterIPAndPort_url ;;
  u ← load url;
  let port := Atoi (Port u) in
  mret {| di_Ip := Ip u; di_Port := uint64 port; di_ServiceName := serviceName;
          di_GroupName := groupName; di_Ephemeral := true |}.

(** ** UnRegister *)
Definition UnRegister (url : URLRef) : M (option error) :=
  u ← load url;
  serviceName ← orPanic (getServiceName u) "index out of range";
  groupName ← nr_GetParam NacosGroupKey defaultGroup;
  param ← createDeregisterParam url serviceName groupName;
  nr_Client ;;
  '(isDeRegistry, err) ← (emit (CallDeregisterInstance param) ;; perform (DeregisterInstance param));
  match err with
  | Some e => mret (Some e)
  | None =>
      if negb isDeRegistry then
        mret (Some (errorString ("DeRegistry [" +:+ serviceName +:+ "] to nacos failed")))
      else mret None
  end.

(** ** IsAvailable (the mutex of the cache protects a body that runs here
    without interleaving) *)
Definition IsAvailable : M bool :=
  closed ← gets done;
  if closed : bool return M bool then mret false else
  ac ← gets availability;
  since ← time_Since (lastCheckTime ac);
  if since <? checkInterval return M bool then mret (lastAvailable ac) else
  now ← time_Now;
  modify (fun r => set_availability (set_lastCheckTime now (availability r)) r) ;;
  c ← gets namingClient;
  match clientOf c with
  | None =>
      modify (fun r => set_availability (set_lastAvailable false (availability r)) r) ;;
      mret false
  | Some _ =>
      groupName ← nr_GetParam RegistryGroupKey defaultGroup;
      let p := mkGetAllServiceInfoParam groupName 1 1 in
      '(_, err) ← (emit (CallGetAllServicesInfo p) ;; perform (GetAllServicesInfo p));
      modify (fun r => set_availability
                         (set_lastAvailable (bool_decide (err = None)) (availability r)) r) ;;
      ac ← gets availability;
      mret (lastAvailable ac)
  end.

(** ** The single-service subscribe primitive and its event pump *)

(** Modelled from the spec: listenService of the listener file (not under
    src/): "issues the remote listen call" and "installs [the handle]
    (implicitly, on success) into SubscriptionCache keyed by name+group"; a
    "nil backend" is an error "returned synchronously to the immediate
    caller". *)
Definition listenService (l : nacosListener) (serviceName : string) : M (option error) :=
  match clientOf (l_namingClient l) with
  | None => mret (Some (errorString "nacos naming namingClient stopped"))
  | Some _ =>
      u ← load (l_regURL l);
      let p := mkSubscribeParam serviceName (GetParam u RegistryGroupKey defaultGroup) in
      err ← (emit (CallSubscribe p) ;; perform (SdkSubscribe p));
      match err with
      | None => cacheStore (sp_ServiceName p +:+ sp_GroupName p) l ;; mret None
      | Some e => mret (Some e)
      end
  end.

(** [listener.Next()] and [listener.Close()] of [registry.Listener]. *)
Definition listener_Next (l : nacosListener) : M (ServiceEvent * option error) :=
  '(ev, err) ← perform (Next l);
  emit (ListenerNext l ev err) ;;
  mret (ev, err).

Definition listener_Close (l : nacosListener) : M unit :=
  emit (ListenerClose l) ;; perform (fun e => (tt, CloseOf l e)).

(** The loop of handleServiceEvents, run for at most [fuel] iterations. *)
Fixpoint handleServiceEvents_loop (fuel : nat) (listener : nacosListener)
  (notifyListener : NotifyListener) : M unit :=
  match fuel with
  | O => unfinished
  | S fuel' =>
      avail ← IsAvailable;
      if negb avail return M unit then mret tt else
      '(serviceEvent, err) ← listener_Next listener;
      match err with
      | Some e => logf LWarn "Selector.watch() = error{%v}" [ArgError (Some e)]
      | None =>
          logf LInfo "[Nacos Registry] Update begin, service event: %v"
            [ArgEvent serviceEvent] ;;
          emit (Notify notifyListener serviceEvent) ;;
          handleServiceEvents_loop fuel' listener notifyListener
      end
  end.

Definition handleServiceEvents (fuel : nat) (listener : nacosListener)
  (notifyListener : NotifyListener) : M unit :=
  defer (listener_Close listener) (handleServiceEvents_loop fuel listener notifyListener).

(** The goroutine [subscribe] starts: [defer nr.wg.Done()] around the pump.
    [Done] takes one from the counter of the wait group, and panics when
    that takes it below zero. *)
Definition wg_Done : M unit :=
  n ← gets wg;
  match n with
  | O => panic "sync: negative WaitGroup counter"
  | S n' => modify (set_wg n')
  end.

Definition eventPump (fuel : nat) (listener : nacosListener) (notifyListener : NotifyListener)
  : M unit :=
  defer wg_Done (handleServiceEvents fuel listener notifyListener).

Definition subscribe (serviceName : string) (notifyListener : NotifyListener)
  : M (option error) :=
  if decide (String.length serviceName = 0%nat) return M (option error) then
    logf LWarn "can not subscribe because service name is empty" [] ;;
    mret None
  else
  avail ← IsAvailable;
  if negb avail return M (option error) then
    logf LWarn "event listener game over." [] ;;
    mret (Some (errorString "nacosRegistry is not available."))
  else
  regURL ← gets nrURL;
  c ← gets namingClient;
  let listener := NewNacosListenerWithServiceName serviceName regURL c in
  err ← listenService listener serviceName;
  emit (Publish (SubscribeEvent (bool_decide (err = None)))) ;;
  match err with
  | Some e =>
      logf LWarn "subscribe service %s err:%v" [ArgString serviceName; ArgError (Some e)] ;;
      mret (Some e)
  | None =>
      n ← gets wg;
      modify (set_wg (S n)) ;;
      emit (Spawn (GoHandleServiceEvents listener notifyListener)) ;;
      mret None
  end.

(** The filter of getAllSubscribeServiceNames over the listed names. *)
Definition selectServiceNames (categories doms : list string) : list string :=
  flat_map (fun dom =>
    if GoStrings.Contains dom NacosServiceNameSeparator then
      let realCategory := hd "" (GoStrings.Split dom NacosServiceNameSeparator) in
      flat_map (fun item => if decide (item = realCategory) then [dom] else []) categories
    else []) doms.

Definition getAllSubscribeServiceNames (url : URLRef) : M (list string * option error) :=
  nr_Client ;;
  groupName ← nr_GetParam RegistryGroupKey defaultGroup;
  let p := mkGetAllServiceInfoParam groupName 1 MaxInt32 in
  '(services, err) ← (emit (CallGetAllServicesInfo p) ;; perform (GetAllServicesInfo p));
  match err with
  | Some e =>
      logf LError "query services error: %v" [ArgError (Some e)] ;;
      mret ([], Some e)
  | None =>
      u ← load url;
      let categories :=
        GoStrings.Split (GetParam u CategoryKey DefaultCategory) CommaSeparator in
      mret (selectServiceNames categories (Doms services), None)
  end.

(** The body of the loop of subscribeAll. *)
Definition subscribeEach (groupName : string) (notifyListener : NotifyListener)
  (name : string) : M unit :=
  cached ← cacheLoad (name +:+ groupName);
  match cached with
  | Some _ => mret tt
  | None =>
      err ← subscribe name notifyListener;
      match err with
      | Some e => logf LWarn "subscribe service %s err:%v" [ArgString name; ArgError (Some e)]
      | None => mret tt
      end
  end.

Definition subscribeAll (url : URLRef) (notifyListener : NotifyListener) : M unit :=
  groupName ← nr_GetParam RegistryGroupKey defaultGroup;
  '(serviceNames, err) ← getAllSubscribeServiceNames url;
  match err with
  | Some e => logf LWarn "getAllServices() = err:%v" [ArgError (Some e)]
  | None =>
      if decide (length serviceNames = 0%nat) then logf LWarn "No services to listen to." []
      else forEach serviceNames (subscribeEach groupName notifyListener)
  end.

(** "retry forever": at most [fuel] iterations of the loop. *)
Fixpoint subscribeUntilSuccess (fuel : nat) (url : URLRef) (notifyListener : NotifyListener)
  : M unit :=
  match fuel with
  | O => unfinished
  | S fuel' =>
      avail ← IsAvailable;
      if negb avail return M unit then mret tt else
      u ← load url;
      err ← subscribe (getSubscribeName u) notifyListener;
      match err with
      | None => mret tt
      | Some _ => subscribeUntilSuccess fuel' url notifyListener
      end
  end.

Fixpoint scheduledLookUp (fuel : nat) (url : URLRef) (notifyListener : NotifyListener)
  : M unit :=
  match fuel with
  | O => unfinished
  | S fuel' =>
      avail ← IsAvailable;
      if negb avail return M unit then mret tt else
      subscribeAll url notifyListener ;;
      emit (Sleep LookupInterval) ;;
      scheduledLookUp fuel' url notifyListener
  end.

(** ** Subscribe *)
Definition Subscribe (fuel : nat) (url : URLRef) (notifyListener : NotifyListener)
  : M (option error) :=
  u ← load url;
  let role := Atoi (GetParam u RegistryRoleKey "") in
  if decide (role ≠ CONSUMER) return M (option error) then mret None else
  let serviceName := GetParam u InterfaceKey "" in
  (if decide (serviceName = AnyValue) return M unit then
     subscribeAll url notifyListener ;;
     emit (Spawn (GoScheduledLookUp url notifyListener))
   else
     subscribeUntilSuccess fuel url notifyListener) ;;
  mret None.

(** ** Shutdown *)

Definition CloseListener : M unit :=
  entries ← cacheEntries;
  forEach entries (fun '(key, listener) => listener_Close listener ;; cacheDelete key).

Definition CloseAndNilClient : M unit :=
  c ← gets namingClient;
  match clientOf c with
  | Some _ =>
      emit CallCloseClient ;;
      perform (fun e => (tt, CloseClient e)) ;;
      modify (set_namingClient None)
  | None => mret tt
  end.

(** [close(nr.done)]: closing a closed channel panics. *)
Definition close_done : M unit :=
  closed ← gets done;
  if closed : bool return M unit then panic "close of closed channel"
  else modify (set_done true) ;; emit CloseDone.

(** The [select] of Destroy: receive from [done] if it is closed, else the
    default case. *)
Definition select_done : M bool := gets done.

(** [nr.wg.Wait()]: returns once no event pump is left; the pumps are not
    part of the run of a method, so a wait with pumps left stays parked. *)
Definition wg_Wait : M unit :=
  n ← gets wg;
  if decide (n = 0%nat) return M unit then mret tt else park.

(** The body of the loop of Destroy. *)
Definition deregisterEach (url : URLRef) : M unit :=
  err ← UnRegister url;
  logf LInfo "DeRegister Nacos URL:%+v" [ArgURL url] ;;
  match err with
  | Some e => logf LError "Deregister URL:%+v err:%v" [ArgURL url; ArgString (Error e)]
  | None => mret tt
  end.

Definition Destroy : M unit :=
  CloseListener ;;
  closed ← select_done;
  (if closed : bool return M unit then mret tt else close_done) ;;
  wg_Wait ;;
  urls ← gets registryUrls;
  forEach urls deregisterEach ;;
  modify (set_registryUrls []) ;;
  CloseAndNilClient.

(** ** Destroy, one statement at a time

    The same statements as [Destroy], each an atomic step of a caller's
    goroutine, so that two callers can be interleaved: nothing in the
    registry serialises them. *)
Inductive DestroyPC :=
| PcCloseListener
| PcSelect
| PcClose
| PcWait
| PcRange
| PcLoop (rest : list URLRef)
| PcClear
| PcCheckClient
| PcCloseClient
| PcNilClient
| PcReturn.

Definition Destroy_step (pc : DestroyPC) : M DestroyPC :=
  match pc with
  | PcCloseListener => CloseListener ;; mret PcSelect
  | PcSelect => closed ← select_done; mret (if closed : bool then PcWait else PcClose)
  | PcClose => close_done ;; mret PcWait
  | PcWait => wg_Wait ;; mret PcRange
  | PcRange => urls ← gets registryUrls; mret (PcLoop urls)
  | PcLoop [] => mret PcClear
  | PcLoop (url :: rest) => deregisterEach url ;; mret (PcLoop rest)
  | PcClear => modify (set_registryUrls []) ;; mret PcCheckClient
  | PcCheckClient =>
      c ← gets namingClient;
      mret (match clientOf c with Some _ => PcCloseClient | None => PcReturn end)
  | PcCloseClient =>
      nr_Client ;;
      emit CallCloseClient ;;
      perform (fun e => (tt, CloseClient e)) ;;
      mret PcNilClient
  | PcNilClient => modify (set_namingClient None) ;; mret PcReturn
  | PcReturn => mret PcReturn
  end.

(** One caller run alone, for at most [fuel] steps. *)
Fixpoint Destroy_thread (fuel : nat) (pc : DestroyPC) : M unit :=
  match pc with
  | PcReturn => mret tt
  | _ =>
      match fuel with
      | O => unfinished
      | S fuel' => pc' ← Destroy_step pc; Destroy_thread fuel' pc'
      end
  end.

(** Two callers of Destroy on the same registry: the schedule says whose
    step comes next ([true]: the first caller). A panic in either ends the
    program. *)
Fixpoint Destroy_interleaved (schedule : list bool) (pc1 pc2 : DestroyPC)
  : M (DestroyPC * DestroyPC) :=
  match schedule with
  | [] => mret (pc1, pc2)
  | true :: schedule' =>
      pc1' ← Destroy_step pc1; Destroy_interleaved schedule' pc1' pc2
  | false :: schedule' =>
      pc2' ← Destroy_step pc2; Destroy_interleaved schedule' pc1 pc2'
  end.

(** How many effects satisfy a test. *)
Definition countEffects (test : Effect -> bool) (t : list Effect) : nat :=
  length (filter (fun e => test e = true) t).

Definition isCloseDone (e : Effect) : bool :=
  match e with CloseDone => true | _ => false end.

Definition isCloseClient (e : Effect) : bool :=
  match e with CallCloseClient => true | _ => false end.

End Registry.

Arguments World E : clear implicits.
Arguments Outcome E A : clear implicits.
Arguments M E A : clear implicits.
Arguments Ok {E A} a w.
Arguments Panic {E A} reason w.
Arguments Blocked {E A} w.
Arguments Unfinished {E A} w.
Arguments Destroy_thread : simpl never.

(** The (category, interface, version, group) tuple a service identity is
    composed from. *)
Definition identityTuple `{D : Deps} (u : URL) : option string * string * string * string :=
  (getCategory u, GetParam u InterfaceKey "", GetParam u VersionKey "", GetParam u GroupKey "").

(** A component that is written as it stands: empty, or not blank. *)
Definition plain `{D : Deps} (v : string) : Prop := v = "" ∨ TrimSpace v ≠ "".

(** The weight rule in the spec's words: "on parse failure or value ≤ a
    minimum threshold, fall back to a default weight (1.0)"; "if parsed weight
    exceeds a maximum threshold (10000), clamp to that maximum". *)
Definition specWeight `{D : Deps} (parsed : float * option error) : float :=
  match parsed with
  | (_, Some _) => 1%float
  | (v, None) =>
      if (v <=? MinNacosWeight)%float then 1%float
      else if (10000 <? v)%float then 10000%float
      else v
  end.

(** The service names of the listen calls among some effects, in order. *)
Fixpoint subscribedNames (t : list Effect) : list string :=
  match t with
  | [] => []
  | CallSubscribe p :: t' => sp_ServiceName p :: subscribedNames t'
  | _ :: t' => subscribedNames t'
  end.

(** The names a pass of subscribeAll tried to subscribe, among some effects:
    those of the listen calls, and those of the warnings for a subscribe that
    failed. *)
Fixpoint attemptedNames (t : list Effect) : list string :=
  match t with
  | [] => []
  | CallSubscribe p :: t' => sp_ServiceName p :: attemptedNames t'
  | Log LWarn format (ArgString name :: _) :: t' =>
      if decide (format = "subscribe service %s err:%v") then name :: attemptedNames t'
      else attemptedNames t'
  | _ :: t' => attemptedNames t'
  end.

(** The event pumps started among some effects, in order. *)
Fixpoint spawnedPumps (t : list Effect) : list (nacosListener * NotifyListener) :=
  match t with
  | [] => []
  | Spawn (GoHandleServiceEvents l n) :: t' => (l, n) :: spawnedPumps t'
  | _ :: t' => spawnedPumps t'
  end.

(** The events handed to notify sinks among some effects, in order. *)
Fixpoint notifiedEvents (t : list Effect) : list (NotifyListener * ServiceEvent) :=
  match t with
  | [] => []
  | Notify n ev :: t' => (n, ev) :: notifiedEvents t'
  | _ :: t' => notifiedEvents t'
  end.

(** The events the listeners' Next calls produced (without error) among some
    effects, in order. *)
Fixpoint producedEvents (t : list Effect) : list (nacosListener * ServiceEvent) :=
  match t with
  | [] => []
  | ListenerNext l ev None :: t' => (l, ev) :: producedEvents t'
  | _ :: t' => producedEvents t'
  end.

(** The effects of an IsAvailable call: nothing, or its probe. *)
Definition quiet (probe : list Effect) : Prop :=
  probe = [] ∨ ∃ p, probe = [CallGetAllServicesInfo p].

(** One turn of the event pump that forwards an event: the availability
    check, the event taken from the handle, the log line, the event handed
    to the sink. *)
Definition pumpRound (l : nacosListener) (n : NotifyListener)
  (r : list Effect * ServiceEvent) : list Effect :=
  r.1 ++ [ListenerNext l r.2 None;
          Log LInfo "[Nacos Registry] Update begin, service event: %v" [ArgEvent r.2];
          Notify n r.2].

(** ** A sample instance: the values of the repository's constant and common
    packages, decimal readers for the strconv functions, and a scripted
    backend. The examples and test scenarios run on it. *)
Module Sample.

Definition digit (c : ascii) : option Z := Z.of_nat <$> Ascii.is_nat c.

Fixpoint digits (s : string) (acc : Z) : option Z :=
  match s with
  | EmptyString => Some acc
  | String c s' => match digit c with Some d => digits s' (acc * 10 + d) | None => None end
  end.

Definition clampInt (n : Z) : Z := Z.max (- 2 ^ 63) (Z.min (2 ^ 63 - 1) n).

(** strconv.Atoi on a signed decimal; 0 on a syntax error. *)
Definition atoi (s : string) : Z :=
  match s with
  | EmptyString => 0
  | String c rest =>
      let '(neg, body) :=
        if decide (c = "-"%char) then (true, rest)
        else if decide (c = "+"%char) then (false, rest) else (false, s) in
      match body with
      | EmptyString => 0
      | _ => match digits body 0 with
             | Some n => clampInt (if neg : bool then - n else n)
             | None => 0
             end
      end
  end.

Definition itoa (n : Z) : string :=
  DecimalString.NilZero.string_of_int (Z.to_int n).

(** Digits before and after the point of a plain decimal literal: the
    mantissa read as an integer, and the count of fractional digits. *)
Fixpoint decimal (s : string) (seenPoint : bool) (mant : Z) (frac : nat) (any : bool)
  : option (Z * nat) :=
  match s with
  | EmptyString => if any then Some (mant, frac) else None
  | String c s' =>
      if decide (c = "."%char) then
        if seenPoint then None else decimal s' true mant frac any
      else
        match digit c with
        | Some d => decimal s' seenPoint (mant * 10 + d) (if seenPoint then S frac else frac) true
        | None => None
        end
  end.

(** strconv.ParseFloat on plain decimal literals short enough for the exact
    path (mantissa below 2^53, at most 22 fractional digits), where the
    result is the correctly rounded quotient; this sample rejects the rest. *)
Definition parseFloat (s : string) : float * option error :=
  match decimal s false 0 0 false with
  | Some (m, k) =>
      if (m <? 2 ^ 53) && (Nat.leb k 22) then
        ((PrimFloat.of_uint63 (Uint63.of_Z m) / PrimFloat.of_uint63 (Uint63.of_Z (10 ^ Z.of_nat k)))%float,
         None)
      else (0%float, Some (errorString "strconv.ParseFloat: unsupported by the sample"))
  | None => (0%float, Some (errorString "strconv.ParseFloat: invalid syntax"))
  end.

Fixpoint trimLeft (s : string) : string :=
  match s with
  | String c s' => if Ascii.is_space c then trimLeft s' else s
  | EmptyString => EmptyString
  end.

(** strings.TrimSpace on ASCII text. *)
Definition trimSpace (s : string) : string :=
  String.rev (trimLeft (String.rev (trimLeft s))).

Definition segment (u : URL) (key : string) : string :=
  let value := GetParam u key "" in
  if decide (trimSpace value = "") then ":" else ":" +:+ value.

(** getSubscribeName of the listener file: the provider identity of the
    interest. *)
Definition subscribeName (u : URL) : string :=
  "providers" +:+ segment u "interface" +:+ segment u "version" +:+ segment u "group".

#[export] Instance deps : Deps := {|
  RegistryRoleKey := "registry.role";
  InterfaceKey := "interface";
  VersionKey := "version";
  GroupKey := "group";
  WeightKey := "weight";
  CategoryKey := "category";
  MethodsKey := "methods";
  NacosCategoryKey := "category";
  NacosProtocolKey := "protocol";
  NacosPathKey := "path";
  NacosGroupKey := "nacos.group";
  RegistryGroupKey := "registry.group";
  DefaultCategory := "providers";
  AnyValue := "*";
  defaultGroup := "DEFAULT_GROUP";
  NacosDefaultRoleType := 3;
  CONSUMER := 0;
  DubboNodes := ["consumers"; "configurators"; "routers"; "providers"];
  MinNacosWeight := 0%float;
  Atoi := atoi;
  Itoa := itoa;
  ParseFloat := parseFloat;
  TrimSpace := trimSpace;
  HandleRegisterIPAndPort := fun u => (Ip u, Port u);
  getSubscribeName := subscribeName
|}.

(** A scripted environment: fixed replies of the backend, a clock that
    advances by [tick] at each reading, and the events a listener yields in
    order (an exhausted or closed listener yields an error). *)
Record Backend := mkBackend {
  clock : Z;
  tick : Z;
  registerReply : bool * option error;
  deregisterReply : bool * option error;
  listing : ServiceList * option error;
  subscribeReply : option error;
  pending : list (ServiceEvent * option error);
  closes : nat
}.

Definition noURL : URL := mkURL "" "" "" "" [] ∅.

#[export] Instance backend : Environment Backend := {|
  RegisterInstance := fun _ e => (registerReply e, e);
  DeregisterInstance := fun _ e => (deregisterReply e, e);
  GetAllServicesInfo := fun _ e => (listing e, e);
  SdkSubscribe := fun _ e => (subscribeReply e, e);
  CloseClient := fun e =>
    mkBackend (clock e) (tick e) (registerReply e) (deregisterReply e) (listing e)
      (subscribeReply e) (pending e) (S (closes e));
  Next := fun _ e =>
    match pending e with
    | [] => ((mkServiceEvent EventTypeDel noURL, Some (errorString "listener stopped")), e)
    | r :: rest =>
        (r, mkBackend (clock e) (tick e) (registerReply e) (deregisterReply e) (listing e)
              (subscribeReply e) rest (closes e))
    end;
  CloseOf := fun _ e =>
    mkBackend (clock e) (tick e) (registerReply e) (deregisterReply e) (listing e)
      (subscribeReply e) [] (closes e);
  Now := fun e =>
    (clock e,
     mkBackend (clock e + tick e) (tick e) (registerReply e) (deregisterReply e) (listing e)
       (subscribeReply e) (pending e) (closes e))
|}.

(** A backend that accepts everything and lists [doms]. *)
Definition accepting (doms : list string) : Backend :=
  mkBackend 1000 1 (true, None) (true, None) (mkServiceList (Z.of_nat (length doms)) doms, None)
    None [] 0.

(** A freshly built registry ([newNacosRegistry]) whose URL is at address 0. *)
Definition newRegistry : nacosRegistry :=
  mkRegistry 0%nat (Some (mkNamingClient (Some SdkClient))) [] false
    (mkAvailabilityCache false GoTime.zeroTime) 0.

Definition urlWith (ps : list (string * string)) : URL :=
  mkURL "dubbo" "/com.foo.Bar" "10.0.0.1" "20880" ["hello"] (list_to_map ps).

(** The world of a fresh registry: the registry URL at address 0 and the
    given URLs after it. *)
Definition world (e : Backend) (urls : list URL) : @World Backend :=
  mkWorld newRegistry ∅ (fun p => nth p (urlWith [] :: urls) noURL) e [].

End Sample.

(** * Properties *)

(** ** Strings *)

Lemma append_cons (c : ascii) (s t : string) : String c s +:+ t = String c (s +:+ t).
Proof. reflexivity. Qed.

Lemma append_nil_r (s : string) : s +:+ "" = s.
Proof. induction s as [|c s IH]; [reflexivity|]. rewrite append_cons. by f_equal. Qed.

Lemma append_assoc (s t r : string) : (s +:+ t) +:+ r = s +:+ t +:+ r.
Proof. induction s as [|c s IH]; [reflexivity|]. rewrite !append_cons. by f_equal. Qed.

Lemma Contains_sep_cons (c : ascii) (s : string) :
  GoStrings.Contains (String c s) NacosServiceNameSeparator
  = bool_decide (":"%char = c) || GoStrings.Contains s NacosServiceNameSeparator.
Proof.
  cbn [GoStrings.Contains GoStrings.HasPrefix NacosServiceNameSeparator].
  destruct (decide (":"%char = c)) as [->|Hne].
  - rewrite bool_decide_eq_true_2 by done. by destruct s.
  - by rewrite bool_decide_eq_false_2 by done.
Qed.

(** A piece without the separator is recovered from what is written: the
    text up to the first separator, and the rest. *)
Lemma separator_splits (a a' r r' : string) :
  GoStrings.Contains a NacosServiceNameSeparator = false →
  GoStrings.Contains a' NacosServiceNameSeparator = false →
  a +:+ NacosServiceNameSeparator +:+ r = a' +:+ NacosServiceNameSeparator +:+ r' →
  a = a' ∧ r = r'.
Proof.
  revert a'. induction a as [|c a IH]; intros [|c' a'] Ha Ha' Heq.
  - cbn in Heq. by simplify_eq.
  - rewrite Contains_sep_cons in Ha'. apply orb_false_iff in Ha' as [Hc _].
    apply bool_decide_eq_false in Hc. cbn in Heq. by simplify_eq.
  - rewrite Contains_sep_cons in Ha. apply orb_false_iff in Ha as [Hc _].
    apply bool_decide_eq_false in Hc. cbn in Heq. by simplify_eq.
  - rewrite Contains_sep_cons in Ha, Ha'.
    apply orb_false_iff in Ha as [_ Ha]. apply orb_false_iff in Ha' as [_ Ha'].
    rewrite !append_cons in Heq. injection Heq as -> Heq.
    destruct (IH a' Ha Ha' Heq) as [-> ->]. done.
Qed.

Section Identity.
Context `{D : Deps}.

(** What appendParam writes for a value: nothing for a blank one. *)
Definition written (v : string) : string := if decide (TrimSpace v = "") then "" else v.

Lemma written_plain (v : string) : plain v → written v = v.
Proof. unfold plain, written. intros [->|Hv]; case_decide; done. Qed.

Lemma appendParam_eq (target : string) (u : URL) (key : string) :
  appendParam target u key
  = target +:+ NacosServiceNameSeparator +:+ written (GetParam u key "").
Proof.
  unfold appendParam, written. case_decide.
  - by rewrite append_nil_r.
  - by rewrite append_assoc.
Qed.

Lemma getServiceName_eq (u : URL) :
  getServiceName u =
  (fun c => c +:+ NacosServiceNameSeparator +:+ written (GetParam u InterfaceKey "")
              +:+ NacosServiceNameSeparator +:+ written (GetParam u VersionKey "")
              +:+ NacosServiceNameSeparator +:+ written (GetParam u GroupKey "")) <$> getCategory u.
Proof.
  unfold getServiceName. destruct (getCategory u) as [c|]; [|done]. cbn.
  by rewrite !appendParam_eq, !append_assoc.
Qed.

(** A URL whose identity can be read back: a category exists, category,
    interface and version hold no separator, and no component is blank
    without being empty. *)
Definition readable (u : URL) : Prop :=
  (∃ c, getCategory u = Some c ∧ GoStrings.Contains c NacosServiceNameSeparator = false) ∧
  GoStrings.Contains (GetParam u InterfaceKey "") NacosServiceNameSeparator = false ∧
  GoStrings.Contains (GetParam u VersionKey "") NacosServiceNameSeparator = false ∧
  plain (GetParam u InterfaceKey "") ∧ plain (GetParam u VersionKey "") ∧
  plain (GetParam u GroupKey "").

(** C5 (amended): the service identity is stable (URLs with the same
    category, interface, version and group compose the same string), and it
    is injective on the tuples whose category, interface and version hold no
    separator and whose components are empty or not blank: two such tuples
    that differ compose different identities. *)
Theorem getServiceName_stable_injective (u1 u2 : URL) :
  (identityTuple u1 = identityTuple u2 → getServiceName u1 = getServiceName u2) ∧
  (readable u1 → readable u2 →
   identityTuple u1 ≠ identityTuple u2 → getServiceName u1 ≠ getServiceName u2).
Proof.
  split.
  - unfold identityTuple. intros Heq. rewrite !getServiceName_eq.
    injection Heq as Hc Hi Hv Hg. by rewrite Hc, Hi, Hv, Hg.
  - intros ([c1 [Hc1 Hs1]] & Hi1 & Hv1 & Pi1 & Pv1 & Pg1)
           ([c2 [Hc2 Hs2]] & Hi2 & Hv2 & Pi2 & Pv2 & Pg2) Hne Heq.
    apply Hne. unfold identityTuple.
    rewrite !getServiceName_eq, Hc1, Hc2 in Heq. cbn in Heq.
    rewrite !written_plain in Heq by done.
    injection Heq as Heq.
    apply separator_splits in Heq as [-> Heq]; [|done..].
    apply separator_splits in Heq as [-> Heq]; [|done..].
    apply separator_splits in Heq as [-> ->]; [|done..].
    by rewrite Hc1, Hc2.
Qed.

End Identity.

(** The identities of two interests that differ only in where a separator
    falls. *)
Definition colonInInterface : URL := Sample.urlWith [("interface", "a:b"); ("version", "c")].
Definition colonInVersion : URL := Sample.urlWith [("interface", "a"); ("version", "b:c")].

(** C5 (as stated) fails: two distinct tuples, (providers, "a:b", "c", "")
    and (providers, "a", "b:c", ""), compose the same identity
    "providers:a:b:c:". *)
Lemma getServiceName_collision :
  identityTuple (D := Sample.deps) colonInInterface
    ≠ identityTuple (D := Sample.deps) colonInVersion ∧
  getServiceName (D := Sample.deps) colonInInterface
    = getServiceName (D := Sample.deps) colonInVersion.
Proof. split; [|reflexivity]. vm_compute. intros [=]. Qed.

Definition barService : URL :=
  Sample.urlWith [("interface", "com.foo.Bar"); ("version", "1.0"); ("group", "g1")].
Definition barServiceV2 : URL :=
  Sample.urlWith [("interface", "com.foo.Bar"); ("version", "2.0"); ("group", "g1")].

Lemma getServiceName_stable_injective_witness :
  (identityTuple (D := Sample.deps) barService = identityTuple (D := Sample.deps) barService ∧
   getServiceName (D := Sample.deps) barService
     = getServiceName (D := Sample.deps) barService) ∧
  getServiceName (D := Sample.deps) barService
    ≠ getServiceName (D := Sample.deps) barServiceV2.
Proof.
  split.
  - split; [reflexivity|].
    apply (getServiceName_stable_injective (D := Sample.deps) barService barService).
    reflexivity.
  - apply (getServiceName_stable_injective (D := Sample.deps) barService barServiceV2).
    + repeat split; try (by vm_compute; auto); try (right; vm_compute; intros [=]).
      eexists; split; reflexivity.
    + repeat split; try (by vm_compute; auto); try (right; vm_compute; intros [=]).
      eexists; split; reflexivity.
    + vm_compute. intros [=].
Defined.

(** ** Runs *)

Ltac run :=
  repeat (unfold mbind, mret, M_bind, M_ret, gets, modify, emit, load, update, perform,
            logf, orPanic, panic, park, unfinished, cacheLoad, cacheStore, cacheDelete,
            cacheEntries, time_Now, time_Since, nr_GetParam, nr_Client; cbn).

Section Properties.
Context `{D : Deps} {E : Type} `{Env : Environment E}.

Lemma GetParam_HandleRegisterIPAndPort (u : URL) (key d : string) :
  GetParam (HandleRegisterIPAndPort_url u) key d = GetParam u key d.
Proof. unfold HandleRegisterIPAndPort_url. by destruct (HandleRegisterIPAndPort u). Qed.

Lemma getCategory_HandleRegisterIPAndPort (u : URL) :
  getCategory (HandleRegisterIPAndPort_url u) = getCategory u.
Proof. unfold getCategory. by rewrite GetParam_HandleRegisterIPAndPort. Qed.

Lemma getServiceName_HandleRegisterIPAndPort (u : URL) :
  getServiceName (HandleRegisterIPAndPort_url u) = getServiceName u.
Proof.
  unfold getServiceName, appendParam.
  by rewrite getCategory_HandleRegisterIPAndPort, !GetParam_HandleRegisterIPAndPort.
Qed.

(** C4: whenever createRegisterParam builds a record, its weight is the
    parsed weight parameter, except that a parse failure or a value at or
    below the minimum gives the default 1.0 and a value above 10000 gives
    10000. *)
Theorem createRegisterParam_weight (url : URLRef) (serviceName groupName : string)
  (w : World E) (c : string) :
  getCategory (heap w url) = Some c →
  ∃ p w', createRegisterParam url serviceName groupName w = Ok p w' ∧
    let parsed := ParseFloat (GetParam (heap w url) WeightKey "1.0") in
    ri_Weight p = specWeight parsed ∧
    (parsed.2 ≠ None → ri_Weight p = 1%float) ∧
    (parsed.2 = None → (parsed.1 <=? MinNacosWeight)%float = true → ri_Weight p = 1%float) ∧
    (parsed.2 = None → (parsed.1 <=? MinNacosWeight)%float = false →
     (10000 <? parsed.1)%float = true → ri_Weight p = 10000%float) ∧
    (parsed.2 = None → (parsed.1 <=? MinNacosWeight)%float = false →
     (10000 <? parsed.1)%float = false → ri_Weight p = parsed.1).
Proof.
  intros Hc. unfold createRegisterParam. run. rewrite Hc. run.
  rewrite decide_True by done. rewrite GetParam_HandleRegisterIPAndPort.
  destruct (ParseFloat (GetParam (heap w url) WeightKey "1.0")) as [v [e|]] eqn:Hp; run.
  - eexists _, _. split; [reflexivity|]. cbn. repeat split; intros; congruence.
  - unfold MaxNacosWeight, DefaultNacosWeight.
    destruct (v <=? MinNacosWeight)%float eqn:Hmin; run.
    + eexists _, _. split; [reflexivity|]. cbn. rewrite ?Hmin. repeat split; intros; congruence.
    + destruct (10000 <? v)%float eqn:Hmax; run.
      * eexists _, _. split; [reflexivity|]. cbn. rewrite ?Hmin, ?Hmax. repeat split; intros; congruence.
      * eexists _, _. split; [reflexivity|]. cbn. rewrite ?Hmin, ?Hmax. repeat split; intros; congruence.
Qed.

Lemma createRegisterParam_returns (url : URLRef) (serviceName groupName : string)
  (w : World E) (c : string) :
  getCategory (heap w url) = Some c →
  ∃ p w', createRegisterParam url serviceName groupName w = Ok p w'.
Proof.
  intros Hc. unfold createRegisterParam. run. rewrite Hc. run.
  destruct (ParseFloat _) as [v err].
  destruct (bool_decide (err ≠ None) || (v <=? MinNacosWeight)%float); run;
    [|destruct (_ <? v)%float; run]; eauto.
Qed.

Lemma createRegisterParam_frame (url : URLRef) (serviceName groupName : string)
  (w w' : World E) (p : RegisterInstanceParam) :
  createRegisterParam url serviceName groupName w = Ok p w' →
  env w' = env w ∧ nr w' = nr w.
Proof.
  unfold createRegisterParam. run.
  destruct (getCategory (heap w url)); run; [|done].
  destruct (ParseFloat _) as [v err].
  destruct (bool_decide (err ≠ None) || (v <=? MinNacosWeight)%float); run;
    [|destruct (_ <? v)%float; run]; inversion 1; split; reflexivity.
Qed.

Lemma bind_Ok {A B} (m : M E A) (f : A → M E B) (w : World E) (a : A) (w' : World E) :
  m w = Ok a w' → (m ≫= f) w = f a w'.
Proof. intros H. unfold mbind, M_bind. by rewrite H. Qed.

(** ** IsAvailable *)

(** The listing probe of IsAvailable: page 1, page size 1. *)
Definition probeParam (w : World E) : GetAllServiceInfoParam :=
  mkGetAllServiceInfoParam (GetParam (heap w (nrURL (nr w))) RegistryGroupKey defaultGroup) 1 1.

Lemma IsAvailable_closed (w : World E) :
  done (nr w) = true → IsAvailable w = Ok false w.
Proof. intros Hd. unfold IsAvailable. run. by rewrite Hd. Qed.

Lemma IsAvailable_cached (w : World E) :
  done (nr w) = false →
  GoTime.Sub (Now (env w)).1 (lastCheckTime (availability (nr w))) < checkInterval →
  IsAvailable w =
    Ok (lastAvailable (availability (nr w)))
       (mkWorld (nr w) (listenerCache w) (heap w) (Now (env w)).2 (trace w)).
Proof.
  intros Hd Hw. unfold IsAvailable. run. rewrite Hd.
  destruct (Now (env w)) as [t1 e1]. cbn in *.
  apply Z.ltb_lt in Hw. by rewrite Hw.
Qed.

Lemma IsAvailable_nil_client (w : World E) :
  done (nr w) = false →
  checkInterval ≤ GoTime.Sub (Now (env w)).1 (lastCheckTime (availability (nr w))) →
  clientOf (namingClient (nr w)) = None →
  IsAvailable w =
    Ok false
       (mkWorld (set_availability (mkAvailabilityCache false (Now (Now (env w)).2).1) (nr w))
          (listenerCache w) (heap w) (Now (Now (env w)).2).2 (trace w)).
Proof.
  intros Hd Hw Hc. unfold IsAvailable. run. rewrite Hd.
  destruct (Now (env w)) as [t1 e1]. cbn in *.
  apply Z.ltb_ge in Hw. rewrite Hw. run.
  destruct (Now e1) as [t2 e2]. cbn. by rewrite Hc.
Qed.

Lemma IsAvailable_probe (w : World E) :
  done (nr w) = false →
  checkInterval ≤ GoTime.Sub (Now (env w)).1 (lastCheckTime (availability (nr w))) →
  clientOf (namingClient (nr w)) ≠ None →
  let now := (Now (Now (env w)).2).1 in
  let reply := GetAllServicesInfo (probeParam w) (Now (Now (env w)).2).2 in
  let ok := bool_decide (reply.1.2 = None) in
  IsAvailable w =
    Ok ok
       (mkWorld (set_availability (mkAvailabilityCache ok now) (nr w))
          (listenerCache w) (heap w) reply.2
          (trace w ++ [CallGetAllServicesInfo (probeParam w)])).
Proof.
  intros Hd Hw Hc. unfold IsAvailable, probeParam. run. rewrite Hd.
  destruct (Now (env w)) as [t1 e1]. cbn in *.
  apply Z.ltb_ge in Hw. rewrite Hw. run.
  destruct (Now e1) as [t2 e2]. cbn.
  destruct (clientOf (namingClient (nr w))); [|done]. cbn.
  by destruct (GetAllServicesInfo _ e2) as [[sl err] e3].
Qed.

(** IsAvailable always returns, and touches nothing of the registry but the
    availability cache; it adds at most the probe to the effects. *)
Lemma IsAvailable_returns (w : World E) :
  ∃ b w', IsAvailable w = Ok b w' ∧
    listenerCache w' = listenerCache w ∧ heap w' = heap w ∧
    nrURL (nr w') = nrURL (nr w) ∧ namingClient (nr w') = namingClient (nr w) ∧
    registryUrls (nr w') = registryUrls (nr w) ∧ done (nr w') = done (nr w) ∧
    wg (nr w') = wg (nr w) ∧
    (trace w' = trace w ∨ trace w' = trace w ++ [CallGetAllServicesInfo (probeParam w)]) ∧
    (done (nr w) = true → b = false).
Proof.
  destruct (done (nr w)) eqn:Hd.
  { eexists _, _. split; [by apply IsAvailable_closed|]. repeat split; auto. }
  destruct (Z.lt_ge_cases (GoTime.Sub (Now (env w)).1 (lastCheckTime (availability (nr w))))
              checkInterval) as [Hw|Hw].
  { eexists _, _. split; [by apply IsAvailable_cached|]. cbn. repeat split; auto. done. }
  destruct (clientOf (namingClient (nr w))) eqn:Hc.
  - eexists _, _. split; [apply IsAvailable_probe; by rewrite ?Hc|]. cbn.
    repeat split; auto. done.
  - eexists _, _. split; [by apply IsAvailable_nil_client|]. cbn. repeat split; auto.
Qed.

(** C2: IsAvailable returns false with no backend call once the shutdown
    signal has fired; inside the 5s window it returns the cached boolean with
    no backend call; past the window it stamps lastCheckTime in every case,
    returns false for a nil client, and otherwise makes one page-size-1
    listing probe, caches (error == nil) and returns it; a second call inside
    the window of that stamp returns the same boolean and makes no call. *)
Theorem IsAvailable_window (w : World E) :
  let ac := availability (nr w) in
  let since := GoTime.Sub (Now (env w)).1 (lastCheckTime ac) in
  let now := (Now (Now (env w)).2).1 in
  let reply := GetAllServicesInfo (probeParam w) (Now (Now (env w)).2).2 in
  let ok := bool_decide (reply.1.2 = None) in
  (done (nr w) = true → IsAvailable w = Ok false w) ∧
  (done (nr w) = false → since < checkInterval →
   ∃ w', IsAvailable w = Ok (lastAvailable ac) w' ∧ trace w' = trace w ∧ nr w' = nr w) ∧
  (done (nr w) = false → checkInterval ≤ since → clientOf (namingClient (nr w)) = None →
   ∃ w', IsAvailable w = Ok false w' ∧ trace w' = trace w ∧
     availability (nr w') = mkAvailabilityCache false now ∧
     ∀ w2, nr w2 = nr w' → GoTime.Sub (Now (env w2)).1 now < checkInterval →
       ∃ w3, IsAvailable w2 = Ok false w3 ∧ trace w3 = trace w2) ∧
  (done (nr w) = false → checkInterval ≤ since → clientOf (namingClient (nr w)) ≠ None →
   ∃ w', IsAvailable w = Ok ok w' ∧
     trace w' = trace w ++ [CallGetAllServicesInfo (probeParam w)] ∧
     ga_PageSize (probeParam w) = 1 ∧
     availability (nr w') = mkAvailabilityCache ok now ∧
     ∀ w2, nr w2 = nr w' → GoTime.Sub (Now (env w2)).1 now < checkInterval →
       ∃ w3, IsAvailable w2 = Ok ok w3 ∧ trace w3 = trace w2).
Proof.
  cbn zeta. split; [apply IsAvailable_closed|]. split; [|split].
  - intros Hd Hw. eexists. split; [by apply IsAvailable_cached|]. done.
  - intros Hd Hw Hc. eexists. split; [by apply IsAvailable_nil_client|]. cbn.
    repeat split. intros w2 Hnr Hw2. eexists. split.
    + rewrite IsAvailable_cached; rewrite Hnr; cbn; done.
    + done.
  - intros Hd Hw Hc. eexists. split; [by apply IsAvailable_probe|]. cbn.
    repeat split. intros w2 Hnr Hw2. eexists. split.
    + rewrite IsAvailable_cached; rewrite Hnr; cbn; done.
    + done.
Qed.

(** ** Register *)

(** C3: with an identity and a client at hand, Register returns the backend
    error when the register call fails, a descriptive error when the backend
    reports the instance not registered, and nil otherwise; the ledger is
    unchanged in both error cases and gains the endpoint, at its end, only
    on success. *)
Theorem Register_ledger (url : URLRef) (w : World E) (name : string) :
  getServiceName (heap w url) = Some name →
  clientOf (namingClient (nr w)) ≠ None →
  ∃ param w1 w2 w',
    createRegisterParam url name
      (GetParam (heap w (nrURL (nr w))) NacosGroupKey defaultGroup) w1 = Ok param w2 ∧
    env w1 = (Now (env w)).2 ∧ env w2 = env w1 ∧
    In (CallRegisterInstance param) (trace w') ∧
    match (RegisterInstance param (env w2)).1 with
    | (_, Some backendError) =>
        Register url w = Ok (Some backendError) w' ∧
        registryUrls (nr w') = registryUrls (nr w)
    | (false, None) =>
        Register url w
          = Ok (Some (errorString ("registry [" +:+ name +:+ "] to  nacos failed"))) w' ∧
        registryUrls (nr w') = registryUrls (nr w)
    | (true, None) =>
        Register url w = Ok None w' ∧
        registryUrls (nr w') = registryUrls (nr w) ++ [url]
    end.
Proof.
  intros Hname Hclient.
  assert (Hcat : ∃ c, getCategory (heap w url) = Some c).
  { unfold getServiceName in Hname. destruct (getCategory (heap w url)); [eauto|done]. }
  destruct Hcat as [c Hcat].
  destruct (Now (env w)) as [start e1] eqn:Hnow.
  destruct (createRegisterParam_returns url name
              (GetParam (heap w (nrURL (nr w))) NacosGroupKey defaultGroup)
              (mkWorld (nr w) (listenerCache w) (heap w) e1 (trace w)) c Hcat)
    as (param & w2 & Hparam).
  destruct (createRegisterParam_frame _ _ _ _ _ _ Hparam) as [Henv Hnr].
  cbn in Henv, Hnr.
  unfold Register. run. rewrite Hnow. cbn. rewrite Hname. cbn.
  rewrite Hparam. cbn. rewrite Hnr.
  unfold clientOf in Hclient.
  destruct (namingClient (nr w)) as [nc|]; [|done]. cbn in Hclient |- *.
  destruct (Client nc); [|done]. cbn. rewrite Henv.
  destruct (RegisterInstance param e1) as [[isRegistry err] e2] eqn:Hreply. cbn.
  destruct isRegistry, err as [backendError|]; cbn;
    (eexists param, _, w2, _; split; [exact Hparam|]; split; [done|]; split; [done|];
     rewrite Henv, Hreply; cbn; split; [|split; [reflexivity|]]; cbn; rewrite ?Hnr;
     [rewrite !in_app_iff; cbn; tauto | done]).
Qed.

(** ** UnRegister and Destroy *)

Lemma getServiceName_params (u u' : URL) :
  params u' = params u → getServiceName u' = getServiceName u.
Proof.
  intros Hp. unfold getServiceName, getCategory, appendParam, GetParam. by rewrite Hp.
Qed.

(** The deregistration record UnRegister sends for the URL at [url]. *)
Definition deregisterParam (w : World E) (url : URLRef) : DeregisterInstanceParam :=
  let u := HandleRegisterIPAndPort_url (heap w url) in
  mkDeregisterInstanceParam (Ip u) (uint64 (Atoi (Port u)))
    (default "" (getServiceName (heap w url)))
    (GetParam (heap w (nrURL (nr w))) NacosGroupKey defaultGroup) true.

(** UnRegister returns an error when the call fails or reports non-removal. *)
Definition unregisterError (name : string) (r : bool * option error) : option error :=
  match r with
  | (_, Some e) => Some e
  | (false, None) => Some (errorString ("DeRegistry [" +:+ name +:+ "] to nacos failed"))
  | (true, None) => None
  end.

Lemma UnRegister_run (url : URLRef) (w : World E) (name : string) :
  getServiceName (heap w url) = Some name →
  clientOf (namingClient (nr w)) ≠ None →
  UnRegister url w =
    Ok (unregisterError name (DeregisterInstance (deregisterParam w url) (env w)).1)
       (mkWorld (nr w) (listenerCache w)
          (fun q => if decide (q = url) then HandleRegisterIPAndPort_url (heap w url)
                    else heap w q)
          (DeregisterInstance (deregisterParam w url) (env w)).2
          (trace w ++ [CallDeregisterInstance (deregisterParam w url)])).
Proof.
  intros Hname Hclient. unfold UnRegister, createDeregisterParam, deregisterParam. run.
  rewrite Hname. run. rewrite decide_True by done.
  unfold clientOf in Hclient.
  destruct (namingClient (nr w)) as [nc|]; [|done]. cbn in Hclient |- *.
  destruct (Client nc); [|done]. cbn.
  destruct (DeregisterInstance _ (env w)) as [[isDeRegistry err] e']. cbn.
  by destruct isDeRegistry, err.
Qed.

(** What one turn of the loop does: the call, the log line, and the error
    line when UnRegister failed. *)
Definition deregisterBlock (b : URLRef * DeregisterInstanceParam * E) : list Effect :=
  let '(url, p, e) := b in
  [CallDeregisterInstance p; Log LInfo "DeRegister Nacos URL:%+v" [ArgURL url]] ++
  match unregisterError (di_ServiceName p) (DeregisterInstance p e).1 with
  | Some err => [Log LError "Deregister URL:%+v err:%v" [ArgURL url; ArgString (Error err)]]
  | None => []
  end.

Fixpoint deregistered (t : list Effect) : list DeregisterInstanceParam :=
  match t with
  | [] => []
  | CallDeregisterInstance p :: t' => p :: deregistered t'
  | _ :: t' => deregistered t'
  end.

Lemma deregistered_app (t1 t2 : list Effect) :
  deregistered (t1 ++ t2) = deregistered t1 ++ deregistered t2.
Proof.
  induction t1 as [|e t1 IH]; [done|]. destruct e; cbn; rewrite ?IH; done.
Qed.

Lemma deregistered_blocks (blocks : list (URLRef * DeregisterInstanceParam * E)) :
  deregistered (flat_map deregisterBlock blocks) = blocks.*1.*2.
Proof.
  induction blocks as [|[[url p] e] blocks IH]; [done|].
  cbn [flat_map]. rewrite deregistered_app, IH. unfold deregisterBlock.
  rewrite deregistered_app. cbn. by destruct (unregisterError _ _).
Qed.

Lemma deregisterEach_run (url : URLRef) (w : World E) (name : string) :
  getServiceName (heap w url) = Some name →
  clientOf (namingClient (nr w)) ≠ None →
  ∃ w', deregisterEach url w = Ok tt w' ∧
    nr w' = nr w ∧ listenerCache w' = listenerCache w ∧
    (∀ q, params (heap w' q) = params (heap w q)) ∧
    trace w' = trace w ++ deregisterBlock (url, deregisterParam w url, env w) ∧
    di_ServiceName (deregisterParam w url) = name.
Proof.
  intros Hname Hclient. unfold deregisterEach. run.
  rewrite (UnRegister_run url w name Hname Hclient). cbn.
  assert (Hparams : ∀ q,
    params (if decide (q = url) then HandleRegisterIPAndPort_url (heap w url) else heap w q)
    = params (heap w q)).
  { intros q. case_decide; [subst|done]. unfold HandleRegisterIPAndPort_url.
    by destruct (HandleRegisterIPAndPort (heap w url)). }
  assert (Hn : di_ServiceName (deregisterParam w url) = name).
  { unfold deregisterParam. cbn. by rewrite Hname. }
  unfold deregisterBlock. rewrite Hname. cbn [default].
  destruct (DeregisterInstance (deregisterParam w url) (env w)) as [[ok err] e']. cbn.
  destruct ok, err; cbn; eexists; (split; [reflexivity|]); cbn;
    rewrite <- ?app_assoc; done.
Qed.

Lemma deregisterAll_run (urls : list URLRef) (w : World E) :
  Forall (fun url => getServiceName (heap w url) ≠ None) urls →
  clientOf (namingClient (nr w)) ≠ None →
  ∃ w' blocks, forEach urls deregisterEach w = Ok tt w' ∧
    nr w' = nr w ∧ listenerCache w' = listenerCache w ∧
    trace w' = trace w ++ flat_map deregisterBlock blocks ∧
    blocks.*1.*1 = urls ∧
    map di_ServiceName blocks.*1.*2
      = map (fun url => default "" (getServiceName (heap w url))) urls.
Proof.
  revert w. induction urls as [|url urls IH]; intros w Hnames Hclient.
  { exists w, []. cbn. by rewrite app_nil_r. }
  apply Forall_cons in Hnames as [Hname Hnames].
  destruct (getServiceName (heap w url)) as [name|] eqn:Hn; [|done].
  destruct (deregisterEach_run url w name Hn Hclient)
    as (w1 & Hrun & Hnr & Hcache & Hparams & Htrace & Hsn).
  destruct (IH w1) as (w' & blocks & Hrest & Hnr' & Hcache' & Htrace' & Hrefs' & Hnames').
  { eapply Forall_impl; [exact Hnames|]. intros q Hq. cbn in Hq.
    by rewrite (getServiceName_params _ _ (Hparams q)). }
  { by rewrite Hnr. }
  exists w', ((url, deregisterParam w url, env w) :: blocks).
  split. { cbn [forEach]. run. rewrite Hrun. exact Hrest. }
  split; [congruence|]. split; [congruence|]. split; [|split].
  - rewrite Htrace', Htrace. cbn [flat_map]. by rewrite <- app_assoc.
  - rewrite !fmap_cons. cbn [fst]. by rewrite Hrefs'.
  - rewrite !fmap_cons. cbn [map fst snd]. rewrite Hsn, Hn. cbn [default]. f_equal.
    etrans; [exact Hnames'|]. apply map_ext. intros q. by rewrite (getServiceName_params _ _ (Hparams q)).
Qed.

(** The effects and the environment of closing a list of cached listeners. *)
Definition closeEffects (entries : list (string * nacosListener)) : list Effect :=
  map (fun kl => ListenerClose kl.2) entries.

Definition closeAll (entries : list (string * nacosListener)) (e : E) : E :=
  foldl (fun e kl => CloseOf kl.2 e) e entries.

Definition deleteAll (entries : list (string * nacosListener))
  (cache : gmap string nacosListener) : gmap string nacosListener :=
  foldl (fun m kl => delete kl.1 m) cache entries.

Lemma closeEach_run (entries : list (string * nacosListener)) (w : World E) :
  forEach entries (fun '(key, listener) => listener_Close listener ;; cacheDelete key) w
  = Ok tt (mkWorld (nr w) (deleteAll entries (listenerCache w)) (heap w)
             (closeAll entries (env w)) (trace w ++ closeEffects entries)).
Proof.
  revert w. induction entries as [|[key l] entries IH]; intros w.
  { cbn. rewrite app_nil_r. by destruct w. }
  cbn [forEach]. unfold listener_Close. run. rewrite IH. cbn.
  by rewrite <- app_assoc.
Qed.

Lemma deleteAll_lookup (entries : list (string * nacosListener))
  (cache : gmap string nacosListener) (i : string) :
  deleteAll entries cache !! i = if decide (i ∈ entries.*1) then None else cache !! i.
Proof.
  revert cache. induction entries as [|[key l] entries IH]; intros cache; [done|].
  change (deleteAll ((key, l) :: entries) cache) with (deleteAll entries (delete key cache)).
  rewrite IH.
  rewrite fmap_cons. cbn [fst].
  destruct (decide (i ∈ entries.*1)) as [Hin|Hnin].
  - rewrite decide_True by (apply elem_of_cons; auto). done.
  - destruct (decide (i = key)) as [->|Hne].
    + rewrite decide_True by (apply elem_of_cons; auto). apply lookup_delete_eq.
    + rewrite decide_False by (rewrite elem_of_cons; tauto). by apply lookup_delete_ne.
Qed.

Lemma deleteAll_all (cache : gmap string nacosListener) :
  deleteAll (map_to_list cache) cache = ∅.
Proof.
  apply map_eq. intros i. rewrite deleteAll_lookup, lookup_empty.
  case_decide as Hin; [done|].
  destruct (cache !! i) as [l|] eqn:Hl; [|done].
  exfalso. apply Hin. apply list_elem_of_fmap. exists (i, l). split; [done|].
  by apply elem_of_map_to_list.
Qed.

Lemma CloseListener_run (w : World E) :
  CloseListener w
  = Ok tt (mkWorld (nr w) ∅ (heap w) (closeAll (map_to_list (listenerCache w)) (env w))
             (trace w ++ closeEffects (map_to_list (listenerCache w)))).
Proof.
  unfold CloseListener. run. rewrite closeEach_run. cbn. by rewrite deleteAll_all.
Qed.

(** A registry after its shutdown. *)
Definition destroyed (r : nacosRegistry) : Prop :=
  done r = true ∧ registryUrls r = [] ∧ namingClient r = None ∧ wg r = 0%nat.

(** The steps of Destroy, from a registry with no pump left, a client, and an
    identity for every recorded endpoint. *)
Lemma Destroy_run (w : World E) :
  wg (nr w) = 0%nat →
  Forall (fun url => getServiceName (heap w url) ≠ None) (registryUrls (nr w)) →
  clientOf (namingClient (nr w)) ≠ None →
  ∃ w' blocks, Destroy w = Ok tt w' ∧
    destroyed (nr w') ∧ nrURL (nr w') = nrURL (nr w) ∧ listenerCache w' = ∅ ∧
    trace w' = trace w ++ closeEffects (map_to_list (listenerCache w))
                 ++ (if done (nr w) then [] else [CloseDone])
                 ++ flat_map deregisterBlock blocks ++ [CallCloseClient] ∧
    blocks.*1.*1 = registryUrls (nr w) ∧
    map di_ServiceName blocks.*1.*2
      = map (fun url => default "" (getServiceName (heap w url))) (registryUrls (nr w)).
Proof.
  intros Hwg Hnames Hclient. unfold Destroy.
  rewrite (bind_Ok _ _ _ _ _ (CloseListener_run w)).
  set (e1 := closeAll _ _). set (t1 := trace w ++ _).
  unfold select_done, close_done, wg_Wait. run.
  destruct (done (nr w)) eqn:Hd; run; rewrite ?Hd; run; rewrite Hwg; run;
    rewrite decide_True by done.
  - destruct (deregisterAll_run (registryUrls (nr w))
                (mkWorld (nr w) ∅ (heap w) e1 t1) Hnames Hclient)
      as (w2 & blocks & Hloop & Hnr & Hcache & Htrace & Hrefs & Hsn).
    cbn in Hloop, Hnr, Hcache, Htrace, Hsn |- *. rewrite Hloop.
    unfold CloseAndNilClient. run. rewrite Hnr. cbn.
    destruct (clientOf (namingClient (nr w))); [|done]. run.
    eexists _, blocks. split; [reflexivity|]. cbn.
    rewrite Hcache, Htrace. subst t1. cbn. rewrite <- !app_assoc.
    repeat split; done.
  - destruct (deregisterAll_run (registryUrls (nr w))
                (mkWorld (set_done true (nr w)) ∅ (heap w) e1 (t1 ++ [CloseDone]))
                Hnames Hclient)
      as (w2 & blocks & Hloop & Hnr & Hcache & Htrace & Hrefs & Hsn).
    cbn in Hloop, Hnr, Hcache, Htrace, Hsn |- *. rewrite Hloop.
    unfold CloseAndNilClient. run. rewrite Hnr. cbn.
    destruct (clientOf (namingClient (nr w))); [|done]. run.
    eexists _, blocks. split; [reflexivity|]. cbn.
    rewrite Hcache, Htrace. subst t1. cbn. rewrite <- !app_assoc.
    repeat split; done.
Qed.

Lemma deregistered_closeEffects (entries : list (string * nacosListener)) :
  deregistered (closeEffects entries) = [].
Proof. induction entries as [|kl entries IH]; done. Qed.

(** C9: from a registry with no pump left, a client, and an identity for
    every recorded endpoint, Destroy walks the ledger in recorded order and
    sends one deregistration per recorded endpoint, for that endpoint's
    identity; a failed UnRegister adds an error line and the walk goes on;
    afterwards the ledger is empty. *)
Theorem Destroy_deregisters_ledger (w : World E) :
  wg (nr w) = 0%nat →
  Forall (fun url => getServiceName (heap w url) ≠ None) (registryUrls (nr w)) →
  clientOf (namingClient (nr w)) ≠ None →
  ∃ w' blocks, Destroy w = Ok tt w' ∧
    registryUrls (nr w') = [] ∧
    trace w' = trace w ++ closeEffects (map_to_list (listenerCache w))
                 ++ (if done (nr w) then [] else [CloseDone])
                 ++ flat_map deregisterBlock blocks ++ [CallCloseClient] ∧
    deregistered (trace w') = deregistered (trace w) ++ blocks.*1.*2 ∧
    blocks.*1.*1 = registryUrls (nr w) ∧
    map di_ServiceName blocks.*1.*2
      = map (fun url => default "" (getServiceName (heap w url))) (registryUrls (nr w)).
Proof.
  intros Hwg Hnames Hclient.
  destruct (Destroy_run w Hwg Hnames Hclient)
    as (w' & blocks & Hrun & (_ & Hledger & _) & _ & _ & Htrace & Hrefs & Hsn).
  exists w', blocks. split; [done|]. split; [done|]. split; [done|].
  split; [|done].
  rewrite Htrace, !deregistered_app, deregistered_closeEffects, deregistered_blocks.
  destruct (done (nr w)); cbn; by rewrite app_nil_r.
Qed.

Lemma countEffects_app (test : Effect → bool) (t1 t2 : list Effect) :
  countEffects test (t1 ++ t2) = (countEffects test t1 + countEffects test t2)%nat.
Proof. unfold countEffects. by rewrite filter_app, length_app. Qed.

Lemma countEffects_none (test : Effect → bool) (t : list Effect) :
  Forall (fun e => test e = false) t → countEffects test t = 0%nat.
Proof.
  unfold countEffects. induction 1 as [|e t He _ IH]; [done|].
  rewrite filter_cons_False by congruence. done.
Qed.

Lemma closeEffects_other (test : Effect → bool) (entries : list (string * nacosListener)) :
  (∀ l, test (ListenerClose l) = false) →
  countEffects test (closeEffects entries) = 0%nat.
Proof.
  intros Ht. apply countEffects_none. unfold closeEffects.
  induction entries as [|kl entries IH]; cbn; constructor; auto.
Qed.

Lemma deregisterBlocks_other (test : Effect → bool)
  (blocks : list (URLRef * DeregisterInstanceParam * E)) :
  (∀ p, test (CallDeregisterInstance p) = false) → (∀ lvl f a, test (Log lvl f a) = false) →
  countEffects test (flat_map deregisterBlock blocks) = 0%nat.
Proof.
  intros Hp Hl. apply countEffects_none.
  induction blocks as [|[[url p] e] blocks IH]; cbn [flat_map]; [constructor|].
  apply Forall_app. split; [|exact IH]. unfold deregisterBlock.
  destruct (unregisterError _ _); cbn; repeat constructor; auto.
Qed.

(** A second Destroy finds nothing to do: the world is left as it is. *)
Lemma Destroy_destroyed (w : World E) :
  destroyed (nr w) → listenerCache w = ∅ → Destroy w = Ok tt w.
Proof.
  intros (Hd & Hurls & Hc & Hwg) Hcache. unfold Destroy.
  rewrite (bind_Ok _ _ _ _ _ (CloseListener_run w)).
  rewrite Hcache, map_to_list_empty. cbn [closeAll closeEffects foldl map].
  unfold select_done, close_done, wg_Wait. run. rewrite Hd. run. rewrite Hwg. run.
  rewrite decide_True by done. cbn. rewrite Hurls. unfold CloseAndNilClient. run.
  rewrite Hc. cbn. rewrite app_nil_r.
  destruct w as [r c h e t]. destruct r. cbn in *. by subst.
Qed.

(** Destroy called again and again by one caller runs the shutdown once: the
    first call closes the done channel at most once, with no panic, and
    closes the backend client once; every later call returns with the world
    unchanged, no channel closed, no backend call made. *)
Theorem Destroy_idempotent_in_sequence (w : World E) :
  wg (nr w) = 0%nat →
  Forall (fun url => getServiceName (heap w url) ≠ None) (registryUrls (nr w)) →
  clientOf (namingClient (nr w)) ≠ None →
  ∃ w1 new, Destroy w = Ok tt w1 ∧ trace w1 = trace w ++ new ∧
    countEffects isCloseDone new = (if done (nr w) then 0 else 1)%nat ∧
    countEffects isCloseClient new = 1%nat ∧
    ∀ n, Nat.iter n (fun o => match o with Ok _ w' => Destroy w' | _ => o end) (Ok tt w1)
         = Ok tt w1.
Proof.
  intros Hwg Hnames Hclient.
  destruct (Destroy_run w Hwg Hnames Hclient)
    as (w1 & blocks & Hrun & Hdestroyed & _ & Hcache & Htrace & _ & _).
  eexists w1, _. split; [done|]. split; [exact Htrace|].
  rewrite !countEffects_app.
  rewrite !closeEffects_other, !deregisterBlocks_other by done.
  split; [|split].
  - by destruct (done (nr w)).
  - by destruct (done (nr w)).
  - induction n as [|n IH]; [done|]. rewrite Nat.iter_succ, IH.
    by apply Destroy_destroyed.
Qed.

(** The statements of Destroy run by one caller are Destroy. *)
Lemma Destroy_thread_step (n : nat) (pc : DestroyPC) (w : World E) :
  pc ≠ PcReturn →
  Destroy_thread (S n) pc w =
    match Destroy_step pc w with
    | Ok pc' w' => Destroy_thread n pc' w'
    | Panic r w' => Panic r w'
    | Blocked w' => Blocked w'
    | Unfinished w' => Unfinished w'
    end.
Proof. intros Hpc. destruct pc; done. Qed.

Lemma Destroy_thread_loop (urls : list URLRef) (k : nat) (w : World E) :
  Destroy_thread (length urls + S k) (PcLoop urls) w
  = (forEach urls deregisterEach ;; Destroy_thread k PcClear) w.
Proof.
  revert w. induction urls as [|url urls IH]; intros w.
  { cbn [length Nat.add]. by rewrite Destroy_thread_step. }
  change (length (url :: urls) + S k)%nat with (S (length urls + S k)).
  rewrite Destroy_thread_step by done. cbn [Destroy_step forEach]. run.
  destruct (deregisterEach url w) as [[] w'| | |]; [apply IH|done..].
Qed.

Lemma Destroy_thread_alone (w : World E) :
  Destroy_thread (length (registryUrls (nr w)) + 10) PcCloseListener w = Destroy w.
Proof.
  replace (length (registryUrls (nr w)) + 10)%nat
    with (S (S (S (S (S (length (registryUrls (nr w)) + S 4)))))) by lia.
  unfold Destroy.
  rewrite Destroy_thread_step by done. cbn [Destroy_step].
  rewrite !(bind_Ok _ _ _ _ _ (CloseListener_run w)).
  set (w0 := mkWorld _ _ _ _ _). cbn [mret M_ret].
  rewrite Destroy_thread_step by done. cbn [Destroy_step].
  unfold select_done, close_done, wg_Wait. run. subst w0. cbn [nr].
  destruct (done (nr w)) eqn:Hd.
  - rewrite Destroy_thread_step by done. cbn [Destroy_step]. unfold wg_Wait. run.
    destruct (decide (wg (nr w) = 0%nat)); run; [|done].
    rewrite Destroy_thread_step by done. cbn [Destroy_step]. run.
    rewrite <- Nat.add_succ_r.
    rewrite (Destroy_thread_loop (registryUrls (nr w)) 5). run.
    destruct (forEach _ _ _) as [[] w'| | |]; try done.
    do 2 (rewrite Destroy_thread_step by done; cbn [Destroy_step]; run).
    unfold CloseAndNilClient. run.
    destruct (clientOf (namingClient (nr w'))) eqn:Hc; [|done].
    unfold clientOf in Hc. destruct (namingClient (nr w')) as [nc|] eqn:Hnc; [|done].
    rewrite Destroy_thread_step by done. cbn [Destroy_step]. run.
    rewrite Hnc. cbn. rewrite Hc. cbn.
    rewrite Destroy_thread_step by done. cbn [Destroy_step]. run. done.
  - rewrite Destroy_thread_step by done. cbn [Destroy_step]. unfold close_done. run.
    rewrite Hd. run.
    rewrite Destroy_thread_step by done. cbn [Destroy_step]. unfold wg_Wait. run.
    destruct (decide (wg (nr w) = 0%nat)); run; [|done].
    rewrite Destroy_thread_step by done. cbn [Destroy_step]. run.
    rewrite (Destroy_thread_loop (registryUrls (nr w)) 4). run.
    destruct (forEach _ _ _) as [[] w'| | |]; try done.
    do 2 (rewrite Destroy_thread_step by done; cbn [Destroy_step]; run).
    unfold CloseAndNilClient. run.
    destruct (clientOf (namingClient (nr w'))) eqn:Hc; [|done].
    unfold clientOf in Hc. destruct (namingClient (nr w')) as [nc|] eqn:Hnc; [|done].
    rewrite Destroy_thread_step by done. cbn [Destroy_step]. run.
    rewrite Hnc. cbn. rewrite Hc. cbn.
    rewrite Destroy_thread_step by done. cbn [Destroy_step]. run. done.
Qed.

(** ** The subscribe primitive *)

(** The listen call of a listener: what it sends, and the world it leaves. *)
Definition listenParam (w : World E) (l : nacosListener) (serviceName : string)
  : SubscribeParam :=
  mkSubscribeParam serviceName (GetParam (heap w (l_regURL l)) RegistryGroupKey defaultGroup).

Lemma listenService_run (l : nacosListener) (serviceName : string) (w : World E) :
  listenService l serviceName w =
    match clientOf (l_namingClient l) with
    | None => Ok (Some (errorString "nacos naming namingClient stopped")) w
    | Some _ =>
        let p := listenParam w l serviceName in
        let reply := SdkSubscribe p (env w) in
        Ok reply.1
           (mkWorld (nr w)
              (match reply.1 with
               | None => <[serviceName +:+ sp_GroupName p := l]> (listenerCache w)
               | Some _ => listenerCache w
               end)
              (heap w) reply.2 (trace w ++ [CallSubscribe p]))
    end.
Proof.
  unfold listenService, listenParam. destruct (clientOf (l_namingClient l)); [|done]. run.
  destruct (SdkSubscribe _ (env w)) as [[e|] e']; done.
Qed.

Lemma subscribe_empty (notifyListener : NotifyListener) (w : World E) :
  subscribe "" notifyListener w =
    Ok None (mkWorld (nr w) (listenerCache w) (heap w) (env w)
               (trace w ++ [Log LWarn "can not subscribe because service name is empty" []])).
Proof. unfold subscribe. cbn. run. done. Qed.

Lemma subscribe_unavailable (serviceName : string) (notifyListener : NotifyListener)
  (w w1 : World E) :
  serviceName ≠ "" → IsAvailable w = Ok false w1 →
  subscribe serviceName notifyListener w =
    Ok (Some (errorString "nacosRegistry is not available."))
       (mkWorld (nr w1) (listenerCache w1) (heap w1) (env w1)
          (trace w1 ++ [Log LWarn "event listener game over." []])).
Proof.
  intros Hname Hav. unfold subscribe.
  rewrite decide_False by (destruct serviceName; cbn; congruence).
  rewrite (bind_Ok _ _ _ _ _ Hav). run. done.
Qed.

Lemma subscribe_available (serviceName : string) (notifyListener : NotifyListener)
  (w w1 : World E) :
  serviceName ≠ "" → IsAvailable w = Ok true w1 →
  let listener :=
    NewNacosListenerWithServiceName serviceName (nrURL (nr w1)) (namingClient (nr w1)) in
  ∃ err w2 w', listenService listener serviceName w1 = Ok err w2 ∧
    subscribe serviceName notifyListener w = Ok err w' ∧
    listenerCache w' = listenerCache w2 ∧ heap w' = heap w2 ∧ env w' = env w2 ∧
    match err with
    | Some e =>
        nr w' = nr w2 ∧
        trace w' = trace w2 ++ [Publish (SubscribeEvent false);
                                Log LWarn "subscribe service %s err:%v"
                                  [ArgString serviceName; ArgError (Some e)]]
    | None =>
        nr w' = set_wg (S (wg (nr w2))) (nr w2) ∧
        trace w' = trace w2 ++ [Publish (SubscribeEvent true);
                                Spawn (GoHandleServiceEvents listener notifyListener)]
    end.
Proof.
  intros Hname Hav listener. unfold subscribe.
  rewrite decide_False by (destruct serviceName; cbn; congruence).
  rewrite (bind_Ok _ _ _ _ _ Hav). run. fold listener.
  rewrite listenService_run. destruct (clientOf (l_namingClient listener)).
  - cbn zeta. destruct (SdkSubscribe _ (env w1)) as [[e|] e'] eqn:Hreply; run.
    + eexists _, _, _. split; [reflexivity|]. split; [reflexivity|]. cbn.
      rewrite <- !app_assoc. done.
    + eexists _, _, _. split; [reflexivity|]. split; [reflexivity|]. cbn.
      rewrite <- !app_assoc. done.
  - run. eexists _, _, _. split; [reflexivity|]. split; [reflexivity|]. cbn.
    rewrite <- !app_assoc. done.
Qed.

(** C8: subscribe with an empty name logs a warning and returns nil, and
    creates nothing; with the registry unavailable it returns an error and
    creates nothing; with a name and an available registry it builds the
    listener and runs its listen call, returning the call's error when it
    fails, and starting the event pump (one more goroutine to wait for) when
    it succeeds. *)
Theorem subscribe_cases (serviceName : string) (notifyListener : NotifyListener)
  (w : World E) :
  (serviceName = "" →
   subscribe serviceName notifyListener w =
     Ok None (mkWorld (nr w) (listenerCache w) (heap w) (env w)
                (trace w ++ [Log LWarn "can not subscribe because service name is empty" []]))) ∧
  (serviceName ≠ "" → ∀ w1, IsAvailable w = Ok false w1 →
   subscribe serviceName notifyListener w =
     Ok (Some (errorString "nacosRegistry is not available."))
        (mkWorld (nr w1) (listenerCache w1) (heap w1) (env w1)
           (trace w1 ++ [Log LWarn "event listener game over." []]))) ∧
  (serviceName ≠ "" → ∀ w1, IsAvailable w = Ok true w1 →
   let listener :=
     NewNacosListenerWithServiceName serviceName (nrURL (nr w1)) (namingClient (nr w1)) in
   ∃ err w2 w', listenService listener serviceName w1 = Ok err w2 ∧
     subscribe serviceName notifyListener w = Ok err w' ∧
     listenerCache w' = listenerCache w2 ∧ heap w' = heap w2 ∧ env w' = env w2 ∧
     match err with
     | Some e =>
         nr w' = nr w2 ∧
         trace w' = trace w2 ++ [Publish (SubscribeEvent false);
                                 Log LWarn "subscribe service %s err:%v"
                                   [ArgString serviceName; ArgError (Some e)]]
     | None =>
         nr w' = set_wg (S (wg (nr w2))) (nr w2) ∧
         trace w' = trace w2 ++ [Publish (SubscribeEvent true);
                                 Spawn (GoHandleServiceEvents listener notifyListener)]
     end).
Proof.
  split; [|split].
  - intros ->. apply subscribe_empty.
  - intros Hname w1 Hav. by apply subscribe_unavailable.
  - intros Hname w1 Hav. by apply subscribe_available.
Qed.

(** ** subscribeAll *)

(** An invariant of the environment under which the backend answers every
    listing, whatever else happens to it. *)
Record Dependable (Good : E → Prop) : Prop := {
  dep_listing : ∀ p e, Good e → (GetAllServicesInfo p e).1.2 = None;
  dep_listing_next : ∀ p e, Good e → Good (GetAllServicesInfo p e).2;
  dep_subscribe_next : ∀ p e, Good e → Good (SdkSubscribe p e).2;
  dep_now_next : ∀ e, Good e → Good (Now e).2
}.

(** Under the invariant, the backend accepts every listen call. *)
Definition Accepting (Good : E → Prop) : Prop :=
  ∀ p e, Good e → (SdkSubscribe p e).1 = None.

(** A registry that is and stays available: not shut down, last seen
    available, with a client, on a dependable backend. *)
Definition steady (Good : E → Prop) (w : World E) : Prop :=
  done (nr w) = false ∧ lastAvailable (availability (nr w)) = true ∧
  clientOf (namingClient (nr w)) ≠ None ∧ Good (env w).

(** A registry that IsAvailable finds available, now and from now on: not
    shut down, with a client, on a dependable backend, and either last seen
    available or due for a probe at every reading of the clock (as a newly
    built registry is: its last check is the zero time). *)
Definition available (Good : E → Prop) (w : World E) : Prop :=
  done (nr w) = false ∧ clientOf (namingClient (nr w)) ≠ None ∧ Good (env w) ∧
  (lastAvailable (availability (nr w)) = true ∨
   ∀ e, Good e →
     checkInterval ≤ GoTime.Sub (Now e).1 (lastCheckTime (availability (nr w)))).

(** What a step leaves alone. *)
Definition sameRegistry (w w' : World E) : Prop :=
  heap w' = heap w ∧ nrURL (nr w') = nrURL (nr w) ∧
  namingClient (nr w') = namingClient (nr w) ∧ done (nr w') = done (nr w).

Lemma sameRegistry_refl (w : World E) : sameRegistry w w.
Proof. done. Qed.

Lemma sameRegistry_trans (w1 w2 w3 : World E) :
  sameRegistry w1 w2 → sameRegistry w2 w3 → sameRegistry w1 w3.
Proof. unfold sameRegistry. intros (?&?&?&?) (?&?&?&?). repeat split; congruence. Qed.

Lemma subscribedNames_app (t1 t2 : list Effect) :
  subscribedNames (t1 ++ t2) = subscribedNames t1 ++ subscribedNames t2.
Proof. induction t1 as [|e t1 IH]; [done|]. destruct e; cbn; rewrite ?IH; done. Qed.

Lemma attemptedNames_app (t1 t2 : list Effect) :
  attemptedNames (t1 ++ t2) = attemptedNames t1 ++ attemptedNames t2.
Proof.
  induction t1 as [|e t1 IH]; [done|].
  destruct e as [| | | | | | | | | | |lvl f args|]; cbn; rewrite ?IH; try done.
  destruct lvl, args as [|[] args]; cbn; rewrite ?IH; try done.
  by case_decide.
Qed.

Lemma subscribed_attempted (t : list Effect) (name : string) :
  name ∈ subscribedNames t → name ∈ attemptedNames t.
Proof.
  induction t as [|e t IH]; [done|].
  destruct e as [| | |p| | | | | | | |lvl f args|]; cbn; auto.
  - intros [->|Hin]%elem_of_cons; apply elem_of_cons; auto.
  - intros Hin. destruct lvl, args as [|[] args]; auto.
    case_decide; auto. apply elem_of_cons; auto.
Qed.

(** The four ways IsAvailable runs. *)
Lemma IsAvailable_cases (w : World E) :
  (done (nr w) = true ∧ IsAvailable w = Ok false w) ∨
  (done (nr w) = false ∧
   IsAvailable w = Ok (lastAvailable (availability (nr w)))
                      (mkWorld (nr w) (listenerCache w) (heap w) (Now (env w)).2 (trace w))) ∨
  (done (nr w) = false ∧ clientOf (namingClient (nr w)) = None ∧
   IsAvailable w =
     Ok false
        (mkWorld (set_availability (mkAvailabilityCache false (Now (Now (env w)).2).1) (nr w))
           (listenerCache w) (heap w) (Now (Now (env w)).2).2 (trace w))) ∨
  (done (nr w) = false ∧ clientOf (namingClient (nr w)) ≠ None ∧
   IsAvailable w =
     Ok (bool_decide ((GetAllServicesInfo (probeParam w) (Now (Now (env w)).2).2).1.2 = None))
        (mkWorld
           (set_availability
              (mkAvailabilityCache
                 (bool_decide
                    ((GetAllServicesInfo (probeParam w) (Now (Now (env w)).2).2).1.2 = None))
                 (Now (Now (env w)).2).1) (nr w))
           (listenerCache w) (heap w)
           (GetAllServicesInfo (probeParam w) (Now (Now (env w)).2).2).2
           (trace w ++ [CallGetAllServicesInfo (probeParam w)]))).
Proof.
  destruct (done (nr w)) eqn:Hd.
  { left. split; [done|]. by apply IsAvailable_closed. }
  right.
  destruct (Z.lt_ge_cases (GoTime.Sub (Now (env w)).1 (lastCheckTime (availability (nr w))))
              checkInterval) as [Hw|Hw].
  { left. split; [done|]. by apply IsAvailable_cached. }
  right. destruct (clientOf (namingClient (nr w))) eqn:Hc.
  - right. split; [done|]. split; [done|]. apply IsAvailable_probe; by rewrite ?Hc.
  - left. split; [done|]. split; [done|]. by apply IsAvailable_nil_client.
Qed.

(** IsAvailable, as the steps after it see it. *)
Lemma IsAvailable_frame (w : World E) :
  ∃ b w1 new, IsAvailable w = Ok b w1 ∧ trace w1 = trace w ++ new ∧
    subscribedNames new = [] ∧ attemptedNames new = [] ∧
    sameRegistry w w1 ∧ listenerCache w1 = listenerCache w ∧ wg (nr w1) = wg (nr w).
Proof.
  destruct (IsAvailable_cases w) as [[_ ->]|[[_ ->]|[(_ & _ & ->)|(_ & _ & ->)]]].
  - exists false, w, []. by rewrite app_nil_r.
  - eexists _, _, []. split; [reflexivity|]. cbn. by rewrite app_nil_r.
  - eexists _, _, []. split; [reflexivity|]. cbn. by rewrite app_nil_r.
  - eexists _, _, [_]. split; [reflexivity|]. done.
Qed.

Lemma IsAvailable_good (Good : E → Prop) (w w1 : World E) (b : bool) :
  Dependable Good → Good (env w) → IsAvailable w = Ok b w1 → Good (env w1).
Proof.
  intros HG He.
  destruct (IsAvailable_cases w) as [[_ ->]|[[_ ->]|[(_ & _ & ->)|(_ & _ & ->)]]];
    intros [= _ <-]; cbn; auto.
  - by apply HG.
  - by apply HG, HG.
  - by apply HG, HG, HG.
Qed.

Lemma IsAvailable_steady (Good : E → Prop) (w w1 : World E) (b : bool) :
  Dependable Good → steady Good w → IsAvailable w = Ok b w1 → b = true ∧ steady Good w1.
Proof.
  intros HG (Hd & Hl & Hc & He).
  destruct (IsAvailable_cases w) as [[? ->]|[[_ ->]|[(_ & ? & ->)|(_ & _ & ->)]]];
    [congruence| | congruence |]; intros [= <- <-]; cbn.
  - split; [done|]. repeat split; auto. by apply HG.
  - assert (Hok : (GetAllServicesInfo (probeParam w) (Now (Now (env w)).2).2).1.2 = None)
      by (by apply HG, HG, HG).
    rewrite bool_decide_eq_true_2 by done. split; [done|]. repeat split; auto.
    by apply HG, HG, HG.
Qed.

Lemma steady_available (Good : E → Prop) (w : World E) :
  steady Good w → available Good w.
Proof. intros (Hd & Hl & Hc & Hg). repeat split; auto. Qed.

Lemma IsAvailable_available (Good : E → Prop) (w w1 : World E) (b : bool) :
  Dependable Good → available Good w → IsAvailable w = Ok b w1 →
  b = true ∧ steady Good w1.
Proof.
  intros HG (Hd & Hc & Hg & Hdue).
  destruct (Z.lt_ge_cases (GoTime.Sub (Now (env w)).1 (lastCheckTime (availability (nr w))))
              checkInterval) as [Hw|Hw].
  - rewrite (IsAvailable_cached w Hd Hw). intros [= <- <-].
    destruct Hdue as [Hl|Hdue]; [|specialize (Hdue (env w) Hg); lia].
    split; [done|]. repeat split; auto. by apply HG.
  - rewrite (IsAvailable_probe w Hd Hw Hc). cbn zeta.
    assert (Hok : (GetAllServicesInfo (probeParam w) (Now (Now (env w)).2).2).1.2 = None)
      by (by apply HG, HG, HG).
    rewrite bool_decide_eq_true_2 by done. intros [= <- <-].
    split; [done|]. repeat split; auto. cbn. by apply HG, HG, HG.
Qed.
(** The group of the registry's own URL: the second half of a cache key. *)
Definition registryGroup (w : World E) : string :=
  GetParam (heap w (nrURL (nr w))) RegistryGroupKey defaultGroup.

(** subscribe on a name: no listen call (IsAvailable answers false), a
    listen call that fails (the backend does not accept), or a listen call
    that succeeds and caches the listener under name+group. *)
Lemma subscribe_attempt (name : string) (n : NotifyListener) (w : World E) :
  name ≠ "" →
  ∃ err w' new, subscribe name n w = Ok err w' ∧ trace w' = trace w ++ new ∧
    sameRegistry w w' ∧
    (∀ Good, Dependable Good → available Good w → available Good w') ∧
    (∀ Good, Dependable Good → Good (env w) → Good (env w')) ∧
    (∀ x, x ∈ attemptedNames new → x = name) ∧
    ((err ≠ None ∧ subscribedNames new = [] ∧ listenerCache w' = listenerCache w ∧
      ∀ Good, Dependable Good → ¬ available Good w) ∨
     (err ≠ None ∧ subscribedNames new = [name] ∧ listenerCache w' = listenerCache w ∧
      ∀ Good, Dependable Good → ¬ (Accepting Good ∧ Good (env w))) ∨
     (err = None ∧ subscribedNames new = [name] ∧ name ∈ attemptedNames new ∧
      ∃ l, listenerCache w' = <[name +:+ registryGroup w := l]> (listenerCache w))).
Proof.
  intros Hname.
  destruct (IsAvailable_frame w)
    as (b & w1 & new1 & Hav & Ht1 & Hs1 & Ha1 & Hsame1 & Hcache1 & _).
  destruct b.
  - destruct (subscribe_available name n w w1 Hname Hav)
      as (err & w2 & w' & Hlisten & Hrun & Hc' & Hh' & He' & Hmatch).
    rewrite listenService_run in Hlisten.
    unfold NewNacosListenerWithServiceName in Hlisten, Hmatch.
    cbn [l_namingClient l_regURL] in Hlisten.
    destruct Hsame1 as (Hheap1 & Hurl1 & Hclient1 & Hdone1).
    assert (Hgroup : GetParam (heap w1 (nrURL (nr w1))) RegistryGroupKey defaultGroup
                     = registryGroup w) by (unfold registryGroup; congruence).
    destruct (clientOf (namingClient (nr w1))) eqn:Hc.
    + cbn zeta in Hlisten. unfold listenParam in Hlisten.
      cbn [l_regURL sp_GroupName] in Hlisten. rewrite Hgroup in Hlisten.
      set (p := mkSubscribeParam name (registryGroup w)) in *.
      injection Hlisten as Herr Hw2.
      assert (Hsame : sameRegistry w w').
      { unfold sameRegistry. rewrite Hh', <- Hw2. cbn.
        destruct err; destruct Hmatch as [-> _]; rewrite <- Hw2; cbn; repeat split; congruence. }
      assert (Hgood : ∀ Good, Dependable Good → Good (env w) → Good (env w')).
      { intros Good HG Hg. rewrite He', <- Hw2. cbn. apply HG.
        exact (IsAvailable_good Good w w1 true HG Hg Hav). }
      assert (Hsteady : ∀ Good, Dependable Good → available Good w → available Good w').
      { intros Good HG Hst. apply steady_available.
        destruct (IsAvailable_available Good w w1 true HG Hst Hav)
          as (_ & Hd1 & Hl1 & Hcl1 & Hg1).
        unfold steady. rewrite He', <- Hw2. cbn.
        destruct err; destruct Hmatch as [-> _]; rewrite <- Hw2; cbn;
          repeat split; auto; by apply HG. }
      assert (Htrace : ∃ rest, trace w' = trace w ++ new1 ++ CallSubscribe p :: rest ∧
                               subscribedNames rest = [] ∧
                               ∀ x, x ∈ attemptedNames rest → x = name).
      { destruct err; destruct Hmatch as [_ ->]; rewrite <- Hw2; cbn; rewrite Ht1;
          rewrite <- !app_assoc; eexists; (split; [reflexivity|]); split; try done.
        - cbn. intros x Hx. by apply list_elem_of_singleton in Hx.
        - cbn. by intros x ?%elem_of_nil. }
      destruct Htrace as (rest & Htrace & Hrest & Hrest').
      exists err, w', (new1 ++ CallSubscribe p :: rest).
      split; [done|]. split; [done|]. split; [done|]. split; [done|]. split; [done|].
      rewrite subscribedNames_app, attemptedNames_app, Hs1, Ha1. cbn. rewrite Hrest.
      split. { intros x [->|Hx]%elem_of_cons; auto. }
      right. destruct err as [e|].
      * left. split; [done|]. split; [done|]. split.
        { rewrite Hc', <- Hw2. cbn. by rewrite Herr. }
        intros Good HG [Hacc Hg].
        pose proof (IsAvailable_good Good w w1 true HG Hg Hav) as Hg1.
        specialize (Hacc p (env w1) Hg1). congruence.
      * right. split; [done|]. split; [done|]. split; [by left|].
        eexists. rewrite Hc', <- Hw2. cbn. rewrite Herr. by rewrite Hcache1.
    + injection Hlisten as <- <-.
      destruct Hmatch as [Hnr Htr].
      exists (Some (errorString "nacos naming namingClient stopped")), w', (new1 ++
        [Publish (SubscribeEvent false);
         Log LWarn "subscribe service %s err:%v"
           [ArgString name;
            ArgError (Some (errorString "nacos naming namingClient stopped"))]]).
      split; [done|]. split; [by rewrite Htr, Ht1, <- app_assoc|].
      assert (Hnot : ∀ Good, Dependable Good → ¬ available Good w).
      { intros Good HG (_ & Hcl & _). rewrite <- Hclient1 in Hcl. congruence. }
      split; [unfold sameRegistry; rewrite Hh', Hnr; repeat split; congruence|].
      split; [intros Good HG Hst; by destruct (Hnot Good HG)|].
      split. { intros Good HG Hg. rewrite He'. exact (IsAvailable_good Good w w1 true HG Hg Hav). }
      rewrite subscribedNames_app, attemptedNames_app, Hs1, Ha1. cbn.
      split. { intros x Hx. by apply list_elem_of_singleton in Hx. }
      left. split; [done|]. split; [done|]. split; [congruence|done].
  - rewrite (subscribe_unavailable name n w w1 Hname Hav).
    eexists _, _, (new1 ++ [_]). split; [reflexivity|]. cbn.
    split; [by rewrite Ht1, <- app_assoc|].
    assert (Hnot : ∀ Good, Dependable Good → ¬ available Good w).
    { intros Good HG Hst. by destruct (IsAvailable_available Good w w1 false HG Hst Hav). }
    split; [done|]. split; [intros Good HG Hst; by destruct (Hnot Good HG)|].
    split. { intros Good HG Hg. exact (IsAvailable_good Good w w1 false HG Hg Hav). }
    rewrite subscribedNames_app, attemptedNames_app, Hs1, Ha1. cbn.
    split. { by intros x ?%elem_of_nil. }
    left. split; [done|]. split; [done|]. split; [done|done].
Qed.

Lemma subscribe_returns (name : string) (n : NotifyListener) (w : World E) :
  ∃ err w', subscribe name n w = Ok err w' ∧ heap w' = heap w.
Proof.
  destruct (decide (name = "")) as [->|Hname].
  - rewrite subscribe_empty. eauto.
  - destruct (subscribe_attempt name n w Hname) as (err & w' & new & Hrun & _ & Hsame & _).
    exists err, w'. split; [done|]. apply Hsame.
Qed.

Lemma append_length (s t : string) :
  String.length (s +:+ t) = (String.length s + String.length t)%nat.
Proof. induction s as [|c s IH]; [done|]. rewrite append_cons. cbn. by rewrite IH. Qed.

(** A cache key names its service: the group is the same on every key. *)
Lemma append_cancel_r (s1 s2 t : string) : s1 +:+ t = s2 +:+ t → s1 = s2.
Proof.
  revert s2. induction s1 as [|c s1 IH]; intros [|c2 s2] Heq; [done|..].
  - apply (f_equal String.length) in Heq. rewrite !append_length in Heq.
    cbn in Heq. lia.
  - apply (f_equal String.length) in Heq. rewrite !append_length in Heq.
    cbn in Heq. lia.
  - rewrite !append_cons in Heq. injection Heq as -> Heq. f_equal. by apply IH.
Qed.

(** One turn of the loop of subscribeAll: the name is skipped, being
    cached; or it is tried, and then listened to or warned about. *)
Lemma subscribeEach_step (g : string) (n : NotifyListener) (name : string) (w : World E) :
  name ≠ "" → g = registryGroup w →
  ∃ w' new, subscribeEach g n name w = Ok tt w' ∧ trace w' = trace w ++ new ∧
    sameRegistry w w' ∧
    (∀ Good, Dependable Good → available Good w → available Good w') ∧
    (∀ Good, Dependable Good → Good (env w) → Good (env w')) ∧
    (∀ x, x ∈ attemptedNames new → x = name) ∧
    ((is_Some (listenerCache w !! (name +:+ g)) ∧ new = [] ∧
      listenerCache w' = listenerCache w) ∨
     (listenerCache w !! (name +:+ g) = None ∧ name ∈ attemptedNames new ∧
      ((subscribedNames new = [] ∧ listenerCache w' = listenerCache w ∧
        ∀ Good, Dependable Good → ¬ available Good w) ∨
       (subscribedNames new = [name] ∧ listenerCache w' = listenerCache w ∧
        ∀ Good, Dependable Good → ¬ (Accepting Good ∧ Good (env w))) ∨
       (subscribedNames new = [name] ∧
        ∃ l, listenerCache w' = <[name +:+ g := l]> (listenerCache w))))).
Proof.
  intros Hname ->. unfold subscribeEach. run.
  destruct (listenerCache w !! (name +:+ registryGroup w)) as [l|] eqn:Hcached.
  { exists w, []. rewrite app_nil_r.
    split; [done|]. split; [done|]. split; [done|]. split; [done|]. split; [done|].
    split; [by intros x ?%elem_of_nil|]. left. eauto. }
  destruct (subscribe_attempt name n w Hname)
    as (err & w' & new & Hrun & Htrace & Hsame & Hsteady & Hgood & Honly & Hcases).
  rewrite Hrun. destruct err as [e|]; run.
  - eexists _, (new ++ [_]). split; [reflexivity|]. cbn.
    split; [by rewrite Htrace, <- app_assoc|]. split; [done|]. split; [done|].
    split; [done|]. rewrite subscribedNames_app, attemptedNames_app. cbn.
    rewrite app_nil_r.
    split. { intros x [Hx|Hx]%elem_of_app; [auto|]. by apply list_elem_of_singleton in Hx. }
    right. split; [done|]. split; [apply elem_of_app; right; by left|].
    destruct Hcases as [(_&?&?&?)|[(_&?&?&?)|(?&_)]]; [left|right; left|done]; done.
  - exists w', new. split; [done|]. split; [done|]. split; [done|]. split; [done|].
    split; [done|]. split; [done|]. right. split; [done|].
    destruct Hcases as [(?&_)|[(?&_)|(_&?&?&?)]]; [done..|]. split; [done|].
    right; right. done.
Qed.

(** The loop of subscribeAll over names that are not empty. *)
Lemma subscribeEach_loop (g : string) (n : NotifyListener) (names : list string)
  (w : World E) :
  Forall (fun name => name ≠ "") names → g = registryGroup w →
  ∃ w' new, forEach names (subscribeEach g n) w = Ok tt w' ∧ trace w' = trace w ++ new ∧
    sameRegistry w w' ∧
    (∀ Good, Dependable Good → available Good w → available Good w') ∧
    (∀ Good, Dependable Good → Good (env w) → Good (env w')) ∧
    (∀ key, is_Some (listenerCache w !! key) → is_Some (listenerCache w' !! key)) ∧
    (∀ name, name ∈ attemptedNames new →
       name ∈ names ∧ listenerCache w !! (name +:+ g) = None) ∧
    (∀ name, name ∈ names → listenerCache w !! (name +:+ g) = None →
       name ∈ attemptedNames new) ∧
    (∀ Good, Dependable Good → available Good w →
       ∀ name, name ∈ names → listenerCache w !! (name +:+ g) = None →
         name ∈ subscribedNames new) ∧
    (∀ Good, Dependable Good → Accepting Good → Good (env w) →
       NoDup (subscribedNames new) ∧
       ∀ name, name ∈ subscribedNames new → is_Some (listenerCache w' !! (name +:+ g))).
Proof.
  revert w. induction names as [|name rest IH]; intros w Hnames Hg.
  { exists w, []. rewrite app_nil_r. cbn.
    split; [done|]. split; [done|]. split; [done|]. split; [done|]. split; [done|].
    split; [done|]. split; [by intros name ?%elem_of_nil|].
    split; [by intros name ?%elem_of_nil|].
    split; [by intros Good _ _ name ?%elem_of_nil|].
    intros Good _ _ _. split; [constructor|]. by intros name ?%elem_of_nil. }
  apply Forall_cons in Hnames as [Hname Hrest].
  destruct (subscribeEach_step g n name w Hname Hg)
    as (w1 & new1 & Hstep & Ht1 & Hsame1 & Hsteady1 & Hgood1 & Honly1 & Hcases).
  assert (Hg1 : g = registryGroup w1).
  { rewrite Hg. unfold registryGroup. destruct Hsame1 as (Hh & Hu & _).
    by rewrite Hh, Hu. }
  destruct (IH w1 Hrest Hg1)
    as (w' & new2 & Hloop & Ht2 & Hsame2 & Hsteady2 & Hgood2 & Hmono2 & Htried2 & Hall2
        & Hcomplete2 & Honce2).
  assert (Hcache1 : listenerCache w1 = listenerCache w ∨
                    (listenerCache w !! (name +:+ g) = None ∧
                     subscribedNames new1 = [name] ∧
                     ∃ l, listenerCache w1 = <[name +:+ g := l]> (listenerCache w))).
  { destruct Hcases as [(_ & _ & ?)|(? & _ & [(_ & ? & _)|[(_ & ? & _)|(? & ?)]])]; auto. }
  assert (Hmono1 : ∀ key, is_Some (listenerCache w !! key) → is_Some (listenerCache w1 !! key)).
  { intros key Hkey. destruct Hcache1 as [->|(_ & _ & l & ->)]; [done|].
    rewrite lookup_insert. case_decide; eauto. }
  assert (Hnone1 : ∀ key, listenerCache w1 !! key = None → listenerCache w !! key = None).
  { intros key Hkey. destruct (listenerCache w !! key) eqn:Hw; [|done].
    destruct (Hmono1 key) as [x Hx]; [by rewrite Hw|]. congruence. }
  assert (Htried1 : ∀ x, x ∈ attemptedNames new1 →
                         x = name ∧ listenerCache w !! (name +:+ g) = None).
  { intros x Hx. split; [by apply Honly1|].
    destruct Hcases as [(_ & -> & _)|(? & _)]; [by apply elem_of_nil in Hx|done]. }
  assert (Hchanged : ∀ name', listenerCache w !! (name' +:+ g) = None →
                       is_Some (listenerCache w1 !! (name' +:+ g)) →
                       name' = name ∧ subscribedNames new1 = [name]).
  { intros name' Hnone [l1 Hsome].
    destruct Hcache1 as [Hc|(_ & Hs & l & Hc)]; rewrite Hc in Hsome; [congruence|].
    rewrite lookup_insert in Hsome. case_decide as Hkey; [|congruence].
    apply append_cancel_r in Hkey. by subst. }
  exists w', (new1 ++ new2).
  split. { cbn [forEach]. rewrite (bind_Ok _ _ _ _ _ Hstep). exact Hloop. }
  split. { by rewrite Ht2, Ht1, <- app_assoc. }
  split. { by eapply sameRegistry_trans. }
  split. { intros Good HG Hst. exact (Hsteady2 Good HG (Hsteady1 Good HG Hst)). }
  split. { intros Good HG Hgd. exact (Hgood2 Good HG (Hgood1 Good HG Hgd)). }
  split. { intros key Hkey. exact (Hmono2 key (Hmono1 key Hkey)). }
  rewrite subscribedNames_app, attemptedNames_app.
  split; [|split; [|split]].
  - intros name' [Hin|Hin]%elem_of_app.
    + destruct (Htried1 name' Hin) as [-> Hnone]. split; [apply elem_of_cons; auto|done].
    + destruct (Htried2 name' Hin) as [Hin' Hnone]. split; [apply elem_of_cons; auto|].
      by apply Hnone1.
  - intros name' [->|Hin]%elem_of_cons Hnone; apply elem_of_app.
    + left. destruct Hcases as [([x Hx] & _)|(_ & ? & _)]; [congruence|done].
    + destruct (listenerCache w1 !! (name' +:+ g)) as [l1|] eqn:Hw1.
      * left. destruct (Hchanged name' Hnone) as [-> Hs]; [eauto|].
        apply subscribed_attempted. rewrite Hs. by left.
      * right. by apply Hall2.
  - intros Good HG Hst name' [->|Hin]%elem_of_cons Hnone; apply elem_of_app.
    + left. destruct Hcases as [([x Hx] & _)|(_ & _ & [(_ & _ & Hns)|[(-> & _)|(-> & _)]])].
      * congruence.
      * by destruct (Hns Good HG).
      * by left.
      * by left.
    + destruct (listenerCache w1 !! (name' +:+ g)) as [l1|] eqn:Hw1.
      * left. destruct (Hchanged name' Hnone) as [-> ->]; [eauto|]. by left.
      * right. eapply Hcomplete2; eauto.
  - intros Good HG Hacc Hgd.
    destruct (Honce2 Good HG Hacc (Hgood1 Good HG Hgd)) as [Hnodup2 Hcached2].
    destruct Hcases as [(_ & -> & _)|(_ & _ & [(Hs & _)|[(_ & _ & Hno)|(Hs & l & Hc)]])].
    + split; [done|]. intros name' Hin. by apply Hcached2.
    + rewrite Hs. split; [done|]. intros name' Hin. by apply Hcached2.
    + by destruct (Hno Good HG).
    + rewrite Hs. split.
      * cbn. apply NoDup_cons. split; [|done]. intros Hin.
        destruct (Htried2 name (subscribed_attempted _ _ Hin)) as [_ Hnone].
        rewrite Hc, lookup_insert_eq in Hnone. congruence.
      * intros name' [->%list_elem_of_singleton|Hin]%elem_of_app; [|by apply Hcached2].
        apply Hmono2. rewrite Hc, lookup_insert_eq. eauto.
Qed.

Lemma selectServiceNames_spec (categories doms : list string) (name : string) :
  name ∈ selectServiceNames categories doms ↔
  name ∈ doms ∧ GoStrings.Contains name NacosServiceNameSeparator = true ∧
  hd "" (GoStrings.Split name NacosServiceNameSeparator) ∈ categories.
Proof.
  unfold selectServiceNames. rewrite !list_elem_of_In, in_flat_map. split.
  - intros (dom & Hdom & Hin).
    destruct (GoStrings.Contains dom NacosServiceNameSeparator) eqn:Hc; [|done].
    apply in_flat_map in Hin as (item & Hitem & Hin).
    case_decide as Heq; [|done]. destruct Hin as [<-|[]]. by subst.
  - intros (Hdom & Hc & Hcat). exists name. split; [done|]. rewrite Hc.
    apply in_flat_map. eexists. split; [exact Hcat|].
    rewrite decide_True by done. by left.
Qed.

Lemma selectServiceNames_named (categories doms : list string) :
  Forall (fun name => name ≠ "") (selectServiceNames categories doms).
Proof.
  apply Forall_forall. intros name (_ & Hc & _)%selectServiceNames_spec. by intros ->.
Qed.

(** The listing of getAllSubscribeServiceNames: page 1, unbounded page. *)
Definition listingParam (w : World E) : GetAllServiceInfoParam :=
  mkGetAllServiceInfoParam (registryGroup w) 1 MaxInt32.

Lemma getAllSubscribeServiceNames_run (url : URLRef) (w : World E) :
  clientOf (namingClient (nr w)) ≠ None →
  getAllSubscribeServiceNames url w =
    let reply := GetAllServicesInfo (listingParam w) (env w) in
    match reply.1.2 with
    | Some e =>
        Ok ([], Some e)
           (mkWorld (nr w) (listenerCache w) (heap w) reply.2
              (trace w ++ [CallGetAllServicesInfo (listingParam w);
                           Log LError "query services error: %v"
                             [ArgError (Some e)]]))
    | None =>
        Ok (selectServiceNames
              (GoStrings.Split (GetParam (heap w url) CategoryKey DefaultCategory)
                 CommaSeparator)
              (Doms reply.1.1), None)
           (mkWorld (nr w) (listenerCache w) (heap w) reply.2
              (trace w ++ [CallGetAllServicesInfo (listingParam w)]))
    end.
Proof.
  intros Hclient. unfold getAllSubscribeServiceNames, listingParam, registryGroup. run.
  unfold clientOf in Hclient. destruct (namingClient (nr w)) as [nc|]; [|done].
  cbn in Hclient |- *. destruct (Client nc); [|done]. cbn.
  destruct (GetAllServicesInfo _ (env w)) as [[services [e|]] e']; cbn; [|done].
  by rewrite <- app_assoc.
Qed.

(** One turn of the loop of subscribeAll on [name], from [w] to [w']: a
    name cached under name+group is passed over; any other name is handed to
    subscribe, whose error, if any, is logged. *)
Definition subscribeTurn (g : string) (n : NotifyListener) (name : string)
  (w w' : World E) : Prop :=
  match listenerCache w !! (name +:+ g) with
  | Some _ => w' = w
  | None =>
      ∃ err w1, subscribe name n w = Ok err w1 ∧
        match err with
        | None => w' = w1
        | Some e =>
            w' = mkWorld (nr w1) (listenerCache w1) (heap w1) (env w1)
                   (trace w1 ++ [Log LWarn "subscribe service %s err:%v"
                                   [ArgString name; ArgError (Some e)]])
        end
  end.

(** The turns on [names], one after the other. *)
Fixpoint subscribeTurns (g : string) (n : NotifyListener) (names : list string)
  (w w' : World E) : Prop :=
  match names with
  | [] => w' = w
  | name :: rest => ∃ w1, subscribeTurn g n name w w1 ∧ subscribeTurns g n rest w1 w'
  end.

Lemma subscribeEach_turn (g : string) (n : NotifyListener) (name : string) (w w' : World E) :
  subscribeEach g n name w = Ok tt w' → subscribeTurn g n name w w'.
Proof.
  unfold subscribeEach, subscribeTurn. run.
  destruct (listenerCache w !! (name +:+ g)) as [l|]; [by intros [= <-]|].
  destruct (subscribe_returns name n w) as (err & w1 & Hrun & _). rewrite Hrun.
  intros Hstep. exists err, w1. split; [done|].
  destruct err as [e|]; revert Hstep; run; by intros [= <-].
Qed.

Lemma subscribeEach_turns (g : string) (n : NotifyListener) (names : list string)
  (w w' : World E) :
  forEach names (subscribeEach g n) w = Ok tt w' → subscribeTurns g n names w w'.
Proof.
  revert w. induction names as [|name rest IH]; intros w; cbn [forEach subscribeTurns].
  { by intros [= <-]. }
  unfold mbind, M_bind.
  destruct (subscribeEach g n name w) as [[] w1| | |] eqn:Hstep; try done.
  intros Hrest. exists w1. split; [by apply subscribeEach_turn|by apply IH].
Qed.

(** C6: the names a pass of subscribeAll hands to subscribe (a listen call
    is issued, or the failure of the subscribe is logged) are exactly the
    listed names whose category prefix is one of the requested categories
    and that are not cached under name+group; the pass takes the selected
    names in the order of the listing, passes over each one that is cached
    at its turn and runs subscribe on every other one. On a registry that
    IsAvailable finds available (a newly built one is) each of these names
    gets its listen call, and when the backend accepts the listen calls no
    name gets two. *)
Theorem subscribeAll_exact (url : URLRef) (n : NotifyListener) (w : World E) :
  clientOf (namingClient (nr w)) ≠ None →
  let reply := GetAllServicesInfo (listingParam w) (env w) in
  let categories :=
    GoStrings.Split (GetParam (heap w url) CategoryKey DefaultCategory) CommaSeparator in
  let wanted name :=
    reply.1.2 = None ∧ name ∈ Doms reply.1.1 ∧
    GoStrings.Contains name NacosServiceNameSeparator = true ∧
    hd "" (GoStrings.Split name NacosServiceNameSeparator) ∈ categories ∧
    listenerCache w !! (name +:+ registryGroup w) = None in
  let listed :=
    mkWorld (nr w) (listenerCache w) (heap w) reply.2
      (trace w ++ [CallGetAllServicesInfo (listingParam w)]) in
  ∃ w' new, subscribeAll url n w = Ok tt w' ∧ trace w' = trace w ++ new ∧
    (∀ name, name ∈ attemptedNames new ↔ wanted name) ∧
    (∀ name, name ∈ subscribedNames new → wanted name) ∧
    (reply.1.2 = None → selectServiceNames categories (Doms reply.1.1) ≠ [] →
       subscribeTurns (registryGroup w) n (selectServiceNames categories (Doms reply.1.1))
         listed w') ∧
    (∀ Good, Dependable Good → available Good w →
       ∀ name, wanted name → name ∈ subscribedNames new) ∧
    (∀ Good, Dependable Good → Accepting Good → Good (env w) →
       NoDup (subscribedNames new)).
Proof.
  intros Hclient reply categories wanted listed. unfold subscribeAll. run.
  rewrite (getAllSubscribeServiceNames_run url w Hclient). cbn zeta. fold reply.
  fold (registryGroup w).
  destruct (reply.1.2) as [e|] eqn:Herr; run.
  { eexists _, [_; _; _]. split; [reflexivity|]. cbn. rewrite <- app_assoc.
    split; [done|].
    assert (Hno : ∀ name, ¬ wanted name).
    { intros name (Hnone & _). subst wanted. cbn in Hnone. congruence. }
    split; [|split; [|split; [|split]]].
    - intros name. split; [by intros ?%elem_of_nil|]. by intros ?%Hno.
    - by intros name ?%elem_of_nil.
    - done.
    - intros Good _ _ name Hw. by destruct (Hno name).
    - intros. constructor. }
  fold categories. fold listed.
  destruct (decide (length (selectServiceNames categories (Doms reply.1.1)) = 0%nat))
    as [Hempty|Hsome].
  { apply length_zero_iff_nil in Hempty. run.
    eexists _, [_; _]. split; [reflexivity|]. cbn. rewrite <- app_assoc.
    split; [done|].
    assert (Hno : ∀ name, ¬ wanted name).
    { intros name (_ & Hdom & Hc & Hcat & _).
      assert (Hin : name ∈ selectServiceNames categories (Doms reply.1.1))
        by (by apply selectServiceNames_spec).
      rewrite Hempty in Hin. by apply elem_of_nil in Hin. }
    split; [|split; [|split; [|split]]].
    - intros name. split; [by intros ?%elem_of_nil|]. by intros ?%Hno.
    - by intros name ?%elem_of_nil.
    - done.
    - intros Good _ _ name Hw. by destruct (Hno name).
    - intros. constructor. }
  destruct (subscribeEach_loop (registryGroup w) n
              (selectServiceNames categories (Doms reply.1.1)) listed
              (selectServiceNames_named _ _) eq_refl)
    as (w' & new & Hloop & Htrace & _ & _ & _ & _ & Htried & Hall & Hcomplete & Honce).
  exists w', (CallGetAllServicesInfo (listingParam w) :: new).
  split; [exact Hloop|]. split. { rewrite Htrace. subst listed. cbn. by rewrite <- app_assoc. }
  cbn [subscribedNames attemptedNames].
  assert (Hsound : ∀ name, name ∈ attemptedNames new → wanted name).
  { intros name Hin. destruct (Htried name Hin) as [Hsel Hnone].
    apply selectServiceNames_spec in Hsel as (Hdom & Hc & Hcat). by repeat split. }
  split; [|split; [|split; [|split]]].
  - intros name. split; [apply Hsound|]. intros (_ & Hdom & Hc & Hcat & Hnone).
    apply Hall; [by apply selectServiceNames_spec|exact Hnone].
  - intros name Hin. by apply Hsound, subscribed_attempted.
  - intros _ _. by apply subscribeEach_turns.
  - intros Good HG (Hd & Hcl & Hg & Hdue) name (_ & Hdom & Hc & Hcat & Hnone).
    eapply (Hcomplete Good HG).
    + subst listed. split; [done|]. split; [done|]. split; [cbn; by apply HG|exact Hdue].
    + by apply selectServiceNames_spec.
    + exact Hnone.
  - intros Good HG Hacc Hg. apply (Honce Good HG Hacc). subst listed. cbn. by apply HG.
Qed.

(** ** The event pump *)

Lemma notifiedEvents_app (t1 t2 : list Effect) :
  notifiedEvents (t1 ++ t2) = notifiedEvents t1 ++ notifiedEvents t2.
Proof. induction t1 as [|e t1 IH]; [done|]. destruct e; cbn; rewrite ?IH; done. Qed.

Lemma producedEvents_app (t1 t2 : list Effect) :
  producedEvents (t1 ++ t2) = producedEvents t1 ++ producedEvents t2.
Proof.
  induction t1 as [|e t1 IH]; [done|].
  destruct e as [| | | | | |l ev [err|]| | | | | |]; cbn; rewrite ?IH; done.
Qed.

Lemma pumpRounds_notified (l : nacosListener) (n : NotifyListener)
  (rounds : list (list Effect * ServiceEvent)) :
  Forall (fun r => quiet r.1) rounds →
  notifiedEvents (flat_map (pumpRound l n) rounds) = map (fun r => (n, r.2)) rounds.
Proof.
  induction 1 as [|[probe ev] rounds Hq _ IH]; [done|].
  cbn [flat_map map]. rewrite notifiedEvents_app, IH. unfold pumpRound.
  rewrite notifiedEvents_app. cbn in Hq |- *. by destruct Hq as [->|[p ->]].
Qed.

Lemma pumpRounds_produced (l : nacosListener) (n : NotifyListener)
  (rounds : list (list Effect * ServiceEvent)) :
  Forall (fun r => quiet r.1) rounds →
  producedEvents (flat_map (pumpRound l n) rounds) = map (fun r => (l, r.2)) rounds.
Proof.
  induction 1 as [|[probe ev] rounds Hq _ IH]; [done|].
  cbn [flat_map map]. rewrite producedEvents_app, IH. unfold pumpRound.
  rewrite producedEvents_app. cbn in Hq |- *. by destruct Hq as [->|[p ->]].
Qed.

(** How the loop of the pump can end: at an availability check that fails,
    or at a Next that returns an error. *)
Definition loopEnding (l : nacosListener) (ending : list Effect) : Prop :=
  ∃ probe, quiet probe ∧
    (ending = probe ∨
     ∃ ev e, ending = probe ++ [ListenerNext l ev (Some e);
                                Log LWarn "Selector.watch() = error{%v}" [ArgError (Some e)]]).

(** A turn of the pump that forwards [ev], from [w] to [w']: IsAvailable
    answers true, Next hands out [ev] and no error, and the event is logged
    and given to the sink. *)
Definition forwardingTurn (l : nacosListener) (n : NotifyListener) (ev : ServiceEvent)
  (w w' : World E) : Prop :=
  ∃ w1, IsAvailable w = Ok true w1 ∧ (Next l (env w1)).1 = (ev, None) ∧
    w' = mkWorld (nr w1) (listenerCache w1) (heap w1) (Next l (env w1)).2
           (trace w1 ++ [ListenerNext l ev None;
                         Log LInfo "[Nacos Registry] Update begin, service event: %v"
                           [ArgEvent ev];
                         Notify n ev]).

(** The turns that forward [events], one after the other. *)
Fixpoint forwarding (l : nacosListener) (n : NotifyListener) (events : list ServiceEvent)
  (w w' : World E) : Prop :=
  match events with
  | [] => w' = w
  | ev :: rest => ∃ w1, forwardingTurn l n ev w w1 ∧ forwarding l n rest w1 w'
  end.

(** The turn at which the pump leaves its loop, from [w] to [w']:
    IsAvailable answers false, or it answers true and Next returns an
    error, which is logged. *)
Definition lastTurn (l : nacosListener) (w w' : World E) : Prop :=
  IsAvailable w = Ok false w' ∨
  ∃ w1 ev e, IsAvailable w = Ok true w1 ∧ (Next l (env w1)).1 = (ev, Some e) ∧
    w' = mkWorld (nr w1) (listenerCache w1) (heap w1) (Next l (env w1)).2
           (trace w1 ++ [ListenerNext l ev (Some e);
                         Log LWarn "Selector.watch() = error{%v}" [ArgError (Some e)]]).

Lemma handleServiceEvents_loop_turns (fuel : nat) (l : nacosListener) (n : NotifyListener)
  (w : World E) :
  ∃ rounds ending w' wk,
    trace w' = trace w ++ flat_map (pumpRound l n) rounds ++ ending ∧
    Forall (fun r => quiet r.1) rounds ∧
    (done (nr w) = true → rounds = []) ∧
    forwarding l n (map snd rounds) w wk ∧
    ((handleServiceEvents_loop fuel l n w = Ok tt w' ∧ loopEnding l ending ∧
      lastTurn l wk w' ∧ (length rounds < fuel)%nat) ∨
     (handleServiceEvents_loop fuel l n w = Unfinished w' ∧ ending = [] ∧
      length rounds = fuel ∧ w' = wk)).
Proof.
  revert w. induction fuel as [|fuel IH]; intros w.
  { exists [], [], w, w. cbn. rewrite app_nil_r. repeat split; auto. }
  destruct (IsAvailable_returns w)
    as (b & w1 & Hav & _ & _ & _ & _ & _ & _ & _ & Htrace1 & Hclosed).
  assert (Hprobe : ∃ probe, quiet probe ∧ trace w1 = trace w ++ probe).
  { destruct Htrace1 as [->| ->].
    - exists []. split; [by left|]. by rewrite app_nil_r.
    - eexists [_]. split; [right; eauto|done]. }
  destruct Hprobe as (probe & Hquiet & Ht1).
  cbn [handleServiceEvents_loop]. rewrite (bind_Ok _ _ _ _ _ Hav).
  destruct b; cbn [negb].
  - unfold listener_Next. run.
    destruct (Next l (env w1)) as [[ev err] e2] eqn:Hnext. cbn.
    destruct err as [e|]; run.
    + exists [], (probe ++ [ListenerNext l ev (Some e);
                            Log LWarn "Selector.watch() = error{%v}" [ArgError (Some e)]]).
      eexists (mkWorld _ _ _ _ _), w. cbn.
      split; [|split; [constructor|split; [done|split; [done|left; split; [reflexivity|]]]]].
      * cbn. by rewrite Ht1, <- !app_assoc.
      * split; [exists probe; split; [done|]; right; eauto|].
        split; [|lia]. right. exists w1, ev, e. rewrite Hnext. cbn.
        split; [done|]. split; [done|]. by rewrite <- app_assoc.
    + set (w3 := mkWorld _ _ _ _ _).
      destruct (IH w3) as (rounds & ending & w' & wk & Ht & Hq & _ & Hfw & Hout).
      exists ((probe, ev) :: rounds), ending, w', wk.
      split. { rewrite Ht. subst w3. cbn [trace flat_map]. unfold pumpRound at 2. cbn [fst snd].
               rewrite Ht1, <- !app_assoc. reflexivity. }
      split; [by constructor|].
      split. { intros Hd. specialize (Hclosed Hd). congruence. }
      split. { cbn [map forwarding snd]. exists w3. split; [|done].
               exists w1. rewrite Hnext. cbn. split; [done|]. split; [done|].
               subst w3. by rewrite <- !app_assoc. }
      destruct Hout as [(Hrun & Hend & Hlast & Hlt)|(Hrun & Hend & Hlen & Hwk)]; [left|right].
      * split; [exact Hrun|]. split; [done|]. split; [done|]. cbn. lia.
      * split; [exact Hrun|]. split; [done|]. split; [cbn; by rewrite Hlen|done].
  - run. exists [], probe, w1, w. cbn. split; [done|]. split; [constructor|].
    split; [done|]. split; [done|]. left. split; [done|].
    split; [exists probe; split; [done|]; by left|]. split; [by left|lia].
Qed.

(** C7: the event pump hands to the sink exactly the events its handle
    produced, each right after it was taken, in the order they came. Every
    turn that forwards is one where IsAvailable answered true and Next
    returned that event and no error; the pump leaves its loop at the first
    turn where IsAvailable answers false or Next returns an error, and only
    there; it then closes the handle and hands over nothing more. While
    neither has happened it is still forwarding, one event a turn. *)
Theorem handleServiceEvents_forwards (fuel : nat) (l : nacosListener) (n : NotifyListener)
  (w : World E) :
  ∃ rounds ending w' wk,
    trace w' = trace w ++ flat_map (pumpRound l n) rounds ++ ending ∧
    Forall (fun r => quiet r.1) rounds ∧
    notifiedEvents (flat_map (pumpRound l n) rounds ++ ending)
      = map (fun r => (n, r.2)) rounds ∧
    producedEvents (flat_map (pumpRound l n) rounds ++ ending)
      = map (fun r => (l, r.2)) rounds ∧
    (done (nr w) = true → rounds = []) ∧
    forwarding l n (map snd rounds) w wk ∧
    ((handleServiceEvents fuel l n w = Ok tt w' ∧ (length rounds < fuel)%nat ∧
      (∃ wl, lastTurn l wk wl ∧
         w' = mkWorld (nr wl) (listenerCache wl) (heap wl) (CloseOf l (env wl))
                (trace wl ++ [ListenerClose l])) ∧
      ∃ probe, quiet probe ∧
        (ending = probe ++ [ListenerClose l] ∨
         ∃ ev e, ending = probe ++ [ListenerNext l ev (Some e);
                                    Log LWarn "Selector.watch() = error{%v}" [ArgError (Some e)];
                                    ListenerClose l])) ∨
     (handleServiceEvents fuel l n w = Unfinished w' ∧ ending = [] ∧
      length rounds = fuel ∧ w' = wk)).
Proof.
  destruct (handleServiceEvents_loop_turns fuel l n w)
    as (rounds & ending & w1 & wk & Ht & Hq & Hclosed & Hfw & Hout).
  unfold handleServiceEvents, defer.
  destruct Hout as [(Hrun & (probe & Hquiet & Hend) & Hlast & Hlt)|(Hrun & -> & Hlen & Hwk)];
    rewrite Hrun.
  - unfold listener_Close. run.
    exists rounds, (ending ++ [ListenerClose l]).
    eexists (mkWorld (nr w1) (listenerCache w1) (heap w1) (CloseOf l (env w1))
               (trace w1 ++ [ListenerClose l])), wk.
    split. { cbn. by rewrite Ht, <- !app_assoc. }
    split; [done|].
    rewrite notifiedEvents_app, producedEvents_app.
    rewrite (pumpRounds_notified l n rounds Hq), (pumpRounds_produced l n rounds Hq).
    rewrite notifiedEvents_app, producedEvents_app.
    assert (Hsilent : notifiedEvents ending = [] ∧ producedEvents ending = []).
    { destruct Hend as [->|(ev & e & ->)]; destruct Hquiet as [->|[p ->]]; done. }
    destruct Hsilent as [-> ->]. cbn. rewrite !app_nil_r.
    split; [done|]. split; [done|]. split; [done|]. split; [done|].
    left. split; [reflexivity|]. split; [done|]. split; [by exists w1|].
    exists probe. split; [done|].
    destruct Hend as [->|(ev & e & ->)]; [by left|right].
    exists ev, e. by rewrite <- app_assoc.
  - exists rounds, [], w1, wk. rewrite !app_nil_r in *.
    split; [done|]. split; [done|].
    split; [by apply pumpRounds_notified|]. split; [by apply pumpRounds_produced|].
    split; [done|]. split; [done|]. right. done.
Qed.

(** ** Subscribe *)

Lemma subscribeAll_returns (url : URLRef) (n : NotifyListener) (w : World E) :
  clientOf (namingClient (nr w)) ≠ None → ∃ w', subscribeAll url n w = Ok tt w'.
Proof.
  intros Hclient. unfold subscribeAll. run.
  rewrite (getAllSubscribeServiceNames_run url w Hclient). cbn zeta.
  destruct (_.1.2) as [e|]; run; [eauto|].
  case_decide; run; [eauto|].
  match goal with |- context [forEach ?names (subscribeEach ?g n) ?w0] =>
    destruct (subscribeEach_loop g n names w0 (selectServiceNames_named _ _) eq_refl)
      as (w' & new & Hloop & _)
  end.
  eauto.
Qed.

(** The retry loop returns, with nil, or is still retrying; it never
    panics. *)
Lemma subscribeUntilSuccess_outcome (fuel : nat) (url : URLRef) (n : NotifyListener)
  (w : World E) :
  ∃ w', subscribeUntilSuccess fuel url n w = Ok tt w' ∨
        subscribeUntilSuccess fuel url n w = Unfinished w'.
Proof.
  revert w. induction fuel as [|fuel IH]; intros w; [by exists w; right|].
  cbn [subscribeUntilSuccess].
  destruct (IsAvailable_frame w) as (b & w1 & new & Hav & _).
  rewrite (bind_Ok _ _ _ _ _ Hav). destruct b; cbn [negb]; [|by exists w1; left].
  run. destruct (subscribe_returns (getSubscribeName (heap w1 url)) n w1)
    as (err & w2 & Hsub & _).
  rewrite Hsub. destruct err; [apply IH|by exists w2; left].
Qed.

(** Under the invariant, the backend refuses every listen call. *)
Definition Refusing (Good : E → Prop) : Prop :=
  ∀ p e, Good e → (SdkSubscribe p e).1 ≠ None.

Lemma subscribe_refused (Good : E → Prop) (name : string) (n : NotifyListener)
  (w : World E) :
  name ≠ "" → Dependable Good → Refusing Good → steady Good w →
  ∃ e w', subscribe name n w = Ok (Some e) w' ∧ steady Good w' ∧ heap w' = heap w.
Proof.
  intros Hname HG Hrefuse Hst.
  destruct (IsAvailable_frame w) as (b & w1 & new & Hav & _ & _ & _ & Hsame1 & _).
  destruct (IsAvailable_steady Good w w1 b HG Hst Hav) as (-> & Hd1 & Hl1 & Hc1 & Hg1).
  destruct (subscribe_available name n w w1 Hname Hav)
    as (err & w2 & w' & Hlisten & Hrun & _ & Hh' & He' & Hmatch).
  rewrite listenService_run in Hlisten.
  unfold NewNacosListenerWithServiceName in Hlisten. cbn [l_namingClient] in Hlisten.
  destruct (clientOf (namingClient (nr w1))) eqn:Hc; [|done].
  cbn zeta in Hlisten. injection Hlisten as Herr Hw2.
  destruct err as [e|]; [|exfalso; eapply Hrefuse; [exact Hg1|exact Herr]].
  destruct Hmatch as [Hnr _]. exists e, w'. split; [done|].
  split.
  - unfold steady. rewrite Hnr, He', <- Hw2. cbn.
    split; [done|]. split; [done|]. split; [by rewrite Hc|]. by apply HG.
  - rewrite Hh', <- Hw2. cbn. apply Hsame1.
Qed.

(** While the registry stays available and the backend refuses the listen
    call, the retry loop does not return. *)
Lemma subscribeUntilSuccess_stuck (Good : E → Prop) (url : URLRef) (n : NotifyListener) :
  Dependable Good → Refusing Good →
  ∀ fuel w, steady Good w → getSubscribeName (heap w url) ≠ "" →
    ∃ w', subscribeUntilSuccess fuel url n w = Unfinished w'.
Proof.
  intros HG Hrefuse. induction fuel as [|fuel IH]; intros w Hst Hname; [by exists w|].
  cbn [subscribeUntilSuccess].
  destruct (IsAvailable_frame w) as (b & w1 & new & Hav & _ & _ & _ & Hsame1 & _).
  destruct (IsAvailable_steady Good w w1 b HG Hst Hav) as (-> & Hst1).
  rewrite (bind_Ok _ _ _ _ _ Hav). cbn [negb]. run.
  assert (Hheap1 : heap w1 = heap w) by apply Hsame1.
  destruct (subscribe_refused Good (getSubscribeName (heap w1 url)) n w1)
    as (e & w2 & Hsub & Hst2 & Hheap2); [by rewrite Hheap1|done..|].
  rewrite Hsub. apply IH; [done|]. by rewrite Hheap2, Hheap1.
Qed.

(** C10 (amended): Subscribe never returns an error. With a role other than
    consumer it returns nil at once; with the wildcard interest and a client
    at hand it returns nil after one subscribeAll pass, whatever the backend
    answered; with a specific service it returns nil as soon as the registry
    is found unavailable or a subscribe attempt succeeds, and is otherwise
    still retrying. *)
Theorem Subscribe_never_errors (fuel : nat) (url : URLRef) (n : NotifyListener)
  (w : World E) :
  let role := Atoi (GetParam (heap w url) RegistryRoleKey "") in
  let serviceName := GetParam (heap w url) InterfaceKey "" in
  (∀ e w', Subscribe fuel url n w ≠ Ok (Some e) w') ∧
  (role ≠ CONSUMER → Subscribe fuel url n w = Ok None w) ∧
  (role = CONSUMER → serviceName = AnyValue → clientOf (namingClient (nr w)) ≠ None →
   ∃ w', Subscribe fuel url n w = Ok None w') ∧
  (role = CONSUMER → serviceName ≠ AnyValue →
   ∃ w', Subscribe fuel url n w = Ok None w' ∨ Subscribe fuel url n w = Unfinished w') ∧
  (role = CONSUMER → serviceName ≠ AnyValue → ∀ w1, IsAvailable w = Ok false w1 →
   Subscribe (S fuel) url n w = Ok None w1) ∧
  (role = CONSUMER → serviceName ≠ AnyValue → ∀ w1 w2, IsAvailable w = Ok true w1 →
   subscribe (getSubscribeName (heap w1 url)) n w1 = Ok None w2 →
   Subscribe (S fuel) url n w = Ok None w2).
Proof.
  cbn zeta. unfold Subscribe. run.
  destruct (decide (Atoi (GetParam (heap w url) RegistryRoleKey "") ≠ CONSUMER))
    as [Hrole|Hrole].
  { repeat split; try done. }
  destruct (decide (GetParam (heap w url) InterfaceKey "" = AnyValue)) as [Hany|Hany].
  - split; [|repeat split; try done].
    + intros e w'. destruct (subscribeAll url n w) as [[] w1| | |]; run; done.
    + intros _ _ Hclient. destruct (subscribeAll_returns url n w Hclient) as (w1 & ->).
      run. eauto.
  - split; [|split; [done|split; [done|split; [|split]]]].
    + intros e w'. destruct (subscribeUntilSuccess fuel url n w) as [[] w1| | |]; run; done.
    + intros _ _. destruct (subscribeUntilSuccess_outcome fuel url n w) as (w' & [-> | ->]);
        run; eauto.
    + intros _ _ w1 Hav. by rewrite Hav.
    + intros _ _ w1 w2 Hav Hsub. rewrite Hav. cbn. by rewrite Hsub.
Qed.

(** A consumer of a specific service, on a registry that stays available
    while the backend refuses the listen call: Subscribe does not return. *)
Lemma Subscribe_stuck (Good : E → Prop) (url : URLRef) (n : NotifyListener) (w : World E) :
  Dependable Good → Refusing Good → steady Good w →
  Atoi (GetParam (heap w url) RegistryRoleKey "") = CONSUMER →
  GetParam (heap w url) InterfaceKey "" ≠ AnyValue →
  getSubscribeName (heap w url) ≠ "" →
  ∀ fuel, ∃ w', Subscribe fuel url n w = Unfinished w'.
Proof.
  intros HG Hrefuse Hst Hrole Hany Hname fuel. unfold Subscribe. run.
  rewrite decide_False by (by intros []).
  rewrite decide_False by done.
  destruct (subscribeUntilSuccess_stuck Good url n HG Hrefuse fuel w Hst Hname) as (w' & ->).
  eauto.
Qed.

End Properties.

Definition weighted (weight : string) : URL :=
  Sample.urlWith [("interface", "com.foo.Bar"); ("weight", weight)].

Definition storedWeight (weight : string) : option float :=
  match createRegisterParam (D := Sample.deps) 1%nat "name" "group"
          (Sample.world (Sample.accepting []) [weighted weight]) with
  | Ok p _ => Some (ri_Weight p)
  | _ => None
  end.

(** The four weights of the testable property: "abc" and "0" store 1.0,
    "20000" stores 10000, "5.5" stores 5.5. *)
Lemma createRegisterParam_weight_witness :
  storedWeight "abc" = Some 1%float ∧ storedWeight "0" = Some 1%float ∧
  storedWeight "20000" = Some 10000%float ∧ storedWeight "5.5" = Some 5.5%float.
Proof.
  assert (Hw : ∀ s, ∃ p w',
    createRegisterParam (D := Sample.deps) 1%nat "name" "group"
      (Sample.world (Sample.accepting []) [weighted s]) = Ok p w' ∧
    ri_Weight p = specWeight (D := Sample.deps)
      (@ParseFloat Sample.deps (GetParam (weighted s) "weight" "1.0"))).
  { intros s.
    destruct (createRegisterParam_weight (D := Sample.deps) 1%nat "name" "group"
                (Sample.world (Sample.accepting []) [weighted s]) "providers" eq_refl)
      as (p & w' & Hrun & Hspec & _).
    exists p, w'. split; [exact Hrun | exact Hspec]. }
  unfold storedWeight.
  split; [|split; [|split]].
  - destruct (Hw "abc") as (p & w' & -> & ->). reflexivity.
  - destruct (Hw "0") as (p & w' & -> & ->). reflexivity.
  - destruct (Hw "20000") as (p & w' & -> & ->). reflexivity.
  - destruct (Hw "5.5") as (p & w' & -> & ->). reflexivity.
Defined.

(** ** Scenarios on the sample instance *)
Module Scenarios.
Import Sample.

Definition fresh : World Backend := world (accepting []) [barService].

Definition isProbe (e : Effect) : bool :=
  match e with CallGetAllServicesInfo p => bool_decide (ga_PageSize p = 1) | _ => false end.

(** A first call on a fresh registry probes once and reports true; the
    call after it is answered from the cache. *)
Lemma IsAvailable_window_witness :
  ∃ w' w3, IsAvailable fresh = Ok true w' ∧
    countEffects isProbe (trace w') = 1%nat ∧
    IsAvailable w' = Ok true w3 ∧ trace w3 = trace w'.
Proof.
  destruct (IsAvailable_window fresh) as (_ & _ & _ & Hprobe).
  destruct Hprobe as (w' & Hrun & Htrace & _ & _ & Hsecond);
    [reflexivity | vm_compute; congruence | discriminate |].
  pose proof Hrun as Hw'. vm_compute in Hw'. injection Hw' as Hw'. subst w'.
  destruct (Hsecond _ eq_refl) as (w3 & Hrun2 & Htrace2); [vm_compute; reflexivity|].
  eexists _, w3. split; [exact Hrun|]. split; [reflexivity|]. split; [exact Hrun2|].
  exact Htrace2.
Defined.

Definition rejecting : Backend :=
  mkBackend 1000 1 (false, None) (true, None) (mkServiceList 0 [], None) None [] 0.

Definition failing : Backend :=
  mkBackend 1000 1 (false, Some (errorString "connection refused")) (true, None)
    (mkServiceList 0 [], None) None [] 0.

(** Register against a backend that accepts, one that reports the instance
    not registered, and one whose call fails. *)
Lemma Register_ledger_witness :
  (∃ w', Register 1%nat fresh = Ok None w' ∧
         registryUrls (nr w') = [1%nat]) ∧
  (∃ w', Register 1%nat (world rejecting [barService])
         = Ok (Some (errorString "registry [providers:com.foo.Bar:1.0:g1] to  nacos failed")) w' ∧
         registryUrls (nr w') = []) ∧
  (∃ w', Register 1%nat (world failing [barService])
         = Ok (Some (errorString "connection refused")) w' ∧
         registryUrls (nr w') = []).
Proof.
  split; [|split].
  - destruct (Register_ledger 1%nat fresh
                "providers:com.foo.Bar:1.0:g1")
      as (param & w1 & w2 & w' & _ & He1 & He2 & _ & Hrun);
      [vm_compute; reflexivity | discriminate |].
    rewrite He2, He1 in Hrun. cbn in Hrun. by exists w'.
  - destruct (Register_ledger 1%nat (world rejecting [barService])
                "providers:com.foo.Bar:1.0:g1")
      as (param & w1 & w2 & w' & _ & He1 & He2 & _ & Hrun);
      [vm_compute; reflexivity | discriminate |].
    rewrite He2, He1 in Hrun. cbn in Hrun. by exists w'.
  - destruct (Register_ledger 1%nat (world failing [barService])
                "providers:com.foo.Bar:1.0:g1")
      as (param & w1 & w2 & w' & _ & He1 & He2 & _ & Hrun);
      [vm_compute; reflexivity | discriminate |].
    rewrite He2, He1 in Hrun. cbn in Hrun. by exists w'.
Defined.

(** The world after Register(E) has succeeded on a fresh registry. *)
Definition registered : World Backend :=
  match Register 1%nat fresh with
  | Ok _ w => w
  | _ => fresh
  end.

(** End to end: Register(E) succeeds, E is in the ledger; Destroy then sends
    one deregistration, for E, and leaves the ledger empty. *)
Lemma Destroy_deregisters_ledger_witness :
  Register 1%nat fresh = Ok None registered ∧
  registryUrls (nr registered) = [1%nat] ∧
  ∃ w', Destroy registered = Ok tt w' ∧
    registryUrls (nr w') = [] ∧
    map di_ServiceName (deregistered (trace w')) = ["providers:com.foo.Bar:1.0:g1"].
Proof.
  split; [reflexivity|]. split; [reflexivity|].
  destruct (Destroy_deregisters_ledger registered)
    as (w' & blocks & Hrun & Hledger & _ & Hcalls & _ & Hnames).
  - reflexivity.
  - repeat constructor. discriminate.
  - discriminate.
  - exists w'. split; [exact Hrun|]. split; [exact Hledger|].
    rewrite Hcalls, map_app, Hnames. reflexivity.
Defined.

(** Destroy twice on a fresh registry: one close of the channel, one close
    of the client, and a second call that changes nothing. *)
Lemma Destroy_idempotent_in_sequence_witness :
  ∃ w1, Destroy fresh = Ok tt w1 ∧
    countEffects isCloseDone (trace w1) = 1%nat ∧
    countEffects isCloseClient (trace w1) = 1%nat ∧
    Destroy w1 = Ok tt w1.
Proof.
  destruct (Destroy_idempotent_in_sequence fresh)
    as (w1 & new & Hrun & Htrace & Hdone & Hclient & Hagain);
    [reflexivity | constructor | discriminate |].
  exists w1. split; [exact Hrun|]. rewrite Htrace. cbn [trace fresh world app].
  split; [exact Hdone|]. split; [exact Hclient|]. exact (Hagain 1%nat).
Defined.

(** Two callers, each about to run Destroy on the fresh registry. Taking
    turns statement by statement, both pass the select before either closes
    the channel, and the second close panics; with the first caller paused
    before closing the client, both callers close it. *)
Definition turns : list bool := [true; false; true; false; true; false].

Definition pausedBeforeClose : list bool :=
  [true; true; true; true; true; true; true; true;
   false; false; false; false; false; false; false; false; true; false; true; false].

(** C1: with two concurrent callers of Destroy the guard on the done channel
    does not hold: the channel is closed twice, which panics, or the backend
    client is closed twice. *)
Lemma Destroy_concurrent_double_close :
  (∃ w', Destroy_interleaved turns PcCloseListener PcCloseListener fresh
         = Panic "close of closed channel" w') ∧
  (∃ w', Destroy_interleaved pausedBeforeClose
           PcCloseListener PcCloseListener fresh = Ok (PcReturn, PcReturn) w' ∧
         countEffects isCloseClient (trace w') = 2%nat).
Proof.
  split.
  - eexists. vm_compute. reflexivity.
  - eexists. split; [vm_compute; reflexivity|]. vm_compute. reflexivity.
Qed.

Definition consumer : NotifyListener := mkNotifyListener 7.

(** The registry of [fresh] after Destroy. *)
Definition shutDown : World Backend :=
  mkWorld (mkRegistry 0%nat None [] true (mkAvailabilityCache false GoTime.zeroTime) 0)
    ∅ (fun _ => urlWith []) (accepting []) [].

(** subscribe with no name; on a registry shut down; and with a name on a
    fresh registry, where the pump is started. *)
Lemma subscribe_cases_witness :
  (∃ w', subscribe "" consumer fresh = Ok None w' ∧
         subscribedNames (trace w') = [] ∧ spawnedPumps (trace w') = []) ∧
  (∃ w', subscribe "providers:com.foo.Bar:1.0:g1" consumer shutDown
         = Ok (Some (errorString "nacosRegistry is not available.")) w' ∧
         subscribedNames (trace w') = [] ∧ spawnedPumps (trace w') = []) ∧
  (∃ w', subscribe "providers:com.foo.Bar:1.0:g1" consumer fresh = Ok None w' ∧
         subscribedNames (trace w') = ["providers:com.foo.Bar:1.0:g1"] ∧
         length (spawnedPumps (trace w')) = 1%nat ∧ wg (nr w') = 1%nat).
Proof.
  split; [|split].
  - eexists. split; [by apply (subscribe_cases "" consumer fresh)|]. done.
  - eexists. split.
    + apply (subscribe_cases "providers:com.foo.Bar:1.0:g1" consumer shutDown);
        [discriminate|reflexivity].
    + done.
  - destruct (IsAvailable_frame fresh) as (b & w1 & new & Hav & _).
    pose proof Hav as Hcalc. vm_compute in Hcalc. injection Hcalc as <- <-.
    destruct (proj2 (proj2 (subscribe_cases "providers:com.foo.Bar:1.0:g1" consumer fresh))
                ltac:(discriminate) _ Hav)
      as (err & w2 & w' & Hlisten & Hrun & _ & _ & _ & Hmatch).
    vm_compute in Hlisten. injection Hlisten as <- <-.
    destruct Hmatch as [Hnr Htrace]. exists w'. split; [exact Hrun|].
    rewrite Htrace, Hnr. done.
Defined.

Definition providersBar : string := "providers:com.foo.Bar:1.0:g1".
Definition consumersBar : string := "consumers:com.foo.Bar:1.0:g1".

(** A wildcard interest in the providers category. *)
Definition anyProvider : URL :=
  urlWith [("interface", "*"); ("registry.role", "0"); ("category", "providers")].

(** An available registry, its backend listing both names. *)
Definition watching : World Backend :=
  mkWorld (mkRegistry 0%nat (Some (mkNamingClient (Some SdkClient))) [] false
             (mkAvailabilityCache true 1000) 0)
    ∅ (fun p => nth p [urlWith []; anyProvider] noURL)
    (accepting [providersBar; consumersBar]) [].

(** The invariant of a backend that answers and accepts. *)
Definition answering (e : Backend) : Prop :=
  (listing e).2 = None ∧ subscribeReply e = None.

(** A newly built registry, never checked (last seen unavailable, at the
    zero time), its backend listing both names. *)
Definition wildcard : World Backend :=
  world (accepting [providersBar; consumersBar]) [anyProvider].

(** The invariant of a backend that answers and accepts, on a clock that
    runs forward from the epoch. *)
Definition punctual (e : Backend) : Prop :=
  answering e ∧ 0 ≤ clock e ∧ 0 ≤ tick e.

Lemma punctual_Dependable : Dependable punctual.
Proof. split; unfold punctual, answering; intros; cbn in *; intuition lia. Qed.

Lemma punctual_due (e : Backend) :
  punctual e → checkInterval ≤ GoTime.Sub (Now e).1 GoTime.zeroTime.
Proof.
  intros (_ & Hclock & _). cbn [Now backend fst].
  unfold GoTime.Sub, GoTime.zeroTime, checkInterval, GoTime.Second.
  replace GoTime.maxDuration with 9223372036854775807 by reflexivity.
  replace GoTime.minDuration with (-9223372036854775808) by reflexivity.
  repeat case_match; lia.
Qed.

(** The wildcard scenario on the newly built registry: of the two listed
    names, one listen call is made, for the providers entry, and one pump is
    started. *)
Lemma subscribeAll_exact_witness :
  lastAvailable (availability (nr wildcard)) = false ∧
  ∃ w', subscribeAll 1%nat consumer wildcard = Ok tt w' ∧
    subscribedNames (trace w') = [providersBar] ∧
    length (spawnedPumps (trace w')) = 1%nat.
Proof.
  split; [reflexivity|].
  destruct (subscribeAll_exact 1%nat consumer wildcard)
    as (w' & new & Hrun & Htrace & _ & Hsound & _ & Hcomplete & Honce); [discriminate|].
  exists w'. split; [exact Hrun|]. split.
  - rewrite Htrace. cbn [trace wildcard world app].
    assert (Hin : providersBar ∈ subscribedNames new).
    { apply (Hcomplete punctual punctual_Dependable).
      - split; [reflexivity|]. split; [discriminate|].
        split; [by repeat split|]. right. apply punctual_due.
      - repeat split; try reflexivity; vm_compute; repeat constructor. }
    assert (Honly : ∀ name, name ∈ subscribedNames new → name = providersBar).
    { intros name (_ & Hdom & _ & Hcat & _)%Hsound.
      apply elem_of_cons in Hdom as [->|Hdom]; [done|].
      apply list_elem_of_singleton in Hdom as ->.
      vm_compute in Hcat. by apply list_elem_of_singleton in Hcat. }
    pose proof (Honce punctual punctual_Dependable
                  ltac:(by intros p e [[_ He] _]) ltac:(by repeat split)) as Hnodup.
    destruct (subscribedNames new) as [|x [|y rest]].
    + by apply elem_of_nil in Hin.
    + by rewrite (Honly x) by (by left).
    + apply NoDup_cons in Hnodup as [Hx _]. exfalso. apply Hx.
      rewrite (Honly x), (Honly y); [by left|by right; left|by left].
  - pose proof Hrun as Hcalc. vm_compute in Hcalc. injection Hcalc as <-. reflexivity.
Defined.

Definition added (name : string) : ServiceEvent := mkServiceEvent EventTypeAdd (urlWith [("interface", name)]).

(** A handle that yields two events and then an error. *)
Definition streaming : World Backend :=
  mkWorld (mkRegistry 0%nat (Some (mkNamingClient (Some SdkClient))) [] false
             (mkAvailabilityCache true 1000) 1)
    ∅ (fun _ => urlWith [])
    (mkBackend 1000 1 (true, None) (true, None) (mkServiceList 0 [], None) None
       [(added "a", None); (added "b", None);
        (added "c", Some (errorString "connection reset"))] 0)
    [].

Definition barListener : nacosListener :=
  mkListener providersBar 0%nat (Some (mkNamingClient (Some SdkClient))).

(** The pump forwards the two events in order, stops at the error, and
    closes the handle. *)
Lemma handleServiceEvents_forwards_witness :
  ∃ w', handleServiceEvents 5 barListener consumer streaming = Ok tt w' ∧
    notifiedEvents (trace w') = [(consumer, added "a"); (consumer, added "b")] ∧
    map snd (notifiedEvents (trace w')) = map snd (producedEvents (trace w')) ∧
    last (trace w') = Some (ListenerClose barListener).
Proof.
  destruct (handleServiceEvents_forwards 5 barListener consumer streaming)
    as (rounds & ending & w' & wk & Ht & Hq & Hn & Hp & _ & _ & Hout).
  cbn [trace streaming app] in Ht.
  assert (Hsame : map snd (notifiedEvents (trace w')) = map snd (producedEvents (trace w'))).
  { rewrite Ht, Hn, Hp, !map_map. done. }
  destruct Hout as [(Hrun & _)|(Hrun & _)]; vm_compute in Hrun; [|discriminate].
  injection Hrun as <-. eexists. split; [vm_compute; reflexivity|].
  split; [reflexivity|]. split; [exact Hsame|reflexivity].
Defined.

(** A provider, a wildcard consumer and a consumer of one service. *)
Definition providerSide : URL := urlWith [("interface", "com.foo.Bar"); ("registry.role", "3")].
Definition wantsBar : URL :=
  urlWith [("interface", "com.foo.Bar"); ("version", "1.0"); ("group", "g1");
           ("registry.role", "0")].

Definition interests : World Backend :=
  mkWorld (mkRegistry 0%nat (Some (mkNamingClient (Some SdkClient))) [] false
             (mkAvailabilityCache true 1000) 0)
    ∅ (fun p => nth p [urlWith []; anyProvider; wantsBar; providerSide] noURL)
    (accepting [providersBar; consumersBar]) [].

Lemma Subscribe_never_errors_witness :
  Subscribe 0 3%nat consumer interests = Ok None interests ∧
  (∃ w', Subscribe 0 1%nat consumer interests = Ok None w' ∧
         length (spawnedPumps (trace w')) = 1%nat) ∧
  (∃ w', Subscribe 1 2%nat consumer interests = Ok None w' ∧
         subscribedNames (trace w') = [providersBar]).
Proof.
  split; [|split].
  - apply (Subscribe_never_errors 0 3%nat consumer interests). vm_compute. discriminate.
  - destruct (proj1 (proj2 (proj2 (Subscribe_never_errors 0 1%nat consumer interests))))
      as (w' & Hrun); [reflexivity|reflexivity|discriminate|].
    exists w'. split; [exact Hrun|].
    vm_compute in Hrun. injection Hrun as <-. reflexivity.
  - destruct (proj1 (proj2 (proj2 (proj2 (Subscribe_never_errors 1 2%nat consumer interests)))))
      as (w' & [Hrun|Hrun]); [reflexivity|vm_compute; discriminate| |].
    + exists w'. split; [exact Hrun|].
      vm_compute in Hrun. injection Hrun as <-. reflexivity.
    + vm_compute in Hrun. discriminate.
Defined.

(** An available registry whose backend refuses every listen call. *)
Definition stubborn : World Backend :=
  mkWorld (mkRegistry 0%nat (Some (mkNamingClient (Some SdkClient))) [] false
             (mkAvailabilityCache true 1000) 0)
    ∅ (fun p => nth p [urlWith []; wantsBar] noURL)
    (mkBackend 1000 1 (true, None) (true, None) (mkServiceList 0 [], None)
       (Some (errorString "listen refused")) [] 0)
    [].

Definition refusing (e : Backend) : Prop :=
  (listing e).2 = None ∧ subscribeReply e ≠ None.

(** C10 (as stated) fails: on an available registry whose backend keeps
    refusing the listen call, Subscribe for a specific service retries
    forever; it returns neither nil nor anything else. *)
Lemma Subscribe_retries_forever :
  (∃ w1, IsAvailable stubborn = Ok true w1) ∧
  (∀ fuel, ∃ w', Subscribe fuel 1%nat consumer stubborn = Unfinished w').
Proof.
  split; [eexists; reflexivity|].
  apply (Subscribe_stuck refusing).
  - split; unfold refusing; intros; cbn in *; tauto.
  - intros p e [_ He]. exact He.
  - repeat split; try reflexivity; discriminate.
  - reflexivity.
  - vm_compute. discriminate.
  - vm_compute. discriminate.
Qed.

End Scenarios.


(** * The rest of the registry file

    UnSubscribe, LoadSubscribeInstances and the constructor, and what the
    operations of the file do and never do, one by one and in sequence. *)

(** ** What these take from outside src/ *)

(** The parameter keys of the constructor, the instances of the naming SDK
    ([model.Instance]) with [generateUrl] of the listener file, and the
    [Username] and [Password] fields of [common.URL], which the registry
    only reads. *)
Class QueryDeps := {
  NacosNamespaceID : string;
  RegistryNamespaceKey : string;
  NacosUsername : string;
  NacosPassword : string;
  NacosAccessKey : string;
  RegistryAccessKey : string;
  NacosSecretKey : string;
  RegistrySecretKey : string;
  NacosTimeout : string;
  RegistryTimeoutKey : string;
  DefaultRegTimeout : string;
  Username : URLRef -> string;
  Password : URLRef -> string;
  SdkInstance : Type;
  (* generateUrl of the listener file; nil for an instance it does not take *)
  generateUrl : SdkInstance -> option URL
}.

Record SelectAllInstancesParam := mkSelectAllInstancesParam {
  sa_ServiceName : string;
  sa_GroupName : string
}.

(** The calls of the naming SDK and of package remoting/nacos that the rest
    of the file makes. A [vo.SubscribeParam] goes with its
    [SubscribeCallback], the [Callback] method of a listener. *)
Class Directory `{Q : QueryDeps} (E : Type) := {
  SdkUnsubscribe : SubscribeParam * nacosListener -> E -> option error * E;
  SelectAllInstances :
    SelectAllInstancesParam -> E -> (list SdkInstance * option error) * E;
  NewNacosClientByURL : URL -> E -> (option NacosNamingClient * option error) * E
}.

Section Queries.
Context `{D : Deps} `{Q : QueryDeps} {E : Type} `{Env : Environment E} `{Dir : !Directory E}.

(** Modelled from the spec: URL.SetParam (package common, not under src/) on
    the "open key/value parameter map" of the URL: the key is bound to the
    value, also to the empty string. *)
Definition SetParam (key value : string) (u : URL) : URL :=
  mkURL (Protocol u) (Path u) (Ip u) (Port u) (Methods u) (<[key := value]> (params u)).

Definition GetURL : M E URLRef := gets nrURL.

(** A nil [cb] takes the callback of the listener cached under name+group. *)
Definition createSubscribeParam (serviceName groupName : string) (cb : option nacosListener)
  : M E (option (SubscribeParam * nacosListener)) :=
  match cb with
  | None =>
      v ← cacheLoad (serviceName +:+ groupName);
      match v with
      | None => mret None
      | Some listener => mret (Some (mkSubscribeParam serviceName groupName, listener))
      end
  | Some cb => mret (Some (mkSubscribeParam serviceName groupName, cb))
  end.

Definition UnSubscribe (url : URLRef) (_ : NotifyListener) : M E (option error) :=
  u ← load url;
  groupName ← nr_GetParam RegistryGroupKey defaultGroup;
  param ← createSubscribeParam (getSubscribeName u) groupName None;
  match param with
  | None => mret None
  | Some p =>
      nr_Client ;;
      err ← perform (SdkUnsubscribe p);
      match err with
      | Some _ =>
          mret (Some (errorString
                        ("UnSubscribe [" +:+ sp_ServiceName p.1 +:+ "] to nacos failed")))
      | None => mret None
      end
  end.

(** The body of the loop of LoadSubscribeInstances. *)
Definition notifyInstance (notify : NotifyListener) (i : SdkInstance) : M E unit :=
  match generateUrl i with
  | Some newUrl => emit (Notify notify (mkServiceEvent EventTypeAdd newUrl))
  | None => mret tt
  end.

Definition LoadSubscribeInstances (url : URLRef) (notify : NotifyListener)
  : M E (option error) :=
  u ← load url;
  let serviceName := getSubscribeName u in
  regURL ← GetURL;
  ru ← load regURL;
  let groupName := GetParam ru RegistryGroupKey defaultGroup in
  nr_Client ;;
  '(instances, err) ← perform (SelectAllInstances
                                 (mkSelectAllInstancesParam serviceName groupName));
  match err with
  | Some e =>
      mret (Some (errorString
                    ("could not query the instances for serviceName=" +:+ serviceName
                     +:+ ",groupName=" +:+ groupName +:+ ",error=" +:+ Error e)))
  | None =>
      forEach instances (notifyInstance notify) ;;
      mret None
  end.

(** The constructor: the registry it returns, or the zero registry of the
    failure path ([None]: it has no URL and no channel) with the error. *)
Definition newNacosRegistry (url : URLRef) : M E (option nacosRegistry * option error) :=
  logf LInfo "[Nacos Registry] New nacos registry with url = %+v" [ArgURL url] ;;
  u ← load url;
  update url (SetParam NacosNamespaceID (GetParam u RegistryNamespaceKey "")) ;;
  update url (SetParam NacosUsername (Username url)) ;;
  update url (SetParam NacosPassword (Password url)) ;;
  u ← load url;
  update url (SetParam NacosAccessKey (GetParam u RegistryAccessKey "")) ;;
  u ← load url;
  update url (SetParam NacosSecretKey (GetParam u RegistrySecretKey "")) ;;
  u ← load url;
  update url (SetParam NacosTimeout (GetParam u RegistryTimeoutKey DefaultRegTimeout)) ;;
  u ← load url;
  update url (SetParam NacosGroupKey (GetParam u RegistryGroupKey defaultGroup)) ;;
  u ← load url;
  '(namingClient, err) ← perform (NewNacosClientByURL u);
  match err with
  | Some e => mret (None, Some e)
  | None =>
      mret (Some (mkRegistry url namingClient [] false
                    (mkAvailabilityCache false GoTime.zeroTime) 0), None)
  end.

End Queries.

(** ** What a run leaves behind, however it ends *)

Section Frames.
Context `{D : Deps} {E : Type} `{Env : Environment E}.

(** The world at the end of a run: at its return, at its panic, where it is
    parked, or where it was cut. *)
Definition after {A} (o : Outcome E A) : World E :=
  match o with
  | Ok _ w => w
  | Panic _ w => w
  | Blocked w => w
  | Unfinished w => w
  end.

(** A body that takes every world to one related to it. *)
Definition keeps (R : World E → World E → Prop) {A} (m : M E A) : Prop :=
  ∀ w, R w (after (m w)).

Section Keeps.
Context (R : World E → World E → Prop) `{!PreOrder R}.

Lemma keeps_mret {A} (a : A) : keeps R (mret a).
Proof. intros w. cbn. reflexivity. Qed.

Lemma keeps_bind {A B} (m : M E A) (k : A → M E B) :
  keeps R m → (∀ a, keeps R (k a)) → keeps R (m ≫= k).
Proof.
  intros Hm Hk w. specialize (Hm w). unfold mbind, M_bind.
  destruct (m w) as [a w1|r w1|w1|w1]; cbn in *; [|done..].
  etrans; [exact Hm|]. apply Hk.
Qed.

Lemma keeps_panic {A} (r : string) : keeps R (panic (A := A) r).
Proof. intros w. cbn. reflexivity. Qed.

Lemma keeps_park {A} : keeps R (park (A := A)).
Proof. intros w. cbn. reflexivity. Qed.

Lemma keeps_unfinished {A} : keeps R (unfinished (A := A)).
Proof. intros w. cbn. reflexivity. Qed.

Lemma keeps_gets {A} (f : nacosRegistry → A) : keeps R (gets f).
Proof. intros w. cbn. reflexivity. Qed.

Lemma keeps_load (p : URLRef) : keeps R (load p).
Proof. intros w. cbn. reflexivity. Qed.

Lemma keeps_cacheLoad (key : string) : keeps R (cacheLoad key).
Proof. intros w. cbn. reflexivity. Qed.

Lemma keeps_cacheEntries : keeps R cacheEntries.
Proof. intros w. cbn. reflexivity. Qed.

Lemma keeps_orPanic {A} (o : option A) (r : string) : keeps R (orPanic o r).
Proof. destruct o; [apply keeps_mret|apply keeps_panic]. Qed.

Lemma keeps_nr_GetParam (key d : string) : keeps R (nr_GetParam key d).
Proof.
  unfold nr_GetParam. apply keeps_bind; [apply keeps_gets|]. intros p.
  apply keeps_bind; [apply keeps_load|]. intros u. apply keeps_mret.
Qed.

Lemma keeps_nr_Client : keeps R nr_Client.
Proof.
  unfold nr_Client. apply keeps_bind; [apply keeps_gets|]. intros [nc|].
  - apply keeps_orPanic.
  - apply keeps_panic.
Qed.

Lemma keeps_forEach {A} (l : list A) (body : A → M E unit) :
  (∀ x, keeps R (body x)) → keeps R (forEach l body).
Proof.
  intros Hbody. induction l as [|x l IH]; [apply keeps_mret|].
  cbn [forEach]. apply keeps_bind; [apply Hbody|]. intros _. exact IH.
Qed.

Lemma keeps_defer {A} (f : M E unit) (body : M E A) :
  keeps R f → keeps R body → keeps R (defer f body).
Proof.
  intros Hf Hbody w. specialize (Hbody w). unfold defer.
  destruct (body w) as [a w1|r w1|w1|w1]; cbn in *; [| |done..].
  - etrans; [exact Hbody|].
    apply (keeps_bind f (fun _ => mret a) Hf (fun _ => keeps_mret a)).
  - etrans; [exact Hbody|].
    apply (keeps_bind f (fun _ => panic r) Hf (fun _ => keeps_panic r)).
Qed.

End Keeps.

(** The effects that shut the registry down, and the pause of the scheduled
    lookup. *)
Definition isSleep (e : Effect) : bool :=
  match e with Sleep _ => true | _ => false end.

Definition shutsDown (e : Effect) : bool := isCloseDone e || isCloseClient e.

(** From [w] to [w'] the registry went on running: the done channel, the
    client and the registry URL are the same, the ledger only gained entries
    at its end, every URL has the parameters it had, and the effects added
    are none of those [banned]. *)
Record evolved (banned : Effect → bool) (w w' : World E) : Prop := mkEvolved {
  evolved_done : done (nr w') = done (nr w);
  evolved_client : namingClient (nr w') = namingClient (nr w);
  evolved_url : nrURL (nr w') = nrURL (nr w);
  evolved_ledger : registryUrls (nr w) `prefix_of` registryUrls (nr w');
  evolved_params : ∀ q, params (heap w' q) = params (heap w q);
  evolved_trace : ∃ new, trace w' = trace w ++ new ∧ Forall (fun e => banned e = false) new
}.

#[global] Instance evolved_preorder (banned : Effect → bool) : PreOrder (evolved banned).
Proof.
  split.
  - intros w. split; try done. exists []. by rewrite app_nil_r.
  - intros w1 w2 w3 [Hd1 Hc1 Hu1 Hl1 Hp1 (n1 & Ht1 & Hn1)] [Hd2 Hc2 Hu2 Hl2 Hp2 (n2 & Ht2 & Hn2)].
    split; [congruence|congruence|congruence|by etrans| |].
    + intros q. by rewrite Hp2.
    + exists (n1 ++ n2). split; [by rewrite Ht2, Ht1, <- app_assoc|]. by apply Forall_app.
Qed.

Lemma evolved_weaken (banned banned' : Effect → bool) (w w' : World E) :
  (∀ e, banned e = false → banned' e = false) → evolved banned w w' → evolved banned' w w'.
Proof.
  intros Hb [Hd Hc Hu Hl Hp (new & Ht & Hn)]. split; try done.
  exists new. split; [done|]. eapply Forall_impl; [exact Hn|]. auto.
Qed.

Section Evolved.
Context (banned : Effect → bool).

Lemma keeps_emit (e : Effect) : banned e = false → keeps (evolved banned) (emit e).
Proof.
  intros He w. split; cbn; try done. exists [e]. split; [done|]. by constructor.
Qed.

Lemma keeps_perform {A} (f : E → A * E) : keeps (evolved banned) (perform f).
Proof.
  intros w. unfold perform. destruct (f (env w)) as [a e']. split; cbn; try done.
  exists []. by rewrite app_nil_r.
Qed.

Lemma keeps_modify (f : nacosRegistry → nacosRegistry) :
  (∀ r, done (f r) = done r ∧ namingClient (f r) = namingClient r ∧
        nrURL (f r) = nrURL r ∧ registryUrls r `prefix_of` registryUrls (f r)) →
  keeps (evolved banned) (modify f).
Proof.
  intros Hf w. destruct (Hf (nr w)) as (? & ? & ? & ?). split; cbn; try done.
  exists []. by rewrite app_nil_r.
Qed.

Lemma keeps_update (p : URLRef) (f : URL → URL) :
  (∀ u, params (f u) = params u) → keeps (evolved banned) (update p f).
Proof.
  intros Hf w. split; cbn; try done.
  - intros q. case_decide; [subst; apply Hf|done].
  - exists []. by rewrite app_nil_r.
Qed.

Lemma keeps_cacheStore (key : string) (l : nacosListener) :
  keeps (evolved banned) (cacheStore key l).
Proof. intros w. split; cbn; try done. exists []. by rewrite app_nil_r. Qed.

Lemma keeps_cacheDelete (key : string) : keeps (evolved banned) (cacheDelete key).
Proof. intros w. split; cbn; try done. exists []. by rewrite app_nil_r. Qed.

Lemma params_HandleRegisterIPAndPort (u : URL) :
  params (HandleRegisterIPAndPort_url u) = params u.
Proof. unfold HandleRegisterIPAndPort_url. by destruct (HandleRegisterIPAndPort u). Qed.

End Evolved.

End Frames.

(** One step of a proof that a body keeps [evolved]: split a bind, close a
    primitive, or take a branch apart. *)
Ltac frame_step :=
  first
    [ apply keeps_mret; apply _ | apply keeps_panic; apply _ | apply keeps_park; apply _
    | apply keeps_unfinished; apply _ | apply keeps_gets; apply _ | apply keeps_load; apply _
    | apply keeps_cacheLoad; apply _ | apply keeps_cacheEntries; apply _
    | apply keeps_orPanic; apply _ | apply keeps_nr_GetParam; apply _
    | apply keeps_nr_Client; apply _
    | apply keeps_perform | apply keeps_cacheStore | apply keeps_cacheDelete
    | apply keeps_emit; reflexivity
    | apply keeps_update; apply params_HandleRegisterIPAndPort
    | apply keeps_modify; intros ?; cbn; repeat split; reflexivity
    | apply keeps_bind; [apply _| |intros ?]
    | match goal with
      | |- keeps _ (match ?x with _ => _ end) => destruct x
      end ].

(** [known] closes the bodies already dealt with. *)
Ltac frame_using known :=
  unfold logf, time_Since, time_Now;
  repeat first [ progress cbv beta | known | frame_step ].

Ltac frame := frame_using fail.

Section Running.
Context `{D : Deps} {E : Type} `{Env : Environment E}.

(** The effects no operation but Destroy and the scheduled lookup makes. *)
Definition stops (e : Effect) : bool := shutsDown e || isSleep e.

Lemma createRegisterParam_evolved (url : URLRef) (serviceName groupName : string) :
  keeps (E := E) (evolved stops) (createRegisterParam url serviceName groupName).
Proof. unfold createRegisterParam. frame. Qed.

Lemma keeps_record (url : URLRef) (banned : Effect → bool) :
  keeps (E := E) (evolved banned)
    (urls ← gets registryUrls;
     modify (set_registryUrls (urls ++ [url])) ;; mret (None : option error)).
Proof.
  intros w. split; cbn; try done.
  - by apply prefix_app_r.
  - exists []. by rewrite app_nil_r.
Qed.

Lemma Register_evolved (url : URLRef) : keeps (E := E) (evolved stops) (Register url).
Proof.
  unfold Register.
  frame_using ltac:(first [apply createRegisterParam_evolved | apply keeps_record]).
Qed.

Lemma UnRegister_evolved (url : URLRef) : keeps (E := E) (evolved stops) (UnRegister url).
Proof. unfold UnRegister, createDeregisterParam. frame. Qed.

Lemma IsAvailable_evolved (banned : Effect → bool) :
  (∀ p, banned (CallGetAllServicesInfo p) = false) →
  keeps (E := E) (evolved banned) IsAvailable.
Proof.
  intros Hprobe. unfold IsAvailable.
  frame_using ltac:(apply keeps_emit; apply Hprobe).
Qed.

Lemma listenService_evolved (l : nacosListener) (serviceName : string) :
  keeps (E := E) (evolved stops) (listenService l serviceName).
Proof. unfold listenService. frame. Qed.

Lemma subscribe_evolved (serviceName : string) (n : NotifyListener) :
  keeps (E := E) (evolved stops) (subscribe serviceName n).
Proof.
  unfold subscribe.
  frame_using ltac:(first [apply IsAvailable_evolved; reflexivity
                          | apply listenService_evolved]).
Qed.

Lemma handleServiceEvents_evolved (fuel : nat) (l : nacosListener) (n : NotifyListener) :
  keeps (E := E) (evolved stops) (handleServiceEvents fuel l n).
Proof.
  unfold handleServiceEvents. apply keeps_defer; [apply _| |].
  { unfold listener_Close. frame. }
  induction fuel as [|fuel IH]; cbn [handleServiceEvents_loop]; [frame|].
  unfold listener_Next.
  frame_using ltac:(first [apply IsAvailable_evolved; reflexivity | exact IH]).
Qed.

Lemma eventPump_evolved (fuel : nat) (l : nacosListener) (n : NotifyListener) :
  keeps (E := E) (evolved stops) (eventPump fuel l n).
Proof.
  unfold eventPump. apply keeps_defer; [apply _| |apply handleServiceEvents_evolved].
  unfold wg_Done. frame.
Qed.

Lemma subscribeAll_evolved (url : URLRef) (n : NotifyListener) :
  keeps (E := E) (evolved stops) (subscribeAll url n).
Proof.
  unfold subscribeAll, getAllSubscribeServiceNames.
  frame_using ltac:(apply keeps_forEach; [apply _|intros ?; unfold subscribeEach]);
    frame_using ltac:(apply subscribe_evolved).
Qed.

Lemma subscribeUntilSuccess_evolved (fuel : nat) (url : URLRef) (n : NotifyListener) :
  keeps (E := E) (evolved stops) (subscribeUntilSuccess fuel url n).
Proof.
  induction fuel as [|fuel IH]; cbn [subscribeUntilSuccess]; [frame|].
  frame_using ltac:(first [apply IsAvailable_evolved; reflexivity
                          | apply subscribe_evolved | exact IH]).
Qed.

Lemma Subscribe_evolved (fuel : nat) (url : URLRef) (n : NotifyListener) :
  keeps (E := E) (evolved stops) (Subscribe fuel url n).
Proof.
  unfold Subscribe.
  frame_using ltac:(first [apply subscribeAll_evolved | apply subscribeUntilSuccess_evolved]).
Qed.

Lemma scheduledLookUp_evolved (fuel : nat) (url : URLRef) (n : NotifyListener) :
  keeps (E := E) (evolved shutsDown) (scheduledLookUp fuel url n).
Proof.
  induction fuel as [|fuel IH]; cbn [scheduledLookUp]; [frame|].
  frame_using ltac:(first
    [ apply IsAvailable_evolved; reflexivity
    | exact IH
    | intros w; apply (evolved_weaken stops); [|apply subscribeAll_evolved];
      intros e He; unfold stops in He; by apply orb_false_iff in He as [? _] ]).
Qed.

End Running.

(** ** Register and UnRegister *)

(** The records of the registration calls among some effects, in order. *)
Fixpoint registrations (t : list Effect) : list RegisterInstanceParam :=
  match t with
  | [] => []
  | CallRegisterInstance p :: t' => p :: registrations t'
  | _ :: t' => registrations t'
  end.

Section Registration.
Context `{D : Deps} {E : Type} `{Env : Environment E}.

Lemma registrations_app (t1 t2 : list Effect) :
  registrations (t1 ++ t2) = registrations t1 ++ registrations t2.
Proof.
  induction t1 as [|e t1 IH]; [done|]. destruct e; cbn; rewrite ?IH; done.
Qed.

(** The heap after the address of the URL at [url] was normalised. *)
Definition normalised (w : World E) (url : URLRef) : URLRef → URL :=
  fun q => if decide (q = url) then HandleRegisterIPAndPort_url (heap w url) else heap w q.

(** The metadata createRegisterParam builds for a URL of category [c]. *)
Definition metadataOf (u : URL) (c : string) : gmap string string :=
  <[MethodsKey := GoStrings.Join (Methods u) ","]>
    (<[NacosPathKey := Path u]>
       (<[NacosProtocolKey := Protocol u]> (<[NacosCategoryKey := c]> (params u)))).

Lemma createRegisterParam_run (url : URLRef) (serviceName groupName : string)
  (w : World E) (c : string) :
  getCategory (heap w url) = Some c →
  ∃ weight logs,
    createRegisterParam url serviceName groupName w =
      Ok (mkRegisterInstanceParam
            (HandleRegisterIPAndPort (heap w url)).1
            (uint64 (Atoi (HandleRegisterIPAndPort (heap w url)).2))
            (metadataOf (heap w url) c) weight true true true serviceName groupName)
         (mkWorld (nr w) (listenerCache w) (normalised w url) (env w) (trace w ++ logs)) ∧
    registrations logs = [].
Proof.
  intros Hc. unfold createRegisterParam, metadataOf, normalised. run. rewrite Hc. run.
  rewrite decide_True by done. rewrite GetParam_HandleRegisterIPAndPort.
  unfold HandleRegisterIPAndPort_url.
  destruct (HandleRegisterIPAndPort (heap w url)) as [ip port]. cbn.
  destruct (ParseFloat _) as [v err].
  destruct (bool_decide (err ≠ None) || (v <=? MinNacosWeight)%float); run;
    [|destruct (_ <? v)%float; run].
  - eexists _, [_]. split; [reflexivity|done].
  - eexists _, [_]. split; [reflexivity|done].
  - eexists _, []. rewrite app_nil_r. split; [reflexivity|done].
Qed.

Lemma address_HandleRegisterIPAndPort (u : URL) :
  Ip (HandleRegisterIPAndPort_url u) = (HandleRegisterIPAndPort u).1 ∧
  Port (HandleRegisterIPAndPort_url u) = (HandleRegisterIPAndPort u).2.
Proof. unfold HandleRegisterIPAndPort_url. by destruct (HandleRegisterIPAndPort u). Qed.

(** The record Register sends, whatever the weight. *)
Definition sameInstance (p : RegisterInstanceParam) (ip : string) (port : Z)
  (serviceName groupName : string) : Prop :=
  ri_Ip p = ip ∧ ri_Port p = port ∧ ri_ServiceName p = serviceName ∧
  ri_GroupName p = groupName.

Lemma Register_run (url : URLRef) (w : World E) (name : string) :
  getServiceName (heap w url) = Some name →
  clientOf (namingClient (nr w)) ≠ None →
  ∃ err p w', Register url w = Ok err w' ∧
    registrations (trace w') = registrations (trace w) ++ [p] ∧
    sameInstance p (HandleRegisterIPAndPort (heap w url)).1
      (uint64 (Atoi (HandleRegisterIPAndPort (heap w url)).2)) name
      (GetParam (heap w (nrURL (nr w))) NacosGroupKey defaultGroup) ∧
    heap w' = normalised w url ∧ listenerCache w' = listenerCache w ∧
    nrURL (nr w') = nrURL (nr w) ∧ namingClient (nr w') = namingClient (nr w).
Proof.
  intros Hname Hclient.
  assert (Hcat : ∃ c, getCategory (heap w url) = Some c).
  { unfold getServiceName in Hname. destruct (getCategory (heap w url)); [eauto|done]. }
  destruct Hcat as [c Hcat].
  destruct (Now (env w)) as [start e1] eqn:Hnow.
  destruct (createRegisterParam_run url name
              (GetParam (heap w (nrURL (nr w))) NacosGroupKey defaultGroup)
              (mkWorld (nr w) (listenerCache w) (heap w) e1 (trace w)) c Hcat)
    as (weight & logs & Hparam & Hlogs).
  unfold Register. run. rewrite Hnow. cbn. rewrite Hname. cbn.
  rewrite Hparam. cbn.
  unfold clientOf in Hclient.
  destruct (namingClient (nr w)) as [nc|] eqn:Hnc; [|done]. cbn in Hclient |- *.
  destruct (Client nc); [|done]. cbn.
  destruct (RegisterInstance _ e1) as [[isRegistry err] e2]. cbn.
  destruct isRegistry, err as [backendError|]; cbn;
    (eexists _, _, _; split; [reflexivity|]; cbn;
     rewrite ?registrations_app, ?Hlogs; cbn; rewrite ?app_nil_r, ?Hnc; repeat split; done).
Qed.

(** UnRegister, with an identity for the URL and a client at hand, sends one
    deregistration for that identity, under the group of the registry URL
    and the normalised address; it returns the backend's error as it is, a
    descriptive error when the backend reports the instance not removed, and
    nil otherwise; the registry, its ledger included, is the same in every
    case. *)
Theorem UnRegister_reports (url : URLRef) (w : World E) (name : string) :
  getServiceName (heap w url) = Some name →
  clientOf (namingClient (nr w)) ≠ None →
  let address := HandleRegisterIPAndPort (heap w url) in
  let p := mkDeregisterInstanceParam address.1 (uint64 (Atoi address.2)) name
             (GetParam (heap w (nrURL (nr w))) NacosGroupKey defaultGroup) true in
  ∃ w', trace w' = trace w ++ [CallDeregisterInstance p] ∧
    nr w' = nr w ∧ listenerCache w' = listenerCache w ∧
    match (DeregisterInstance p (env w)).1 with
    | (_, Some backendError) => UnRegister url w = Ok (Some backendError) w'
    | (false, None) =>
        UnRegister url w
          = Ok (Some (errorString ("DeRegistry [" +:+ name +:+ "] to nacos failed"))) w'
    | (true, None) => UnRegister url w = Ok None w'
    end.
Proof.
  intros Hname Hclient. cbn zeta.
  pose proof (UnRegister_run url w name Hname Hclient) as Hrun.
  assert (Hp : deregisterParam w url =
               mkDeregisterInstanceParam (HandleRegisterIPAndPort (heap w url)).1
                 (uint64 (Atoi (HandleRegisterIPAndPort (heap w url)).2)) name
                 (GetParam (heap w (nrURL (nr w))) NacosGroupKey defaultGroup) true).
  { unfold deregisterParam, HandleRegisterIPAndPort_url. rewrite Hname.
    by destruct (HandleRegisterIPAndPort (heap w url)). }
  rewrite Hp in Hrun.
  match type of Hrun with _ = Ok _ ?w' => exists w' end.
  split; [done|]. split; [done|]. split; [done|].
  destruct (DeregisterInstance _ (env w)) as [[ok [e|]] e']; cbn in *;
    [by destruct ok|destruct ok; exact Hrun].
Qed.

(** A role that indexes outside DubboNodes: Register and UnRegister panic
    before any backend call, and the registry is as it was. *)
Theorem unknown_role_panics (url : URLRef) (w : World E) :
  let role := Atoi (GetParam (heap w url) RegistryRoleKey (Itoa NacosDefaultRoleType)) in
  role < 0 ∨ Z.of_nat (length DubboNodes) ≤ role →
  (∃ w', Register url w = Panic "index out of range" w' ∧
         trace w' = trace w ∧ nr w' = nr w ∧ heap w' = heap w) ∧
  UnRegister url w = Panic "index out of range" w.
Proof.
  cbn zeta. intros Hrole.
  assert (Hname : getServiceName (heap w url) = None).
  { unfold getServiceName, getCategory.
    destruct (Z.ltb_spec (Atoi (GetParam (heap w url) RegistryRoleKey
                                  (Itoa NacosDefaultRoleType))) 0) as [Hneg|Hpos]; [done|].
    rewrite (proj2 (lookup_ge_None DubboNodes _)); [done|]. lia. }
  split.
  - unfold Register. run. destruct (Now (env w)) as [start e1]. cbn. rewrite Hname. cbn.
    eexists. split; [reflexivity|]. done.
  - unfold UnRegister. run. by rewrite Hname.
Qed.

(** The record createRegisterParam builds: the service and group names it is
    given, the three flags set, the normalised address, and as metadata the
    parameters of the URL with the category, protocol, path and methods
    entries written over them; the URL itself is left with its address
    normalised. *)
Theorem createRegisterParam_record (url : URLRef) (serviceName groupName : string)
  (w : World E) (c : string) :
  getCategory (heap w url) = Some c →
  ∃ p w', createRegisterParam url serviceName groupName w = Ok p w' ∧
    let u := heap w url in
    ri_ServiceName p = serviceName ∧ ri_GroupName p = groupName ∧
    ri_Enable p = true ∧ ri_Healthy p = true ∧ ri_Ephemeral p = true ∧
    ri_Ip p = (HandleRegisterIPAndPort u).1 ∧
    ri_Port p = uint64 (Atoi (HandleRegisterIPAndPort u).2) ∧
    0 ≤ ri_Port p < 2 ^ 64 ∧
    ri_Metadata p !! MethodsKey = Some (GoStrings.Join (Methods u) ",") ∧
    (NacosPathKey ≠ MethodsKey → ri_Metadata p !! NacosPathKey = Some (Path u)) ∧
    (NacosProtocolKey ∉ [NacosPathKey; MethodsKey] →
     ri_Metadata p !! NacosProtocolKey = Some (Protocol u)) ∧
    (NacosCategoryKey ∉ [NacosProtocolKey; NacosPathKey; MethodsKey] →
     ri_Metadata p !! NacosCategoryKey = Some c) ∧
    (∀ key, key ∉ [NacosCategoryKey; NacosProtocolKey; NacosPathKey; MethodsKey] →
            ri_Metadata p !! key = params u !! key) ∧
    heap w' url = HandleRegisterIPAndPort_url u ∧
    (∀ q, q ≠ url → heap w' q = heap w q) ∧
    nr w' = nr w ∧ env w' = env w.
Proof.
  intros Hc.
  destruct (createRegisterParam_run url serviceName groupName w c Hc)
    as (weight & logs & Hrun & _).
  eexists _, _. split; [exact Hrun|]. cbn. unfold metadataOf, normalised.
  repeat split; try done.
  - apply Z.mod_pos_bound. lia.
  - apply Z.mod_pos_bound. lia.
  - by rewrite lookup_insert_eq.
  - intros Hne. rewrite lookup_insert_ne by done. by rewrite lookup_insert_eq.
  - intros Hne. rewrite !not_elem_of_cons in Hne. destruct Hne as (? & ? & _).
    rewrite !lookup_insert_ne by done. by rewrite lookup_insert_eq.
  - intros Hne. rewrite !not_elem_of_cons in Hne. destruct Hne as (? & ? & ? & _).
    rewrite !lookup_insert_ne by done. by rewrite lookup_insert_eq.
  - intros key Hne. rewrite !not_elem_of_cons in Hne. destruct Hne as (? & ? & ? & ? & _).
    by rewrite !lookup_insert_ne by done.
  - by rewrite decide_True.
  - intros q Hq. by rewrite decide_False.
Qed.

(** Register and then UnRegister of the same URL, where normalising an
    address twice gives what normalising it once gives: the deregistration
    names the instance the registration named (address, port, service name
    and group), and the endpoint stays in the ledger. *)
Theorem Register_UnRegister_same_instance (url : URLRef) (w : World E) (name : string) :
  getServiceName (heap w url) = Some name →
  clientOf (namingClient (nr w)) ≠ None →
  HandleRegisterIPAndPort (HandleRegisterIPAndPort_url (heap w url))
    = HandleRegisterIPAndPort (heap w url) →
  ∃ err p w1 err' d w2,
    Register url w = Ok err w1 ∧
    registrations (trace w1) = registrations (trace w) ++ [p] ∧
    UnRegister url w1 = Ok err' w2 ∧
    trace w2 = trace w1 ++ [CallDeregisterInstance d] ∧
    di_Ip d = ri_Ip p ∧ di_Port d = ri_Port p ∧
    di_ServiceName d = ri_ServiceName p ∧ di_GroupName d = ri_GroupName p ∧
    di_ServiceName d = name ∧
    registryUrls (nr w2) = registryUrls (nr w1).
Proof.
  intros Hname Hclient Hidem.
  destruct (Register_run url w name Hname Hclient)
    as (err & p & w1 & Hreg & Hsent & (Hip & Hport & Hsn & Hgn) & Hheap & _ & Hurl & Hnc).
  assert (Hname1 : getServiceName (heap w1 url) = Some name).
  { rewrite Hheap. unfold normalised. rewrite decide_True by done.
    by rewrite getServiceName_HandleRegisterIPAndPort. }
  assert (Hclient1 : clientOf (namingClient (nr w1)) ≠ None) by (by rewrite Hnc).
  pose proof (UnRegister_run url w1 name Hname1 Hclient1) as Hun.
  eexists err, p, w1, _, (deregisterParam w1 url), _.
  split; [exact Hreg|]. split; [exact Hsent|]. split; [exact Hun|]. cbn.
  split; [done|].
  unfold deregisterParam. cbn. rewrite Hname1, Hheap, Hurl. unfold normalised.
  rewrite decide_True by done.
  assert (Hgroup : GetParam (if decide (nrURL (nr w) = url)
                             then HandleRegisterIPAndPort_url (heap w url)
                             else heap w (nrURL (nr w))) NacosGroupKey defaultGroup
                   = GetParam (heap w (nrURL (nr w))) NacosGroupKey defaultGroup).
  { case_decide as Halias; [|done]. by rewrite GetParam_HandleRegisterIPAndPort, Halias. }
  rewrite Hgroup, Hip, Hport, Hsn, Hgn.
  rewrite (proj1 (address_HandleRegisterIPAndPort _)), (proj2 (address_HandleRegisterIPAndPort _)), Hidem. done.
Qed.

End Registration.

(** ** Shutdown *)

(** The pauses among some effects, in order. *)
Fixpoint sleeps (t : list Effect) : list Z :=
  match t with
  | [] => []
  | Sleep d :: t' => d :: sleeps t'
  | _ :: t' => sleeps t'
  end.

Section Shutdown.
Context `{D : Deps} {E : Type} `{Env : Environment E}.

(** CloseListener closes every cached listener, each once, and leaves the
    cache empty; the registry value and the URLs are as they were. *)
Theorem CloseListener_closes_all (w : World E) :
  ∃ w', CloseListener w = Ok tt w' ∧
    listenerCache w' = ∅ ∧ nr w' = nr w ∧ heap w' = heap w ∧
    trace w' = trace w ++ map (fun kl => ListenerClose kl.2) (map_to_list (listenerCache w)) ∧
    NoDup (map_to_list (listenerCache w)).*1 ∧
    (∀ key l, listenerCache w !! key = Some l ↔ (key, l) ∈ map_to_list (listenerCache w)).
Proof.
  eexists. split; [apply CloseListener_run|]. cbn.
  split; [done|]. split; [done|]. split; [done|]. split; [done|].
  split; [apply NoDup_fst_map_to_list|].
  intros key l. by rewrite elem_of_map_to_list.
Qed.

(** Once the done channel is closed nothing subscribes any more: IsAvailable
    is false with no backend call, subscribe fails with its error and makes
    no listen call, the retry loop and the scheduled lookup return at their
    first check, the event pump only closes its handle, and Subscribe for a
    specific service returns nil having done nothing. *)
Theorem closed_registry_is_inert (w : World E) :
  done (nr w) = true →
  IsAvailable w = Ok false w ∧
  (∀ name n, name ≠ "" →
     subscribe name n w =
       Ok (Some (errorString "nacosRegistry is not available."))
          (mkWorld (nr w) (listenerCache w) (heap w) (env w)
             (trace w ++ [Log LWarn "event listener game over." []]))) ∧
  (∀ fuel url n, subscribeUntilSuccess (S fuel) url n w = Ok tt w) ∧
  (∀ fuel url n, scheduledLookUp (S fuel) url n w = Ok tt w) ∧
  (∀ fuel l n,
     handleServiceEvents (S fuel) l n w =
       Ok tt (mkWorld (nr w) (listenerCache w) (heap w) (CloseOf l (env w))
                (trace w ++ [ListenerClose l]))) ∧
  (∀ fuel url n,
     Atoi (GetParam (heap w url) RegistryRoleKey "") = CONSUMER →
     GetParam (heap w url) InterfaceKey "" ≠ AnyValue →
     Subscribe (S fuel) url n w = Ok None w).
Proof.
  intros Hd. pose proof (IsAvailable_closed w Hd) as Hav.
  split; [done|]. split; [|split; [|split; [|split]]].
  - intros name n Hname. rewrite (subscribe_unavailable name n w w Hname Hav). done.
  - intros fuel url n. cbn [subscribeUntilSuccess]. by rewrite (bind_Ok _ _ _ _ _ Hav).
  - intros fuel url n. cbn [scheduledLookUp]. by rewrite (bind_Ok _ _ _ _ _ Hav).
  - intros fuel l n. unfold handleServiceEvents, defer. cbn [handleServiceEvents_loop].
    rewrite (bind_Ok _ _ _ _ _ Hav). cbn. unfold listener_Close. run. done.
  - intros fuel url n Hrole Hany. unfold Subscribe. run.
    rewrite decide_False by (by intros []). rewrite decide_False by done.
    cbn [subscribeUntilSuccess]. by rewrite Hav.
Qed.

(** Without a backend client (as after Destroy): Register and UnRegister
    panic on the nil client before any backend call and leave the ledger as
    it was, and so do a subscribeAll pass and Subscribe with the wildcard
    interest. *)
Theorem nil_client_panics (w : World E) :
  clientOf (namingClient (nr w)) = None →
  (∀ url, getServiceName (heap w url) ≠ None →
     ∃ w', Register url w = Panic "nil pointer dereference" w' ∧
       registrations (trace w') = registrations (trace w) ∧ nr w' = nr w) ∧
  (∀ url, getServiceName (heap w url) ≠ None →
     ∃ w', UnRegister url w = Panic "nil pointer dereference" w' ∧
       trace w' = trace w ∧ nr w' = nr w) ∧
  (∀ url n, subscribeAll url n w = Panic "nil pointer dereference" w) ∧
  (∀ fuel url n,
     Atoi (GetParam (heap w url) RegistryRoleKey "") = CONSUMER →
     GetParam (heap w url) InterfaceKey "" = AnyValue →
     Subscribe fuel url n w = Panic "nil pointer dereference" w).
Proof.
  intros Hclient.
  assert (Hall : ∀ url n, subscribeAll url n w = Panic "nil pointer dereference" w).
  { intros url n. unfold subscribeAll, getAllSubscribeServiceNames. run.
    unfold clientOf in Hclient.
    destruct (namingClient (nr w)) as [nc|]; [|done]. cbn in *. by rewrite Hclient. }
  split; [|split; [|split]].
  - intros url Hname. destruct (getServiceName (heap w url)) as [name|] eqn:Hn; [|done].
    assert (Hcat : ∃ c, getCategory (heap w url) = Some c).
    { unfold getServiceName in Hn. destruct (getCategory (heap w url)); [eauto|done]. }
    destruct Hcat as [c Hcat].
    destruct (Now (env w)) as [start e1] eqn:Hnow.
    destruct (createRegisterParam_run url name
                (GetParam (heap w (nrURL (nr w))) NacosGroupKey defaultGroup)
                (mkWorld (nr w) (listenerCache w) (heap w) e1 (trace w)) c Hcat)
      as (weight & logs & Hparam & Hlogs).
    unfold Register. run. rewrite Hnow. cbn. rewrite Hn. cbn. rewrite Hparam. cbn.
    unfold clientOf in Hclient.
    destruct (namingClient (nr w)) as [nc|] eqn:Hnc; cbn in *; rewrite ?Hclient; cbn;
      (eexists; split; [reflexivity|]; cbn; rewrite !registrations_app, Hlogs; cbn;
       by rewrite !app_nil_r).
  - intros url Hname. destruct (getServiceName (heap w url)) as [name|] eqn:Hn; [|done].
    unfold UnRegister, createDeregisterParam. run. rewrite Hn. cbn.
    unfold clientOf in Hclient.
    destruct (namingClient (nr w)) as [nc|] eqn:Hnc; cbn in *; rewrite ?Hclient; cbn;
      (eexists; split; [reflexivity|]; done).
  - exact Hall.
  - intros fuel url n Hrole Hany. unfold Subscribe. run.
    rewrite decide_False by (by intros []). rewrite decide_True by done.
    by rewrite Hall.
Qed.

End Shutdown.

Section Loops.
Context `{D : Deps} {E : Type} `{Env : Environment E}.

Lemma sleeps_app (t1 t2 : list Effect) : sleeps (t1 ++ t2) = sleeps t1 ++ sleeps t2.
Proof.
  induction t1 as [|e t1 IH]; [done|]. destruct e; cbn; rewrite ?IH; done.
Qed.

Lemma sleeps_none (t : list Effect) :
  Forall (fun e => isSleep e = false) t → sleeps t = [].
Proof. induction 1 as [|e t He _ IH]; [done|]. by destruct e. Qed.

(** However they end (by returning, by a panic, or cut while still
    looping), Register, UnRegister, IsAvailable, subscribe, a subscribeAll
    pass, Subscribe and the event pump leave the done channel, the backend
    client and the registry URL as they were, take nothing from the ledger,
    change no parameter of any URL, and neither close the done channel, nor
    close the client, nor sleep; the scheduled lookup does the same, its
    sleeps apart. *)
Theorem operations_keep_running (w : World E) :
  (∀ url, evolved stops w (after (Register url w))) ∧
  (∀ url, evolved stops w (after (UnRegister url w))) ∧
  evolved stops w (after (IsAvailable w)) ∧
  (∀ name n, evolved stops w (after (subscribe name n w))) ∧
  (∀ url n, evolved stops w (after (subscribeAll url n w))) ∧
  (∀ fuel url n, evolved stops w (after (Subscribe fuel url n w))) ∧
  (∀ fuel l n, evolved stops w (after (eventPump fuel l n w))) ∧
  (∀ fuel url n, evolved shutsDown w (after (scheduledLookUp fuel url n w))).
Proof.
  split; [intros; apply Register_evolved|].
  split; [intros; apply UnRegister_evolved|].
  split; [by apply IsAvailable_evolved|].
  split; [intros; apply subscribe_evolved|].
  split; [intros; apply subscribeAll_evolved|].
  split; [intros; apply Subscribe_evolved|].
  split; [intros; apply eventPump_evolved|].
  intros; apply scheduledLookUp_evolved.
Qed.

(** A pass of the scheduled lookup, from [w] to [w']: IsAvailable answers
    true, subscribeAll runs to its end, and the loop sleeps LookupInterval. *)
Definition lookupPass (url : URLRef) (n : NotifyListener) (w w' : World E) : Prop :=
  ∃ w1 w2, IsAvailable w = Ok true w1 ∧ subscribeAll url n w1 = Ok tt w2 ∧
    w' = mkWorld (nr w2) (listenerCache w2) (heap w2) (env w2)
           (trace w2 ++ [Sleep LookupInterval]).

(** [passes] passes, one after the other. *)
Fixpoint lookupPasses (url : URLRef) (n : NotifyListener) (passes : nat)
  (w w' : World E) : Prop :=
  match passes with
  | O => w' = w
  | S k => ∃ w1, lookupPass url n w w1 ∧ lookupPasses url n k w1 w'
  end.

(** The scheduled lookup, with a backend client at hand: each of its passes
    is an IsAvailable check that answers true, a run of subscribeAll and one
    sleep of LookupInterval; it returns at the first check that answers
    false (at once when the done channel is closed), and only there. *)
Theorem scheduledLookUp_passes (fuel : nat) (url : URLRef) (n : NotifyListener)
  (w : World E) :
  clientOf (namingClient (nr w)) ≠ None →
  ∃ passes wk w' new,
    lookupPasses url n passes w wk ∧
    trace w' = trace w ++ new ∧
    sleeps new = replicate passes LookupInterval ∧
    (done (nr w) = true → passes = 0%nat) ∧
    ((scheduledLookUp fuel url n w = Ok tt w' ∧ (passes < fuel)%nat ∧
      IsAvailable wk = Ok false w') ∨
     (scheduledLookUp fuel url n w = Unfinished w' ∧ passes = fuel ∧ w' = wk)).
Proof.
  revert w. induction fuel as [|fuel IH]; intros w Hclient.
  { exists 0%nat, w, w, []. rewrite app_nil_r. repeat split; auto. }
  destruct (IsAvailable_returns w)
    as (b & w1 & Hav & _ & _ & _ & Hc1 & _ & _ & _ & _ & Hclosed).
  destruct (IsAvailable_evolved stops (fun _ => eq_refl) w) as [_ _ _ _ _ (new1 & Ht1 & Hq1)].
  rewrite Hav in Ht1. cbn in Ht1.
  assert (Hs1 : sleeps new1 = []).
  { apply sleeps_none. eapply Forall_impl; [exact Hq1|]. intros e He.
    unfold stops in He. by apply orb_false_iff in He as [_ ?]. }
  cbn [scheduledLookUp]. rewrite (bind_Ok _ _ _ _ _ Hav).
  destruct b; cbn [negb].
  - assert (Hclient1 : clientOf (namingClient (nr w1)) ≠ None) by (by rewrite Hc1).
    destruct (subscribeAll_returns url n w1 Hclient1) as (w2 & Hall).
    destruct (subscribeAll_evolved url n w1) as [_ Hc2 _ _ _ (new2 & Ht2 & Hq2)].
    rewrite Hall in Hc2, Ht2. cbn in Hc2, Ht2.
    assert (Hs2 : sleeps new2 = []).
    { apply sleeps_none. eapply Forall_impl; [exact Hq2|]. intros e He.
      unfold stops in He. by apply orb_false_iff in He as [_ ?]. }
    rewrite (bind_Ok _ _ _ _ _ Hall). run.
    set (w3 := mkWorld _ _ _ _ _).
    destruct (IH w3) as (passes & wk & w' & new & Hpasses & Ht & Hs & _ & Hout).
    { subst w3. cbn. by rewrite Hc2. }
    exists (S passes), wk, w', (new1 ++ new2 ++ [Sleep LookupInterval] ++ new).
    split. { cbn [lookupPasses]. exists w3. split; [|done]. by exists w1, w2. }
    split. { rewrite Ht. subst w3. cbn. rewrite Ht2, Ht1. by rewrite <- !app_assoc. }
    split. { rewrite !sleeps_app, Hs1, Hs2, Hs. done. }
    split. { intros Hd. specialize (Hclosed Hd). done. }
    destruct Hout as [(Hrun & Hlt & Hlast)|(Hrun & -> & Hwk)]; [left|right].
    + split; [exact Hrun|]. split; [lia|done].
    + split; [exact Hrun|]. split; [done|done].
  - run. exists 0%nat, w, w1, new1. split; [done|]. split; [done|]. split; [done|].
    split; [done|]. left. split; [done|]. split; [lia|done].
Qed.



(** Destroy while an event pump has not exited: the cached listeners are
    closed and the done channel is closed, and there Destroy waits; nothing
    is deregistered and the client is not closed before the pumps are gone. *)
Theorem Destroy_waits_for_pumps (w : World E) :
  wg (nr w) ≠ 0%nat →
  ∃ w', Destroy w = Blocked w' ∧
    done (nr w') = true ∧ listenerCache w' = ∅ ∧
    registryUrls (nr w') = registryUrls (nr w) ∧
    namingClient (nr w') = namingClient (nr w) ∧ wg (nr w') = wg (nr w) ∧
    trace w' = trace w ++ map (fun kl => ListenerClose kl.2) (map_to_list (listenerCache w))
                 ++ (if done (nr w) then [] else [CloseDone]).
Proof.
  intros Hwg. unfold Destroy.
  rewrite (bind_Ok _ _ _ _ _ (CloseListener_run w)).
  unfold select_done, close_done, wg_Wait. run.
  destruct (done (nr w)) eqn:Hd; run; rewrite ?Hd; run;
    rewrite decide_False by done; cbn;
    (eexists; split; [reflexivity|]; cbn; rewrite ?app_nil_r, <- ?app_assoc; done).
Qed.

End Loops.

(** ** The listing of the wildcard interest *)

Section Listing.
Context `{D : Deps} {E : Type} `{Env : Environment E}.

(** The category prefix of a listed name. *)
Definition realCategory (dom : string) : string :=
  hd "" (GoStrings.Split dom NacosServiceNameSeparator).

(** How often a listed name is taken: once for each requested category
    equal to its prefix, and never when it holds no separator. *)
Definition taken (categories : list string) (dom : string) : nat :=
  if GoStrings.Contains dom NacosServiceNameSeparator
  then length (filter (fun item => item = realCategory dom) categories)
  else 0%nat.

Lemma selectServiceNames_cons (categories doms : list string) (dom : string) :
  selectServiceNames categories (dom :: doms)
  = replicate (taken categories dom) dom ++ selectServiceNames categories doms.
Proof.
  unfold selectServiceNames at 1. cbn [flat_map]. fold (selectServiceNames categories doms).
  f_equal. unfold taken, realCategory.
  destruct (GoStrings.Contains dom NacosServiceNameSeparator); [|done].
  induction categories as [|item categories IH]; [done|].
  cbn [flat_map]. rewrite IH, filter_cons. by case_decide.
Qed.

Lemma filter_absent (x : string) (l : list string) :
  x ∉ l → filter (fun item => item = x) l = [].
Proof.
  induction l as [|y l IH]; [done|]. rewrite not_elem_of_cons. intros [Hne Hnotin].
  rewrite filter_cons, decide_False by done. by apply IH.
Qed.

Lemma NoDup_taken (categories : list string) (dom : string) :
  NoDup categories → (taken categories dom ≤ 1)%nat.
Proof.
  intros Hnd. unfold taken. destruct (GoStrings.Contains _ _); [|lia].
  induction Hnd as [|item categories Hnotin _ IH]; [cbn; lia|].
  rewrite filter_cons. case_decide as Heq; [|done]. cbn.
  rewrite filter_absent by (by rewrite <- Heq). cbn. lia.
Qed.

Lemma selectServiceNames_taken (categories doms : list string) :
  selectServiceNames categories doms
  = flat_map (fun dom => replicate (taken categories dom) dom) doms.
Proof.
  induction doms as [|dom doms IH]; [done|].
  by rewrite selectServiceNames_cons, IH.
Qed.

Lemma selectServiceNames_sublist (categories doms : list string) :
  NoDup categories → selectServiceNames categories doms `sublist_of` doms.
Proof.
  intros Hnd. induction doms as [|dom doms IH]; [done|].
  rewrite selectServiceNames_cons.
  pose proof (NoDup_taken categories dom Hnd) as Hle.
  destruct (taken categories dom) as [|[|k]]; [|by constructor|lia].
  by apply sublist_cons.
Qed.

(** The names getAllSubscribeServiceNames returns, with a client at hand: on
    a listing error none, with the error, after an error line; otherwise the
    listed names in the order of the listing, each taken once for every
    requested category equal to its prefix (so twice when the category is
    requested twice) and never when it holds no separator; when no category
    is requested twice, the names are a subsequence of the listing. *)
Theorem getAllSubscribeServiceNames_order (url : URLRef) (w : World E) :
  clientOf (namingClient (nr w)) ≠ None →
  let reply := GetAllServicesInfo (listingParam w) (env w) in
  let categories :=
    GoStrings.Split (GetParam (heap w url) CategoryKey DefaultCategory) CommaSeparator in
  ∃ names w', getAllSubscribeServiceNames url w = Ok (names, reply.1.2) w' ∧
    nr w' = nr w ∧ listenerCache w' = listenerCache w ∧
    ga_PageNo (listingParam w) = 1 ∧ ga_PageSize (listingParam w) = 2 ^ 31 - 1 ∧
    match reply.1.2 with
    | Some e =>
        names = [] ∧
        trace w' = trace w ++ [CallGetAllServicesInfo (listingParam w);
                               Log LError "query services error: %v" [ArgError (Some e)]]
    | None =>
        trace w' = trace w ++ [CallGetAllServicesInfo (listingParam w)] ∧
        names = flat_map (fun dom => replicate (taken categories dom) dom) (Doms reply.1.1) ∧
        (NoDup categories → names `sublist_of` Doms reply.1.1)
    end.
Proof.
  intros Hclient. cbn zeta.
  pose proof (getAllSubscribeServiceNames_run url w Hclient) as Hrun. cbn zeta in Hrun.
  destruct (GetAllServicesInfo (listingParam w) (env w)) as [[services [e|]] e'];
    cbn in Hrun |- *; eexists _, _; (split; [exact Hrun|]); cbn.
  - repeat split; done.
  - split; [done|]. split; [done|]. split; [done|]. split; [done|]. split; [done|].
    split; [apply selectServiceNames_taken|apply selectServiceNames_sublist].
Qed.

End Listing.

(** ** UnSubscribe, LoadSubscribeInstances and the constructor *)

Section QueryProperties.
Context `{D : Deps} `{Q : QueryDeps} {E : Type} `{Env : Environment E} `{Dir : !Directory E}.

(** UnSubscribe looks the listener up under name+group. Without one it
    returns nil and calls nothing. With one it sends the unsubscription with
    that listener's callback and returns nil, or, on any backend error, one
    and the same descriptive error; the listener stays cached either way.
    With a listener cached and no client it panics. *)
Theorem UnSubscribe_cases (url : URLRef) (n : NotifyListener) (w : World E) :
  let name := getSubscribeName (heap w url) in
  let group := GetParam (heap w (nrURL (nr w))) RegistryGroupKey defaultGroup in
  (listenerCache w !! (name +:+ group) = None → UnSubscribe url n w = Ok None w) ∧
  (∀ l, listenerCache w !! (name +:+ group) = Some l →
     clientOf (namingClient (nr w)) ≠ None →
     let reply := SdkUnsubscribe (mkSubscribeParam name group, l) (env w) in
     UnSubscribe url n w =
       Ok (match reply.1 with
           | Some _ => Some (errorString ("UnSubscribe [" +:+ name +:+ "] to nacos failed"))
           | None => None
           end)
          (mkWorld (nr w) (listenerCache w) (heap w) reply.2 (trace w))) ∧
  (∀ l, listenerCache w !! (name +:+ group) = Some l →
     clientOf (namingClient (nr w)) = None →
     UnSubscribe url n w = Panic "nil pointer dereference" w).
Proof.
  cbn zeta. unfold UnSubscribe, createSubscribeParam. run.
  split; [|split].
  - intros ->. cbn. by destruct w.
  - intros l -> Hclient. cbn. unfold clientOf in Hclient.
    destruct (namingClient (nr w)) as [nc|]; [|done]. cbn in *.
    destruct (Client nc); [|done]. cbn.
    destruct (SdkUnsubscribe _ (env w)) as [[e|] e']; done.
  - intros l -> Hclient. cbn. unfold clientOf in Hclient.
    destruct (namingClient (nr w)) as [nc|]; cbn in *; [rewrite Hclient|]; cbn;
      by destruct w.
Qed.

(** The events LoadSubscribeInstances hands over for some instances. *)
Definition instanceEvents (notify : NotifyListener) (instances : list SdkInstance)
  : list Effect :=
  map (fun u => Notify notify (mkServiceEvent EventTypeAdd u)) (omap generateUrl instances).

Lemma notifyInstance_run (notify : NotifyListener) (i : SdkInstance) (w : World E) :
  notifyInstance notify i w
  = Ok tt (mkWorld (nr w) (listenerCache w) (heap w) (env w)
             (trace w ++ instanceEvents notify [i])).
Proof.
  unfold notifyInstance, instanceEvents. cbn [omap].
  destruct (generateUrl i) as [u|] eqn:Hu; run; rewrite Hu; cbn.
  - done.
  - rewrite app_nil_r. by destruct w.
Qed.

Lemma notifyInstances_run (notify : NotifyListener) (instances : list SdkInstance)
  (w : World E) :
  forEach instances (notifyInstance notify) w
  = Ok tt (mkWorld (nr w) (listenerCache w) (heap w) (env w)
             (trace w ++ instanceEvents notify instances)).
Proof.
  revert w. induction instances as [|i instances IH]; intros w.
  { cbn. unfold instanceEvents. cbn. rewrite app_nil_r. by destruct w. }
  cbn [forEach]. rewrite (bind_Ok _ _ _ _ _ (notifyInstance_run notify i w)).
  rewrite IH. cbn. rewrite <- app_assoc. do 2 f_equal.
  unfold instanceEvents. cbn. by destruct (generateUrl i).
Qed.

(** LoadSubscribeInstances, with a client at hand, queries the instances of
    the interest's service under the group of the registry URL. On a backend
    error it notifies nothing and returns an error that quotes the service,
    the group and the backend's message; otherwise it returns nil, having
    handed the sink one Add event for every instance generateUrl takes, in
    the order of the reply, and nothing for the others. The registry and the
    listener cache are as they were. *)
Theorem LoadSubscribeInstances_notifies (url : URLRef) (notify : NotifyListener)
  (w : World E) :
  clientOf (namingClient (nr w)) ≠ None →
  let name := getSubscribeName (heap w url) in
  let group := GetParam (heap w (nrURL (nr w))) RegistryGroupKey defaultGroup in
  let reply := SelectAllInstances (mkSelectAllInstancesParam name group) (env w) in
  LoadSubscribeInstances url notify w =
    match reply.1 with
    | (_, Some e) =>
        Ok (Some (errorString
                    ("could not query the instances for serviceName=" +:+ name
                     +:+ ",groupName=" +:+ group +:+ ",error=" +:+ Error e)))
           (mkWorld (nr w) (listenerCache w) (heap w) reply.2 (trace w))
    | (instances, None) =>
        Ok None
           (mkWorld (nr w) (listenerCache w) (heap w) reply.2
              (trace w ++ instanceEvents notify instances))
    end.
Proof.
  intros Hclient. cbn zeta. unfold LoadSubscribeInstances, GetURL. run.
  unfold clientOf in Hclient.
  destruct (namingClient (nr w)) as [nc|]; [|done]. cbn in *.
  destruct (Client nc); [|done]. cbn.
  destruct (SelectAllInstances _ (env w)) as [[instances [e|]] e']; cbn; [done|].
  by rewrite notifyInstances_run.
Qed.

(** The URL after the key transfer of the constructor. *)
Definition transferred (url : URLRef) (u : URL) : URL :=
  let u := SetParam NacosNamespaceID (GetParam u RegistryNamespaceKey "") u in
  let u := SetParam NacosUsername (Username url) u in
  let u := SetParam NacosPassword (Password url) u in
  let u := SetParam NacosAccessKey (GetParam u RegistryAccessKey "") u in
  let u := SetParam NacosSecretKey (GetParam u RegistrySecretKey "") u in
  let u := SetParam NacosTimeout (GetParam u RegistryTimeoutKey DefaultRegTimeout) u in
  SetParam NacosGroupKey (GetParam u RegistryGroupKey defaultGroup) u.

Lemma GetParam_SetParam (key value d : string) (u : URL) :
  GetParam (SetParam key value u) key d = if decide (value = "") then d else value.
Proof. unfold GetParam, SetParam. cbn. by rewrite lookup_insert_eq. Qed.

Lemma GetParam_SetParam_ne (key key' value d : string) (u : URL) :
  key ≠ key' → GetParam (SetParam key value u) key' d = GetParam u key' d.
Proof. intros Hne. unfold GetParam, SetParam. cbn. by rewrite lookup_insert_ne. Qed.

Lemma GetParam_empty (u : URL) (key d : string) : GetParam u key d = "" → d = "".
Proof.
  unfold GetParam. destruct (params u !! key) as [v|]; [|done]. by case_decide.
Qed.

(** Setting one key to what another reads leaves the two reading the same. *)
Lemma GetParam_copied (key key' d : string) (u : URL) :
  GetParam (SetParam key (GetParam u key' d) u) key d = GetParam u key' d ∧
  GetParam (SetParam key (GetParam u key' d) u) key' d = GetParam u key' d.
Proof.
  assert (Hkey : GetParam (SetParam key (GetParam u key' d) u) key d = GetParam u key' d).
  { rewrite GetParam_SetParam. case_decide as Hempty; [|done].
    rewrite Hempty. by apply GetParam_empty in Hempty. }
  split; [done|].
  destruct (decide (key = key')) as [<-|Hne]; [done|].
  by rewrite GetParam_SetParam_ne.
Qed.

(** The key transfer leaves the two group parameters reading the same. *)
Lemma transferred_group (url : URLRef) (u : URL) :
  GetParam (transferred url u) NacosGroupKey defaultGroup
  = GetParam (transferred url u) RegistryGroupKey defaultGroup.
Proof.
  unfold transferred. cbn zeta.
  set (u6 := SetParam NacosTimeout _ _).
  destruct (GetParam_copied NacosGroupKey RegistryGroupKey defaultGroup u6) as [-> ->].
  done.
Qed.

(** The constructor rewrites the URL it is given (the key transfer) before
    it asks for the client, so also when that fails; on success the registry
    it returns has that URL, the client, an empty ledger, an open done
    channel and no pump. On the rewritten URL the group Register and
    UnRegister use and the group the subscriptions use read the same; it is
    the registry group of the URL as given when no key of the transfer is
    the registry-group key. *)
Theorem newNacosRegistry_builds (url : URLRef) (w : World E) :
  let u' := transferred url (heap w url) in
  let reply := NewNacosClientByURL u' (env w) in
  (∃ w',
     newNacosRegistry url w =
       match reply.1 with
       | (_, Some e) => Ok (None, Some e) w'
       | (c, None) =>
           Ok (Some (mkRegistry url c [] false
                       (mkAvailabilityCache false GoTime.zeroTime) 0), None) w'
       end ∧
     heap w' url = u' ∧ (∀ q, q ≠ url → heap w' q = heap w q) ∧
     nr w' = nr w ∧ listenerCache w' = listenerCache w ∧ env w' = reply.2 ∧
     trace w' = trace w ++ [Log LInfo "[Nacos Registry] New nacos registry with url = %+v"
                              [ArgURL url]]) ∧
  GetParam u' NacosGroupKey defaultGroup = GetParam u' RegistryGroupKey defaultGroup ∧
  (RegistryGroupKey ∉ [NacosNamespaceID; NacosUsername; NacosPassword; NacosAccessKey;
                       NacosSecretKey; NacosTimeout] →
   GetParam u' NacosGroupKey defaultGroup
   = GetParam (heap w url) RegistryGroupKey defaultGroup).
Proof.
  cbn zeta. split; [|split].
  - unfold newNacosRegistry. run. rewrite !decide_True by done.
    fold (transferred url (heap w url)).
    destruct (NewNacosClientByURL (transferred url (heap w url)) (env w))
      as [[c [e|]] e']; cbn;
      (eexists; split; [reflexivity|]; cbn; rewrite decide_True by done;
       split; [done|]; split; [|done]; intros q Hq; by rewrite !decide_False by done).
  - apply transferred_group.
  - intros Hne. rewrite !not_elem_of_cons in Hne. destruct Hne as (?&?&?&?&?&?&_).
    unfold transferred. cbn zeta.
    set (u6 := SetParam NacosTimeout _ _).
    destruct (GetParam_copied NacosGroupKey RegistryGroupKey defaultGroup u6) as [-> _].
    subst u6. by rewrite !GetParam_SetParam_ne by done.
Qed.

End QueryProperties.

(** ** Scenarios for the rest of the file *)
Module Cases.
Import Sample Scenarios.

(** UnRegister against an accepting backend: one deregistration, for the
    identity of the URL, and a ledger as before. *)
Lemma UnRegister_reports_witness :
  ∃ w', UnRegister 1%nat fresh = Ok None w' ∧
    deregistered (trace w')
      = [mkDeregisterInstanceParam "10.0.0.1" 20880 "providers:com.foo.Bar:1.0:g1"
           "DEFAULT_GROUP" true] ∧
    registryUrls (nr w') = [].
Proof.
  destruct (UnRegister_reports 1%nat fresh "providers:com.foo.Bar:1.0:g1")
    as (w' & Htrace & Hnr & _ & Hrun); [reflexivity|discriminate|].
  exists w'. split; [exact Hrun|]. rewrite Htrace, Hnr. split; reflexivity.
Defined.

(** A URL whose role is 7, outside the four nodes. *)
Definition strangeRole : World Backend :=
  world (accepting []) [urlWith [("interface", "com.foo.Bar"); ("registry.role", "7")]].

Lemma unknown_role_panics_witness :
  (∃ w', Register 1%nat strangeRole = Panic "index out of range" w' ∧ trace w' = []) ∧
  UnRegister 1%nat strangeRole = Panic "index out of range" strangeRole.
Proof.
  destruct (unknown_role_panics 1%nat strangeRole) as [(w' & Hrun & Htrace & _) Hun].
  - right. by vm_compute.
  - split; [|exact Hun]. exists w'. split; [exact Hrun|exact Htrace].
Defined.

(** A URL with a parameter named like the path entry and one of its own. *)
Definition shadowing : World Backend :=
  world (accepting []) [urlWith [("interface", "com.foo.Bar"); ("path", "/mine");
                                  ("side", "provider")]].

Lemma createRegisterParam_record_witness :
  ∃ p w', createRegisterParam 1%nat "name" "group" shadowing = Ok p w' ∧
    ri_Metadata p !! "path" = Some "/com.foo.Bar" ∧
    ri_Metadata p !! "side" = Some "provider" ∧
    ri_Metadata p !! "methods" = Some "hello" ∧
    ri_Ip p = "10.0.0.1" ∧ ri_Port p = 20880.
Proof.
  destruct (createRegisterParam_record 1%nat "name" "group" shadowing "providers")
    as (p & w' & Hrun & _ & _ & _ & _ & _ & Hip & Hport & _ & Hmethods & Hpath & _ & _
        & Hother & _); [vm_compute; reflexivity|].
  exists p, w'. split; [exact Hrun|].
  split; [apply Hpath; discriminate|].
  split. { rewrite Hother; [reflexivity|]. rewrite !not_elem_of_cons.
           repeat split; try discriminate. apply not_elem_of_nil. }
  split; [exact Hmethods|]. split; [exact Hip|exact Hport].
Defined.

(** Register and then UnRegister of the sample service: both name
    10.0.0.1:20880 under the same service and group. *)
Lemma Register_UnRegister_same_instance_witness :
  ∃ p w1 d w2, Register 1%nat fresh = Ok None w1 ∧
    registrations (trace w1) = [p] ∧
    UnRegister 1%nat w1 = Ok None w2 ∧
    deregistered (trace w2) = [d] ∧
    (di_Ip d, di_Port d, di_ServiceName d, di_GroupName d)
      = (ri_Ip p, ri_Port p, ri_ServiceName p, ri_GroupName p) ∧
    registryUrls (nr w2) = [1%nat].
Proof.
  destruct (Register_UnRegister_same_instance 1%nat fresh "providers:com.foo.Bar:1.0:g1")
    as (err & p & w1 & err' & d & w2 & Hreg & Hsent & Hun & Htrace & Hip & Hport & Hsn & Hgn
        & _ & Hledger); [reflexivity|discriminate|reflexivity|].
  pose proof Hreg as Hcalc. vm_compute in Hcalc. injection Hcalc as <- <-.
  pose proof Hun as Hcalc. vm_compute in Hcalc. injection Hcalc as <- _.
  eexists p, _, d, w2. split; [exact Hreg|]. split; [exact Hsent|]. split; [exact Hun|].
  split. { rewrite Htrace, deregistered_app. reflexivity. }
  split; [by rewrite Hip, Hport, Hsn, Hgn|]. rewrite Hledger. reflexivity.
Defined.

(** On the registry shut down: no availability, no subscription, and a
    Subscribe that returns nil. *)
Lemma closed_registry_is_inert_witness :
  IsAvailable shutDown = Ok false shutDown ∧
  (∃ w', subscribe providersBar consumer shutDown
         = Ok (Some (errorString "nacosRegistry is not available.")) w' ∧
         subscribedNames (trace w') = []) ∧
  scheduledLookUp 1 0%nat consumer shutDown = Ok tt shutDown.
Proof.
  destruct (closed_registry_is_inert shutDown) as (Hav & Hsub & _ & Hlook & _);
    [reflexivity|].
  split; [exact Hav|]. split; [|apply Hlook].
  eexists. split; [apply Hsub; discriminate|reflexivity].
Defined.

(** On the registry shut down, whose client is nil: Register panics. *)
Lemma nil_client_panics_witness :
  ∃ w', Register 0%nat shutDown = Panic "nil pointer dereference" w' ∧
    registrations (trace w') = [] ∧ registryUrls (nr w') = [].
Proof.
  destruct (nil_client_panics shutDown) as (Hreg & _); [reflexivity|].
  destruct (Hreg 0%nat) as (w' & Hrun & Hsent & Hnr); [discriminate|].
  exists w'. split; [exact Hrun|]. rewrite Hsent, Hnr. split; reflexivity.
Defined.

(** Two passes of the scheduled lookup: two sleeps of twenty seconds. *)
Lemma scheduledLookUp_passes_witness :
  ∃ w', scheduledLookUp 2 1%nat consumer watching = Unfinished w' ∧
    sleeps (trace w') = [20000000000; 20000000000].
Proof.
  destruct (scheduledLookUp_passes 2 1%nat consumer watching)
    as (passes & wk & w' & new & _ & Htrace & Hsleeps & _ & [(Hrun & _)|(Hrun & -> & _)]);
    [discriminate|..].
  - vm_compute in Hrun. discriminate.
  - exists w'. split; [exact Hrun|]. rewrite Htrace. exact Hsleeps.
Defined.

(** Destroy with the pump of [streaming] still running. *)
Lemma Destroy_waits_for_pumps_witness :
  ∃ w', Destroy streaming = Blocked w' ∧ done (nr w') = true ∧
    trace w' = [CloseDone].
Proof.
  destruct (Destroy_waits_for_pumps streaming)
    as (w' & Hrun & Hdone & _ & _ & _ & _ & Htrace); [discriminate|].
  exists w'. split; [exact Hrun|]. split; [exact Hdone|]. rewrite Htrace. reflexivity.
Defined.

(** A wildcard interest that asks for the providers category twice. *)
Definition twice : World Backend :=
  mkWorld newRegistry ∅
    (fun p => nth p [urlWith []; urlWith [("category", "providers,providers")]] noURL)
    (accepting [providersBar; "plain"; consumersBar]) [].

Lemma getAllSubscribeServiceNames_order_witness :
  (∃ w', getAllSubscribeServiceNames 1%nat watching = Ok ([providersBar], None) w') ∧
  (∃ w', getAllSubscribeServiceNames 1%nat twice
         = Ok ([providersBar; providersBar], None) w').
Proof.
  split.
  - destruct (getAllSubscribeServiceNames_order 1%nat watching)
      as (names & w' & Hrun & _ & _ & _ & _ & Hmatch); [discriminate|].
    vm_compute in Hmatch. destruct Hmatch as (_ & -> & _). exists w'. exact Hrun.
  - destruct (getAllSubscribeServiceNames_order 1%nat twice)
      as (names & w' & Hrun & _ & _ & _ & _ & Hmatch); [discriminate|].
    vm_compute in Hmatch. destruct Hmatch as (_ & -> & _). exists w'. exact Hrun.
Defined.

(** Sample keys of the constructor, and instances known by address and a
    port, of which generateUrl takes those with a port. *)
#[export] Instance queryDeps : QueryDeps := {|
  NacosNamespaceID := "nacos.namespaceId";
  RegistryNamespaceKey := "registry.namespace";
  NacosUsername := "nacos.username";
  NacosPassword := "nacos.password";
  NacosAccessKey := "nacos.access";
  RegistryAccessKey := "registry.accesskey";
  NacosSecretKey := "nacos.secret";
  RegistrySecretKey := "registry.secretkey";
  NacosTimeout := "nacos.timeout";
  RegistryTimeoutKey := "registry.timeout";
  DefaultRegTimeout := "5s";
  Username := fun _ => "nacos";
  Password := fun _ => "secret";
  SdkInstance := string * Z;
  generateUrl := fun i =>
    if i.2 <=? 0 then None
    else Some (mkURL "dubbo" "/com.foo.Bar" i.1 (itoa i.2) [] ∅)
|}.

(** A scripted backend with the replies of the three further calls. *)
Record Naming := mkNaming {
  core : Backend;
  unsubscribeReply : option error;
  instancesReply : list (string * Z) * option error;
  clientReply : option NacosNamingClient * option error
}.

Definition onCore (f : Backend → Backend) (e : Naming) : Naming :=
  mkNaming (f (core e)) (unsubscribeReply e) (instancesReply e) (clientReply e).

Definition lift {A} (f : Backend → A * Backend) (e : Naming) : A * Naming :=
  ((f (core e)).1, onCore (fun _ => (f (core e)).2) e).

#[export] Instance naming : Environment Naming := {|
  RegisterInstance := fun p => lift (RegisterInstance p);
  DeregisterInstance := fun p => lift (DeregisterInstance p);
  GetAllServicesInfo := fun p => lift (GetAllServicesInfo p);
  SdkSubscribe := fun p => lift (SdkSubscribe p);
  CloseClient := onCore CloseClient;
  Next := fun l => lift (Next l);
  CloseOf := fun l => onCore (CloseOf l);
  Now := lift Now
|}.

#[export] Instance directory : Directory Naming := {|
  SdkUnsubscribe := fun _ e => (unsubscribeReply e, e);
  SelectAllInstances := fun _ e => (instancesReply e, e);
  NewNacosClientByURL := fun _ e => (clientReply e, e)
|}.

(** A consumer of the sample service on a registry whose backend knows two
    instances with a port and one without. *)
Definition resolving : World Naming :=
  mkWorld newRegistry ∅ (fun p => nth p [urlWith []; wantsBar] noURL)
    (mkNaming (accepting []) None
       ([("10.0.0.1", 20880); ("10.0.0.2", 0); ("10.0.0.3", 20881)], None)
       (Some (mkNamingClient (Some SdkClient)), None))
    [].

Lemma LoadSubscribeInstances_notifies_witness :
  ∃ w', LoadSubscribeInstances 1%nat consumer resolving = Ok None w' ∧
    map (fun r => Ip (Service r.2)) (notifiedEvents (trace w')) = ["10.0.0.1"; "10.0.0.3"] ∧
    map (fun r => Action r.2) (notifiedEvents (trace w')) = [EventTypeAdd; EventTypeAdd].
Proof.
  pose proof (LoadSubscribeInstances_notifies 1%nat consumer resolving) as Hrun.
  eexists. split; [apply Hrun; discriminate|]. split; reflexivity.
Defined.

End Cases.


(** * The listenable condition router (package [condition],
    listenable_router.go) *)
Module ListenableRouter.

(** The invokers and invocations the router passes on, and what a condition
    router is made of besides the two flags this file writes. *)
Class RouterTypes := {
  Invoker : Type;
  Invocation : Type;
  Matcher : Type
}.

Definition ROUTER_NAME : string := "LISTENABLE_ROUTER".
Definition RULE_SUFFIX : string := ".condition-router".

(** [^int64(0)]: every bit set. *)
Definition DEFAULT_PRIORITY : Z := Z.lnot 0.

(** The fields of [RouterRule] and [ConditionRouter] this file reads and
    writes. *)
Record RouterRule := mkRouterRule {
  Valid : bool;
  Force : bool;
  Enabled : bool;
  Conditions : list string
}.

Record ConditionRouter `{T : RouterTypes} := mkConditionRouter {
  matcher : Matcher;
  cr_Force : bool;
  cr_enabled : bool
}.
Arguments mkConditionRouter {T} matcher cr_Force cr_enabled.
Arguments matcher {T} c.
Arguments cr_Force {T} c.
Arguments cr_enabled {T} c.

(** What the file takes from the rest of its package and from package
    config_center: the parser of rules (the rule may be nil), the
    constructor of a condition router from one condition, the [Route] method
    of a condition router, and the default group of the config centre. *)
Class RouterDeps `{T : RouterTypes} := {
  Parse : string -> option RouterRule * option error;
  NewConditionRouterWithRule : string -> ConditionRouter + error;
  cr_Route : ConditionRouter -> list Invoker -> URL -> Invocation -> list Invoker;
  DEFAULT_GROUP : string
}.

Section Router.
Context `{T : RouterTypes} `{R : !RouterDeps}.

(** A value of type [interface{}]: a string, or something else. *)
Inductive Any := AnyString (s : string) | AnyOther (tag : nat).

Record ConfigChangeEvent := mkConfigChangeEvent {
  Key : string;
  Value : Any;
  ConfigType : EventType
}.

Record listenableRouter := mkListenableRouter {
  conditionRouters : list ConditionRouter;
  routerRule : option RouterRule;
  url : URLRef;
  force : bool;
  priority : Z
}.

Inductive LogValue :=
| VEventType (t : EventType)
| VAny (v : Any)
| VError (e : error)
| VString (s : string).

Record LogLine := mkLogLine { level : LogLevel; format : string; values : list LogValue }.

(** A method of the router: the router after it and the lines it logged. *)
Definition Step : Type := listenableRouter -> listenableRouter * list LogLine.

Definition set_rules (routers : list ConditionRouter) (rule : option RouterRule)
  (l : listenableRouter) : listenableRouter :=
  mkListenableRouter routers rule (url l) (force l) (priority l).

(** The loop of generateConditions: the routers appended and the lines
    logged for the conditions that give no router. *)
Fixpoint appendConditions (rule : RouterRule) (conditions : list string)
  (routers : list ConditionRouter) (logs : list LogLine)
  : list ConditionRouter * list LogLine :=
  match conditions with
  | [] => (routers, logs)
  | c :: rest =>
      match NewConditionRouterWithRule c with
      | inr e =>
          appendConditions rule rest routers
            (logs ++ [mkLogLine LError
                        "Create condition router with rule fail,raw rule:[%s] " [VString c]])
      | inl router =>
          let router := mkConditionRouter (matcher router) (Force rule) (Enabled rule) in
          appendConditions rule rest (routers ++ [router]) logs
      end
  end.

Definition generateConditions (rule : option RouterRule) : Step := fun l =>
  match rule with
  | None => (l, [])
  | Some rule =>
      if negb (Valid rule) then (l, [])
      else
        let '(routers, logs) := appendConditions rule (Conditions rule) [] [] in
        (set_rules routers (Some rule) l, logs)
  end.

Definition Process (event : ConfigChangeEvent) : Step := fun l =>
  let begin :=
    mkLogLine LInfo
      "Notification of condition rule, change type is:[%s] , raw rule is:[%v]"
      [VEventType (ConfigType event); VAny (Value event)] in
  match ConfigType event with
  | EventTypeDel => (set_rules [] None l, [begin])
  | _ =>
      match Value event with
      | AnyOther _ =>
          (l, [begin; mkLogLine LError "Convert event content fail,raw content:[%s] "
                        [VAny (Value event)]])
      | AnyString content =>
          let '(routerRule, err) := Parse content in
          match err with
          | Some e =>
              (l, [begin; mkLogLine LError "Parse condition router rule fail,error:[%s] "
                            [VError e]])
          | None =>
              let '(l', logs) := generateConditions routerRule l in
              (l', begin :: logs)
          end
      end
  end.

Definition Route (l : listenableRouter) (invokers : list Invoker) (url : URL)
  (invocation : Invocation) : list Invoker :=
  if decide (length invokers = 0%nat ∨ length (conditionRouters l) = 0%nat) then invokers
  else foldl (fun invokers r => cr_Route r invokers url invocation) invokers
         (conditionRouters l).

Definition Priority (l : listenableRouter) : Z := priority l.

(** The dynamic configuration of the config centre: whether there is one,
    and the rule it holds for a key and a group, with the error of the
    lookup. *)
Record ConfigCentre := mkConfigCentre {
  dynamicConfiguration : bool;
  GetRule : string -> string -> string * option error
}.

(** [%v] of an error that may be nil. *)
Definition showError (err : option error) : string :=
  match err with Some e => Error e | None => "<nil>" end.

(** [newListenableRouter]: the router or the error, the keys under which the
    router was added as a listener, and the lines logged. *)
Definition newListenableRouter (centre : ConfigCentre) (url : URLRef) (ruleKey : string)
  : (option listenableRouter * option error) * list string * list LogLine :=
  if decide (ruleKey = "") then
    ((None, Some (errorString
                    "newListenableRouter ruleKey is nil, can't create Listenable router")),
     [], [])
  else
    let l := mkListenableRouter [] None url false DEFAULT_PRIORITY in
    let routerKey := ruleKey +:+ RULE_SUFFIX in
    if negb (dynamicConfiguration centre) then
      ((None, Some (errorString
                      ("get dynamicConfiguration fail, dynamicConfiguration is nil, "
                       +:+ "init config center plugin please"))),
       [], [])
    else
      let '(rule, err) := GetRule centre routerKey DEFAULT_GROUP in
      if decide (String.length rule = 0%nat ∨ err ≠ None) then
        ((None, Some (errorString ("get rule fail, config rule{" +:+ rule +:+ "},  error{"
                                   +:+ showError err +:+ "}"))),
         [routerKey], [])
      else
        let '(l', logs) :=
          Process (mkConfigChangeEvent routerKey (AnyString rule) EventTypeUpdate) l in
        ((Some l', None), [routerKey], logs).

End Router.

Section RouterProperties.
Context `{T : RouterTypes} `{R : !RouterDeps}.

(** The condition routers of a rule: one for each condition that gives a
    router, in the order of the conditions, with the flags of the rule. *)
Definition routersOf (rule : RouterRule) : list ConditionRouter :=
  omap (fun c => match NewConditionRouterWithRule c with
                 | inl r => Some (mkConditionRouter (matcher r) (Force rule) (Enabled rule))
                 | inr _ => None
                 end) (Conditions rule).

Lemma appendConditions_routers (rule : RouterRule) (conditions : list string)
  (routers : list ConditionRouter) (logs : list LogLine) :
  (appendConditions rule conditions routers logs).1
  = routers ++ omap (fun c => match NewConditionRouterWithRule c with
                              | inl r => Some (mkConditionRouter (matcher r) (Force rule)
                                                 (Enabled rule))
                              | inr _ => None
                              end) conditions.
Proof.
  revert routers logs. induction conditions as [|c rest IH]; intros routers logs.
  { cbn. by rewrite app_nil_r. }
  cbn [appendConditions omap list_omap].
  destruct (NewConditionRouterWithRule c) as [r|e]; rewrite IH; [|done].
  by rewrite <- app_assoc.
Qed.

Lemma generateConditions_valid (rule : RouterRule) (l : listenableRouter) :
  Valid rule = true →
  (generateConditions (Some rule) l).1 = set_rules (routersOf rule) (Some rule) l.
Proof.
  intros Hvalid. unfold generateConditions. rewrite Hvalid. cbn [negb].
  pose proof (appendConditions_routers rule (Conditions rule) [] []) as Hrouters.
  destruct (appendConditions rule (Conditions rule) [] []) as [routers logs].
  cbn in Hrouters |- *. by rewrite Hrouters.
Qed.

(** What an event does to the router. A delete event clears the rule and the
    routers. Any other event whose value is no string, or does not parse, or
    parses to no rule or to a rule that is not valid, leaves the router as
    it was, so the rule in force stays in force. Any other event with a
    valid rule installs the rule and exactly its routers: one per condition
    that gives a router, in order, with the Force and Enabled flags of the
    rule. The URL, the force flag and the priority never change. *)
Theorem Process_cases (event : ConfigChangeEvent) (l : listenableRouter) :
  let l' := (Process event l).1 in
  url l' = url l ∧ force l' = force l ∧ priority l' = priority l ∧
  match ConfigType event, Value event with
  | EventTypeDel, _ => routerRule l' = None ∧ conditionRouters l' = []
  | _, AnyOther _ => l' = l
  | _, AnyString content =>
      match Parse content with
      | (Some rule, None) =>
          if Valid rule
          then routerRule l' = Some rule ∧ conditionRouters l' = routersOf rule
          else l' = l
      | _ => l' = l
      end
  end.
Proof.
  cbn zeta. unfold Process.
  assert (Hstring : ∀ content,
    let l' := (let '(routerRule, err) := Parse content in
               match err with
               | Some e =>
                   (l, [mkLogLine LInfo
                          "Notification of condition rule, change type is:[%s] , raw rule is:[%v]"
                          [VEventType (ConfigType event); VAny (Value event)];
                        mkLogLine LError "Parse condition router rule fail,error:[%s] "
                          [VError e]])
               | None =>
                   let '(l', logs) := generateConditions routerRule l in
                   (l', mkLogLine LInfo
                          "Notification of condition rule, change type is:[%s] , raw rule is:[%v]"
                          [VEventType (ConfigType event); VAny (Value event)] :: logs)
               end).1 in
    url l' = url l ∧ force l' = force l ∧ priority l' = priority l ∧
    match Parse content with
    | (Some rule, None) =>
        if Valid rule
        then routerRule l' = Some rule ∧ conditionRouters l' = routersOf rule
        else l' = l
    | _ => l' = l
    end).
  { intros content. cbn zeta.
    destruct (Parse content) as [[rule|] [e|]]; try done.
    destruct (Valid rule) eqn:Hvalid.
    - pose proof (generateConditions_valid rule l Hvalid) as Hgen.
      destruct (generateConditions (Some rule) l) as [l1 logs]. cbn in Hgen |- *.
      by rewrite Hgen.
    - unfold generateConditions. by rewrite Hvalid. }
  destruct (ConfigType event); [|done|];
    (destruct (Value event) as [content|tag]; [apply Hstring|done]).
Qed.


(** A router is coherent when it has no routers without a rule, and with a
    rule that rule is valid and the routers are exactly its routers. *)
Definition coherent (l : listenableRouter) : Prop :=
  match routerRule l with
  | None => conditionRouters l = []
  | Some rule => Valid rule = true ∧ conditionRouters l = routersOf rule
  end.

Lemma Process_frame (event : ConfigChangeEvent) (l : listenableRouter) :
  url (Process event l).1 = url l ∧ force (Process event l).1 = force l ∧
  priority (Process event l).1 = priority l.
Proof.
  unfold Process.
  destruct (ConfigType event), (Value event) as [content|tag]; try done;
    (destruct (Parse content) as [[rule|] [e|]]; try done;
     unfold generateConditions; destruct (negb (Valid rule)); [done|];
     by destruct (appendConditions rule (Conditions rule) [] [])).
Qed.

Lemma Process_coherent (event : ConfigChangeEvent) (l : listenableRouter) :
  coherent l → coherent (Process event l).1.
Proof.
  intros Hl. unfold Process.
  destruct (ConfigType event), (Value event) as [content|tag]; try done;
    (destruct (Parse content) as [[rule|] [e|]]; try done;
     destruct (Valid rule) eqn:Hvalid;
     [ pose proof (generateConditions_valid rule l Hvalid) as Hgen;
       destruct (generateConditions (Some rule) l) as [l1 logs]; cbn in Hgen |- *;
       by rewrite Hgen
     | unfold generateConditions; by rewrite Hvalid ]).
Qed.

Lemma length_routersOf (rule : RouterRule) :
  (length (routersOf rule) ≤ length (Conditions rule))%nat.
Proof.
  unfold routersOf. induction (Conditions rule) as [|c rest IH]; [done|].
  cbn. destruct (NewConditionRouterWithRule c); cbn; lia.
Qed.

Lemma flags_routersOf (rule : RouterRule) :
  Forall (fun r => cr_Force r = Force rule ∧ cr_enabled r = Enabled rule) (routersOf rule).
Proof.
  unfold routersOf. induction (Conditions rule) as [|c rest IH]; [constructor|].
  cbn. destruct (NewConditionRouterWithRule c); [constructor|]; done.
Qed.

(** After any sequence of events on a router that started without rule: the
    router is coherent; so there is no router without a rule, the rule in
    force is valid, every router carries the Force and Enabled flags of that
    rule, and there are no more routers than the rule has conditions. *)
Theorem events_keep_coherent (events : list ConfigChangeEvent) (url : URLRef)
  (force : bool) (priority : Z) :
  let l := foldl (fun l event => (Process event l).1)
             (mkListenableRouter [] None url force priority) events in
  coherent l ∧
  match routerRule l with
  | None => conditionRouters l = []
  | Some rule =>
      Valid rule = true ∧
      Forall (fun r => cr_Force r = Force rule ∧ cr_enabled r = Enabled rule)
        (conditionRouters l) ∧
      (length (conditionRouters l) ≤ length (Conditions rule))%nat
  end.
Proof.
  cbn zeta.
  assert (Hl : coherent (foldl (fun l event => (Process event l).1)
                           (mkListenableRouter [] None url force priority) events)).
  { assert (Hgen : ∀ l0, coherent l0 →
              coherent (foldl (fun l event => (Process event l).1) l0 events)).
    { induction events as [|event events IH]; intros l0 Hl0; [done|].
      cbn [foldl]. apply IH. by apply Process_coherent. }
    by apply Hgen. }
  split; [exact Hl|]. unfold coherent in Hl.
  destruct (routerRule _) as [rule|]; [|done].
  destruct Hl as [Hvalid ->]. split; [done|].
  split; [apply flags_routersOf|apply length_routersOf].
Qed.

(** Route hands back the invokers it is given when there are none or when
    the router has no condition routers, as after a delete event; otherwise
    it passes them through the condition routers in order; and when no
    condition router adds an invoker, what Route returns is a subsequence of
    what it was given. *)
Theorem Route_filters (l : listenableRouter) (invokers : list Invoker) (u : URL)
  (invocation : Invocation) :
  Route l [] u invocation = [] ∧
  (conditionRouters l = [] → Route l invokers u invocation = invokers) ∧
  (∀ event, ConfigType event = EventTypeDel →
            Route (Process event l).1 invokers u invocation = invokers) ∧
  (invokers ≠ [] → conditionRouters l ≠ [] →
   Route l invokers u invocation
   = foldl (fun invokers r => cr_Route r invokers u invocation) invokers
       (conditionRouters l)) ∧
  ((∀ r given, cr_Route r given u invocation `sublist_of` given) →
   Route l invokers u invocation `sublist_of` invokers).
Proof.
  unfold Route. split; [|split; [|split; [|split]]].
  - by rewrite decide_True by (by left).
  - intros ->. by rewrite decide_True by (by right).
  - intros event Hdel. unfold Process. rewrite Hdel. cbn.
    by rewrite decide_True by (by right).
  - intros Hi Hr. rewrite decide_False; [done|].
    intros [H|H]; apply length_zero_iff_nil in H; done.
  - intros Hsub. case_decide as Hempty; [done|]. clear Hempty.
    generalize (conditionRouters l). intros routers. revert invokers.
    induction routers as [|r routers IH]; intros invokers; [done|].
    cbn [foldl]. etrans; [apply IH|apply Hsub].
Qed.

(** The constructor. An empty rule key, or no dynamic configuration, is an
    error and nothing is listened to. Otherwise the router is first added as
    a listener under the rule key with the suffix ".condition-router", and
    then an empty rule or a failed lookup is an error all the same; else the
    router is returned, with priority -1, coherent, in the state the update
    event with the rule leaves it in. *)
Theorem newListenableRouter_cases (centre : ConfigCentre) (url0 : URLRef)
  (ruleKey : string) :
  let routerKey := ruleKey +:+ ".condition-router" in
  let found := GetRule centre routerKey DEFAULT_GROUP in
  let outcome := newListenableRouter centre url0 ruleKey in
  (ruleKey = "" ∨ dynamicConfiguration centre = false →
   outcome.1.1.1 = None ∧ outcome.1.1.2 ≠ None ∧ outcome.1.2 = []) ∧
  (ruleKey ≠ "" → dynamicConfiguration centre = true →
   outcome.1.2 = [routerKey] ∧
   if decide (found.1 = "" ∨ found.2 ≠ None)
   then outcome.1.1.1 = None ∧ outcome.1.1.2 ≠ None
   else ∃ l, outcome.1.1 = (Some l, None) ∧
          l = (Process (mkConfigChangeEvent routerKey (AnyString found.1) EventTypeUpdate)
                 (mkListenableRouter [] None url0 false (-1))).1 ∧
          Priority l = -1 ∧ url l = url0 ∧ coherent l).
Proof.
  cbn zeta. unfold newListenableRouter, RULE_SUFFIX, DEFAULT_PRIORITY. split.
  - intros [->|Hdc]; [done|]. case_decide; [done|]. by rewrite Hdc.
  - intros Hkey Hdc. rewrite decide_False by done. rewrite Hdc. cbn [negb].
    destruct (GetRule centre (ruleKey +:+ ".condition-router") DEFAULT_GROUP)
      as [rule err] eqn:Hfound. cbn [fst snd].
    assert (Hlen : String.length rule = 0%nat ↔ rule = "") by (by destruct rule).
    destruct (decide (rule = "" ∨ err ≠ None)) as [Hbad|Hgood].
    + rewrite decide_True by (rewrite Hlen; exact Hbad). done.
    + rewrite decide_False by (rewrite Hlen; exact Hgood).
      change (Z.lnot 0) with (-1).
      set (event := mkConfigChangeEvent _ _ _).
      set (l0 := mkListenableRouter [] None url0 false (-1)).
      pose proof (Process_frame event l0) as (Hurl & _ & Hprio).
      pose proof (Process_coherent event l0 eq_refl) as Hco.
      destruct (Process event l0) as [l1 logs]. cbn [fst snd] in *.
      split; [done|]. exists l1. done.
Qed.

End RouterProperties.

(** A sample instance: invokers are numbers, a condition is a decimal bound,
    and an enabled router keeps the invokers below its bound. *)
Module RouterSample.

#[export] Instance types : RouterTypes :=
  {| Invoker := Z; Invocation := unit; Matcher := Z |}.

#[export] Instance deps : RouterDeps := {|
  Parse := fun content =>
    if decide (content = "broken") then (None, Some (errorString "yaml: bad rule"))
    else if decide (content = "draft") then (Some (mkRouterRule false true true ["9"]), None)
    else (Some (mkRouterRule true true true (GoStrings.Split content ";")), None);
  NewConditionRouterWithRule := fun c =>
    match Sample.digits c 0 with
    | Some bound => inl (mkConditionRouter bound false false)
    | None => inr (errorString "illegal route rule")
    end;
  cr_Route := fun r invokers _ _ =>
    if cr_enabled r then filter (fun i => i < matcher r) invokers else invokers;
  DEFAULT_GROUP := "dubbo"
|}.

Definition update (content : string) : ConfigChangeEvent :=
  mkConfigChangeEvent "app.condition-router" (AnyString content) EventTypeUpdate.

Definition afterEvents (events : list ConfigChangeEvent) : listenableRouter :=
  foldl (fun l event => (Process event l).1)
    (mkListenableRouter [] None 0%nat false DEFAULT_PRIORITY) events.

(** A rule with two good conditions and a bad one gives two routers; a rule
    that does not parse and a rule that is not valid change nothing; a
    delete event clears the router. *)
Example events_on_sample :
  let l := afterEvents [update "5;x;3"; update "broken"; update "draft"] in
  map matcher (conditionRouters l) = [5; 3] ∧
  Route l [1; 4; 7; 2] Sample.noURL tt = [1; 2] ∧
  Priority l = -1 ∧
  Route (afterEvents [update "5;x;3"; mkConfigChangeEvent "k" (AnyOther 0) EventTypeDel])
    [1; 4; 7; 2] Sample.noURL tt = [1; 4; 7; 2].
Proof. repeat split. Qed.

End RouterSample.

End ListenableRouter.

(** * The dubbo invoker (package [dubbo], dubbo_invoker.go): its client, its
    timeout and its shutdown *)
Module DubboInvoker.

(** A value of type [any]: a string, or something else. *)
Inductive Arg := StringArg (s : string) | OtherArg (tag : nat).

(** What the file takes from the packages constant, common, invocation and
    remoting: three parameter keys, [URL.GetParamBool], [URL.Location], the
    invocation with its accessors, [time.ParseDuration] (the duration
    returned, in nanoseconds; the call sites drop the error), [strconv.Itoa],
    and the exchange client, known by its identity. *)
Class InvokerDeps := {
  TimeoutKey : string;
  GenericKey : string;
  MethodKeys : string;
  GetParamBool : URL -> string -> bool -> bool;
  Location : URL -> string;
  RPCInvocation : Type;
  MethodName : RPCInvocation -> string;
  Arguments : RPCInvocation -> list Arg;
  GetAttachment : RPCInvocation -> string -> option string;
  SetAttachment : string -> string -> RPCInvocation -> RPCInvocation;
  ParseDuration : string -> Z;
  Itoa : Z -> string;
  ExchangeClient : Type
}.

(** What a method does outside the invoker, in order. *)
Inductive Action `{I : InvokerDeps} :=
| DecreaseActiveNumber (c : ExchangeClient)
| MapDelete (location : string)
| ClientClose (c : ExchangeClient)
| BaseDestroy.

(** The exchange layer: the active number a client reports when decreased,
    and whether it is available. *)
Class Exchange `{I : InvokerDeps} (X : Type) := {
  decrease : ExchangeClient -> X -> Z * X;
  available : ExchangeClient -> X -> bool
}.

Section Invoker.
Context `{I : InvokerDeps} {X : Type} `{Ex : !Exchange X}.

(** The invoker: the URL of its [BaseInvoker], the client, whether
    [quitOnce] has run, and the timeout of the service level. *)
Record DubboInvoker := mkDubboInvoker {
  url : URL;
  client : option ExchangeClient;
  quitOnce : bool;
  timeout : Z
}.

Record State := mkState {
  invoker : DubboInvoker;
  exchange : X;
  actions : list Action
}.

Definition setClient (c : option ExchangeClient) (s : State) : State :=
  mkState (mkDubboInvoker (url (invoker s)) c (quitOnce (invoker s)) (timeout (invoker s)))
    (exchange s) (actions s).

Definition getClient (s : State) : option ExchangeClient := client (invoker s).

Definition act (a : Action) (s : State) : State :=
  mkState (invoker s) (exchange s) (actions s ++ [a]).

(** [time.Duration.Milliseconds]: integer division, rounding towards zero. *)
Definition Milliseconds (d : Z) : Z := Z.quot d 1000000.

(** getTimeout: the timeout and the invocation with the timeout attached, or
    [None] for the panic of [ivc.Arguments()[0].(string)]. *)
Definition getTimeout (di : DubboInvoker) (ivc : RPCInvocation)
  : option (Z * RPCInvocation) :=
  let timeout0 := timeout di in
  timeout ←
    match GetAttachment ivc TimeoutKey with
    | Some attachTimeout => Some (ParseDuration attachTimeout)
    | None =>
        methodName ←
          (if GetParamBool (url di) GenericKey false then
             match Arguments ivc with
             | StringArg s :: _ => Some s
             | _ => None
             end
           else Some (MethodName ivc));
        let mTimeout :=
          GetParam (url di) (GoStrings.Join [MethodKeys; methodName; TimeoutKey] ".") "" in
        if decide (String.length mTimeout ≠ 0%nat) then Some (ParseDuration mTimeout)
        else Some timeout0
    end;
  Some (timeout, SetAttachment TimeoutKey (Itoa (Milliseconds timeout)) ivc).

Definition IsAvailable (s : State) : bool :=
  match getClient s with
  | Some c => available c (exchange s)
  | None => false
  end.

(** Destroy: the body runs under [quitOnce], so at the first call only. *)
Definition Destroy (s : State) : State :=
  if quitOnce (invoker s) then s
  else
    let s := mkState (mkDubboInvoker (url (invoker s)) (client (invoker s)) true
                        (timeout (invoker s))) (exchange s) (actions s) in
    let s :=
      match getClient s with
      | Some c =>
          let '(activeNumber, x) := decrease c (exchange s) in
          let s := act (DecreaseActiveNumber c) (mkState (invoker s) x (actions s)) in
          let s := setClient None s in
          if decide (activeNumber = 0) then
            act (ClientClose c) (act (MapDelete (Location (url (invoker s)))) s)
          else s
      | None => s
      end in
    act BaseDestroy s.

End Invoker.

Section InvokerProperties.
Context `{I : InvokerDeps} {X : Type} `{Ex : !Exchange X}.

(** What the first Destroy does outside the invoker: the client, if there is
    one, is released, and closed (after its entry of the client map is
    deleted) only when no invoker uses it any more; then the base invoker is
    destroyed. *)
Definition shutdownOf (s : State (X := X)) : list Action :=
  match client (invoker s) with
  | None => [BaseDestroy]
  | Some c =>
      DecreaseActiveNumber c ::
      (if decide ((decrease c (exchange s)).1 = 0)
       then [MapDelete (Location (url (invoker s))); ClientClose c] else [])
      ++ [BaseDestroy]
  end.

(** Destroy runs its body once: the first call does [shutdownOf] and leaves
    the invoker without client, so unavailable, whether or not the client
    was closed; every later call changes nothing. *)
Theorem Destroy_runs_once (s : State (X := X)) :
  let s1 := Destroy s in
  quitOnce (invoker s1) = true ∧
  (∀ n, Nat.iter n Destroy s1 = s1) ∧
  (quitOnce (invoker s) = true → s1 = s) ∧
  (quitOnce (invoker s) = false →
   actions s1 = actions s ++ shutdownOf s ∧
   getClient s1 = None ∧ IsAvailable s1 = false ∧
   url (invoker s1) = url (invoker s) ∧ timeout (invoker s1) = timeout (invoker s)).
Proof.
  cbn zeta.
  assert (Hdone : quitOnce (invoker (Destroy s)) = true).
  { unfold Destroy. destruct (quitOnce (invoker s)) eqn:Hq; [done|].
    unfold getClient. cbn. destruct (client (invoker s)) as [c|]; [|done].
    destruct (decrease c (exchange s)) as [n x]. cbn. by case_decide. }
  split; [exact Hdone|]. split; [|split].
  - intros n. induction n as [|n IH]; [done|]. rewrite Nat.iter_succ, IH.
    unfold Destroy at 1. by rewrite Hdone.
  - intros Hq. unfold Destroy. by rewrite Hq.
  - intros Hq. unfold Destroy, shutdownOf, IsAvailable, getClient. rewrite Hq. cbn.
    destruct (client (invoker s)) as [c|]; [|done].
    destruct (decrease c (exchange s)) as [n x]. cbn.
    case_decide; cbn; rewrite <- ?app_assoc; done.
Qed.

(** getTimeout: a timeout attached to the invocation is taken, whatever the
    URL says; otherwise the method-level timeout of the URL, if it is set,
    and else the timeout of the invoker; for a generic URL the method is
    named by the first argument, and the call panics when there is none or
    it is no string, unless a timeout is attached. The timeout is then
    attached to the invocation in milliseconds, rounded towards zero. *)
Theorem getTimeout_cases (di : DubboInvoker) (ivc : RPCInvocation) :
  let attach t := Some (t, SetAttachment TimeoutKey (Itoa (Z.quot t 1000000)) ivc) in
  let methodTimeout m :=
    GetParam (url di) (MethodKeys +:+ "." +:+ m +:+ "." +:+ TimeoutKey) "" in
  let byMethod m :=
    if decide (methodTimeout m = "") then attach (timeout di)
    else attach (ParseDuration (methodTimeout m)) in
  let generic := GetParamBool (url di) GenericKey false in
  (∀ a, GetAttachment ivc TimeoutKey = Some a →
        getTimeout di ivc = attach (ParseDuration a)) ∧
  (GetAttachment ivc TimeoutKey = None → generic = false →
   getTimeout di ivc = byMethod (MethodName ivc)) ∧
  (GetAttachment ivc TimeoutKey = None → generic = true →
   ∀ m rest, Arguments ivc = StringArg m :: rest → getTimeout di ivc = byMethod m) ∧
  (GetAttachment ivc TimeoutKey = None → generic = true →
   Arguments ivc = [] ∨ (∃ tag rest, Arguments ivc = OtherArg tag :: rest) →
   getTimeout di ivc = None).
Proof.
  cbn zeta. unfold getTimeout, Milliseconds.
  assert (Hlen : ∀ v : string, String.length v ≠ 0%nat ↔ v ≠ "").
  { intros [|c v]; cbn; split; congruence. }
  split; [|split; [|split]].
  - intros a ->. done.
  - intros -> ->. cbn.
    destruct (decide (_ = "")) as [Hempty|Hset].
    + rewrite decide_False by (rewrite Hlen; tauto). done.
    + by rewrite decide_True by (by rewrite Hlen).
  - intros -> -> m rest ->. cbn.
    destruct (decide (_ = "")) as [Hempty|Hset].
    + rewrite decide_False by (rewrite Hlen; tauto). done.
    + by rewrite decide_True by (by rewrite Hlen).
  - intros -> -> [->|(tag & rest & ->)]; done.
Qed.

End InvokerProperties.

(** A sample instance: attachments are a list of pairs, durations are read
    as whole seconds, and a client is a number. *)
Module InvokerSample.

Definition seconds (s : string) : Z :=
  match Sample.digits s 0 with
  | Some n => n * 1000000000
  | None => 0
  end.

#[export] Instance deps : InvokerDeps := {|
  TimeoutKey := "timeout";
  GenericKey := "generic";
  MethodKeys := "methods";
  GetParamBool := fun u key d => if decide (GetParam u key "" = "") then d
                                 else bool_decide (GetParam u key "" = "true");
  Location := fun u => Ip u +:+ ":" +:+ Port u;
  RPCInvocation := string * list Arg * list (string * string);
  MethodName := fun ivc => ivc.1.1;
  Arguments := fun ivc => ivc.1.2;
  GetAttachment := fun ivc key => snd <$> List.find (fun kv => bool_decide (kv.1 = key)) ivc.2;
  SetAttachment := fun key value ivc => (ivc.1, (key, value) :: ivc.2);
  ParseDuration := seconds;
  Itoa := Sample.itoa;
  ExchangeClient := nat
|}.

(** The active number of every client, by its identity. *)
#[export] Instance exchange : Exchange (nat → Z) := {|
  decrease := fun c x => (x c - 1, fun c' => if decide (c' = c) then x c - 1 else x c');
  available := fun c x => bool_decide (0 < x c)
|}.

Definition hello : URL := Sample.urlWith [("methods.hello.timeout", "3")].

(** An invoker of the sample service, its client used by [users] invokers. *)
Definition serving (users : Z) : State (X := nat → Z) :=
  mkState (mkDubboInvoker hello (Some 1%nat) false 1000000000) (fun _ : nat => users) [].

(** The invoker that uses the client last closes it; one that shares it does
    not; both are unavailable afterwards, and a second Destroy does
    nothing. *)
Example Destroy_on_sample :
  actions (Destroy (serving 1))
    = [DecreaseActiveNumber 1%nat; MapDelete "10.0.0.1:20880"; ClientClose 1%nat;
       BaseDestroy] ∧
  actions (Destroy (serving 2)) = [DecreaseActiveNumber 1%nat; BaseDestroy] ∧
  IsAvailable (serving 2) = true ∧ IsAvailable (Destroy (serving 2)) = false ∧
  actions (Destroy (Destroy (serving 1))) = actions (Destroy (serving 1)).
Proof. repeat split. Qed.

(** The attached timeout wins over the method-level one, which wins over the
    invoker's. *)
Example getTimeout_on_sample :
  fst <$> getTimeout (invoker (serving 1)) ("hello", [], [("timeout", "7")])
    = Some 7000000000 ∧
  fst <$> getTimeout (invoker (serving 1)) ("hello", [], []) = Some 3000000000 ∧
  fst <$> getTimeout (invoker (serving 1)) ("other", [], []) = Some 1000000000 ∧
  (GetAttachment (SetAttachment "timeout" "3000" ("hello", [], [])) "timeout"
   = Some "3000" ∧
   snd <$> getTimeout (invoker (serving 1)) ("hello", [], [])
   = Some (SetAttachment "timeout" "3000" ("hello", [], []))).
Proof. repeat split. Qed.

End InvokerSample.

End DubboInvoker.
